(** * BletchMAME: info database builder and task glue

    A shallow embedding of the parts of BletchMAME that build the machine
    information database ([info_builder.cpp], [utility.h], [utility.cpp]) and
    of the two tasks that drive the emulator ([listxmltask.cpp],
    [runmachinetask.cpp]), followed by the properties established for them.

    Conventions.
    - [std::uint8_t], [std::uint32_t] and [std::uint64_t] values are [Z]; the
      wrap-around of a narrowing conversion is written out with [mod].
    - [std::string], [QString] (always converted as UTF-8) and [const char *]
      strings are [string], a sequence of 8-bit characters; [std::vector<char>]
      is [list ascii].
    - [std::vector<T>] is [list T]; [emplace_back] appends at the end.
    - [std::unordered_map] is a [gmap].
    - A call that can throw, fail an assertion or leave defined behaviour
      returns an [outcome]. *)

From Stdlib Require Import ZArith Lia String Ascii.
From stdpp Require Import base option list gmap strings sorting.

Local Open Scope Z_scope.

(** ** Outcomes of a call *)

(** What stops a call other than a C++ exception. *)
Inductive fault : Type :=
| AssertionFailed                        (* a failed [assert] *)
| OutOfRange (index size : nat)          (* [v[index]] with [size <= index] *)
| DivisionByZero                         (* [i % 0] *)
| Unterminated.                          (* a C string without its NUL *)

Inductive outcome (A : Type) : Type :=
| Ok (a : A)
| Throw (what : string)                  (* a [std::exception] with [what()] *)
| Fault (f : fault).

Arguments Ok {A} a.
Arguments Throw {A} what.
Arguments Fault {A} f.

#[global] Instance outcome_ret : MRet outcome := @Ok.
#[global] Instance outcome_bind : MBind outcome := fun A B f m =>
  match m with
  | Ok a => f a
  | Throw what => Throw what
  | Fault x => Fault x
  end.
#[global] Instance outcome_fmap : FMap outcome := fun A B f m =>
  match m with
  | Ok a => Ok (f a)
  | Throw what => Throw what
  | Fault x => Fault x
  end.

Definition is_Ok {A} (m : outcome A) : Prop := exists a, m = Ok a.

(** The character with code 0. *)
Definition NUL : ascii := Ascii.zero.

(** [ch] as the integer the C++ expression [ch] promotes to (characters of
    the ranges used below are the same signed or unsigned). *)
Definition char_code (ch : ascii) : Z := Z.of_N (N_of_ascii ch).

(** ** utility.h, utility.cpp *)

Module util.

(** [static std::optional<uint8_t> hexDigit(char ch)]: the three groups of
    [case] labels are the three ranges tested here. *)
Definition hexDigit (ch : ascii) : option Z :=
  let c := char_code ch in
  if (char_code "0" <=? c) && (c <=? char_code "9") then Some (c - char_code "0")
  else if (char_code "A" <=? c) && (c <=? char_code "F") then Some (c - char_code "A" + 10)
  else if (char_code "a" <=? c) && (c <=? char_code "f") then Some (c - char_code "a" + 10)
  else None.

(** [hex[i]] on a [std::string_view]: defined only for [i < hex.size()]. *)
Definition string_view_at (hex : string) (i : nat) : outcome ascii :=
  match String.get i hex with
  | Some ch => Ok ch
  | None => Fault (OutOfRange i (String.length hex))
  end.

(** The [while] loop of [util::binaryFromHex]; [pos] grows by one in every
    iteration that does not leave the loop, so [fuel = dest.size() - pos]
    iterations are enough (see [binaryFromHex_loop_fuel]). *)
Fixpoint binaryFromHex_loop (fuel : nat) (dest : list Z) (hex : string) (pos : nat)
  : outcome (list Z * nat) :=
  match fuel with
  | O => Ok (dest, pos)
  | S fuel' =>
      if ((pos <? length dest)%nat && (pos <? String.length hex * 2)%nat)%bool then
        chHi ← string_view_at hex (pos * 2 + 0);
        match hexDigit chHi with
        | None => Ok (dest, pos)
        | Some hiDigit =>
            chLo ← string_view_at hex (pos * 2 + 1);
            match hexDigit chLo with
            | None => Ok (dest, pos)
            | Some loDigit =>
                binaryFromHex_loop fuel'
                  (<[pos := Z.lor (Z.shiftl hiDigit 4) (Z.shiftl loDigit 0)]> dest)
                  hex (S pos)
            end
        end
      else Ok (dest, pos)
  end.

(** [std::size_t util::binaryFromHex(std::span<uint8_t> &dest, std::string_view hex)]:
    the bytes of [dest] after the call, and the returned [pos]. *)
Definition binaryFromHex (dest : list Z) (hex : string) : outcome (list Z * nat) :=
  binaryFromHex_loop (length dest) dest hex 0.

(** [hex[i]] where the view is made of a [std::string], as the
    [binaryFromHex] of info_builder.cpp makes it of [*hex]: the storage of the
    string holds a NUL after its characters ([data()[size()]]), which the read
    at [hex.size()] gives; past it nothing is known to be there. *)
Definition std_string_at (hex : string) (i : nat) : outcome ascii :=
  match String.get i hex with
  | Some ch => Ok ch
  | None =>
      if decide (i = String.length hex) then Ok NUL
      else Fault (OutOfRange i (String.length hex))
  end.

(** The [while] loop of [util::binaryFromHex], the reads [hex[i]] being those
    of [read]; with [string_view_at] it is [binaryFromHex_loop]. *)
Fixpoint binaryFromHex_loop_with (read : string -> nat -> outcome ascii) (fuel : nat)
  (dest : list Z) (hex : string) (pos : nat) : outcome (list Z * nat) :=
  match fuel with
  | O => Ok (dest, pos)
  | S fuel' =>
      if ((pos <? length dest)%nat && (pos <? String.length hex * 2)%nat)%bool then
        chHi ← read hex (pos * 2 + 0)%nat;
        match hexDigit chHi with
        | None => Ok (dest, pos)
        | Some hiDigit =>
            chLo ← read hex (pos * 2 + 1)%nat;
            match hexDigit chLo with
            | None => Ok (dest, pos)
            | Some loDigit =>
                binaryFromHex_loop_with read fuel'
                  (<[pos := Z.lor (Z.shiftl hiDigit 4) (Z.shiftl loDigit 0)]> dest)
                  hex (S pos)
            end
        end
      else Ok (dest, pos)
  end.

(** [util::binaryFromHex] with the reads of [read]. *)
Definition binaryFromHex_with (read : string -> nat -> outcome ascii) (dest : list Z)
  (hex : string) : outcome (list Z * nat) :=
  binaryFromHex_loop_with read (length dest) dest hex 0.

(** [util::last(container)]. *)
Definition last {A} (container : list A) : outcome A :=
  match list.last container with
  | Some x => Ok x
  | None => Fault AssertionFailed
  end.

(** The loop of [util::salt(void *, const void *, size_t, const void *, size_t)],
    from index [i] on; [original] holds the bytes not yet visited. *)
Fixpoint salt_loop (original : list Z) (salt : list Z) (i : nat) : outcome (list Z) :=
  match original with
  | [] => Ok []
  | b :: original' =>
      if (length salt =? 0)%nat then Fault DivisionByZero
      else
        match salt !! (i mod length salt)%nat with
        | None => Fault (OutOfRange (i mod length salt)%nat (length salt))
        | Some s => rest ← salt_loop original' salt (S i); Ok (Z.lxor b s :: rest)
        end
  end.

(** [template<typename TStruct, typename TSalt> TStruct salt(const TStruct &, const TSalt &)]
    on the object representations of the two values. *)
Definition salt (original salt_value : list Z) : outcome (list Z) :=
  salt_loop original salt_value 0.

(** *** Strings and containers

    A [TStr] ([QString], [wxString], [std::string]) is here the sequence of
    its characters, of any character type. *)

Section strings.
Context {Char : Type}.

(** [TStr word(&*first, n)]: the [n] characters from the position [first] on. *)
Definition word_at (str : list Char) (first n : nat) : list Char :=
  take n (drop first str).

(** The [for] loop of [string_split]: [rest] holds the characters from
    [iter] to [str.cend()]; the loop leaves [word_begin] and [results]. *)
Fixpoint string_split_loop (str : list Char) (is_delim : Char -> bool)
  (rest : list Char) (iter word_begin : nat) (results : list (list Char))
  : nat * list (list Char) :=
  match rest with
  | [] => (word_begin, results)
  | ch :: rest' =>
      if is_delim ch then
        let results :=
          if (word_begin <? iter)%nat
          then results ++ [word_at str word_begin (iter - word_begin)]
          else results in
        string_split_loop str is_delim rest' (S iter) (S iter) results
      else string_split_loop str is_delim rest' (S iter) word_begin results
  end.

(** [template<typename TStr, typename TFunc> std::vector<TStr> string_split(const TStr &str, TFunc &&is_delim)] *)
Definition string_split (str : list Char) (is_delim : Char -> bool) : list (list Char) :=
  let '(word_begin, results) := string_split_loop str is_delim str 0 0 [] in
  if (word_begin <? length str)%nat
  then results ++ [word_at str word_begin (length str - word_begin)]
  else results.

(** The [for] loop of [string_join], with [result] and [is_first]. *)
Fixpoint string_join_loop (delim : list Char) (collection : list (list Char))
  (func : list Char -> list Char) (result : list Char) (is_first : bool) : list Char :=
  match collection with
  | [] => result
  | member :: collection' =>
      let result := if is_first then result else result ++ delim in
      string_join_loop delim collection' func (result ++ func member) false
  end.

(** [template<typename TStr, typename TColl, typename TFunc> TStr string_join(const TStr &delim, const TColl &collection, TFunc func)] *)
Definition string_join_with (delim : list Char) (collection : list (list Char))
  (func : list Char -> list Char) : list Char :=
  string_join_loop delim collection func [] true.

(** [template<typename TStr, typename TColl> TStr string_join(const TStr &delim, const TColl &collection)] *)
Definition string_join (delim : list Char) (collection : list (list Char)) : list Char :=
  string_join_with delim collection (fun s => s).

End strings.

(** [static_cast<int>(sz)]: the 32-bit two's complement integer congruent to [sz]. *)
Definition to_int (sz : Z) : Z := (sz + 2 ^ 31) mod 2 ^ 32 - 2 ^ 31.

(** [template<class T> T safe_static_cast(size_t sz)] at [T = int], as
    [dialogs/paths.cpp] calls it; [size_t] is [size_bits] wide. In
    [sz != result] the [int] is converted to [size_t]. *)
Definition safe_static_cast (size_bits : Z) (sz : Z) : outcome Z :=
  let result := to_int sz in
  if decide (sz ≠ result mod 2 ^ size_bits) then Throw "Overflow"
  else Ok result.

End util.

(** ** Record update *)

(** [set proj f r] is [r] with the field [proj] replaced by [f (proj r)]; the
    instances are built from the eta-expansion of the record's constructor. *)
Class Setter {R T : Type} (proj : R -> T) := set : (T -> T) -> R -> R.
Arguments set {R T} proj {Setter} f r / : assert.

Ltac build_setter eta :=
  lazymatch goal with
  | |- @Setter ?R ?T ?proj =>
      let body := eval cbv beta delta [eta] in eta in
      lazymatch eval pattern proj in body with
      | ?abstracted _ =>
          let s := eval cbv beta in (fun (f : T -> T) => abstracted (fun r => f (proj r))) in
          exact s
      end
  end.

Notation "r <| proj := v |>" := (set proj (fun _ => v) r)
  (at level 1, left associativity, format "r  <| proj  :=  v |>").
Notation "r <| proj ::= f |>" := (set proj f r)
  (at level 1, left associativity, format "r  <| proj  ::=  f |>").

(** ** info.h: what the builder uses of it *)

Module info.

(** [info::rom::dump_status_t], as listed by [s_dump_status_parser]. *)
Module rom.
Inductive dump_status_t : Type := BADDUMP | NODUMP | GOOD.
End rom.

(** [info::software_list::status_type], as listed by [s_status_parser]. *)
Module software_list.
Inductive status_type : Type := ORIGINAL | COMPATIBLE.
End software_list.

(** [info::configuration_condition::relation_t], as listed by [s_relation_parser]. *)
Module configuration_condition.
Inductive relation_t : Type := EQ | NE | GT | LE | LT | GE.
End configuration_condition.

(** [info::feature::type_t] and [info::feature::quality_t]. *)
Module feature.
Inductive type_t : Type :=
| PROTECTION | TIMING | GRAPHICS | PALETTE | SOUND | CAPTURE | CAMERA
| MICROPHONE | CONTROLS | KEYBOARD | MOUSE | MEDIA | DISK | PRINTER | TAPE
| PUNCH | DRUM | ROM | COMMS | LAN | WAN.
Inductive quality_t : Type := UNEMULATED | IMPERFECT.
End feature.

(** [info::chip::type_t]. *)
Module chip.
Inductive type_t : Type := CPU | AUDIO.
End chip.

(** [info::display::type_t] and [info::display::rotation_t]. *)
Module display.
Inductive type_t : Type := UNKNOWN | RASTER | VECTOR | LCD | SVG.
Inductive rotation_t : Type := ROT0 | ROT90 | ROT180 | ROT270.
End display.

(** [info::machine::driver_quality_t]. *)
Module machine.
Inductive driver_quality_t : Type := GOOD | IMPERFECT | PRELIMINARY.
End machine.

(** *** info::binaries

    The structures are declared in [info.h]; each record lists the fields the
    builder assigns, with the width of the value assigned to them: [Z] holds
    an unsigned integer, [m_crc] and [m_sha1] are byte arrays and [m_refresh]
    is the 32-bit pattern of a [float]. *)

Module binaries.

(** The fields of [info::binaries::machine] that [process_xml] assigns. *)
Module machine.
Record t : Type := Build {
  m_runnable : Z;
  m_name_strindex : Z;
  m_sourcefile_strindex : Z;
  m_clone_of_machindex : Z;
  m_rom_of_machindex : Z;
  m_is_bios : Z;
  m_is_device : Z;
  m_is_mechanical : Z;
  m_biossets_index : Z;
  m_biossets_count : Z;
  m_roms_index : Z;
  m_roms_count : Z;
  m_disks_index : Z;
  m_disks_count : Z;
  m_features_index : Z;
  m_features_count : Z;
  m_chips_index : Z;
  m_chips_count : Z;
  m_displays_index : Z;
  m_displays_count : Z;
  m_samples_index : Z;
  m_samples_count : Z;
  m_configurations_index : Z;
  m_configurations_count : Z;
  m_software_lists_index : Z;
  m_software_lists_count : Z;
  m_ram_options_index : Z;
  m_ram_options_count : Z;
  m_devices_index : Z;
  m_devices_count : Z;
  m_slots_index : Z;
  m_slots_count : Z;
  m_description_strindex : Z;
  m_year_strindex : Z;
  m_manufacturer_strindex : Z;
  m_quality_status : Z;
  m_quality_emulation : Z;
  m_quality_cocktail : Z;
  m_save_state_supported : Z;
  m_unofficial : Z;
  m_incomplete : Z;
  m_sound_channels : Z
}.
Definition eta (r : t) : t :=
  Build (m_runnable r) (m_name_strindex r) (m_sourcefile_strindex r)
  (m_clone_of_machindex r) (m_rom_of_machindex r) (m_is_bios r) (m_is_device r)
  (m_is_mechanical r) (m_biossets_index r) (m_biossets_count r) (m_roms_index r)
  (m_roms_count r) (m_disks_index r) (m_disks_count r) (m_features_index r)
  (m_features_count r) (m_chips_index r) (m_chips_count r) (m_displays_index r)
  (m_displays_count r) (m_samples_index r) (m_samples_count r) (m_configurations_index r)
  (m_configurations_count r) (m_software_lists_index r) (m_software_lists_count r)
  (m_ram_options_index r) (m_ram_options_count r) (m_devices_index r) (m_devices_count r)
  (m_slots_index r) (m_slots_count r) (m_description_strindex r) (m_year_strindex r)
  (m_manufacturer_strindex r) (m_quality_status r) (m_quality_emulation r)
  (m_quality_cocktail r) (m_save_state_supported r) (m_unofficial r) (m_incomplete r)
  (m_sound_channels r).
#[global] Instance set_m_clone_of_machindex : Setter m_clone_of_machindex := ltac:(build_setter eta).
#[global] Instance set_m_rom_of_machindex : Setter m_rom_of_machindex := ltac:(build_setter eta).
#[global] Instance set_m_biossets_count : Setter m_biossets_count := ltac:(build_setter eta).
#[global] Instance set_m_roms_count : Setter m_roms_count := ltac:(build_setter eta).
#[global] Instance set_m_disks_count : Setter m_disks_count := ltac:(build_setter eta).
#[global] Instance set_m_features_count : Setter m_features_count := ltac:(build_setter eta).
#[global] Instance set_m_chips_count : Setter m_chips_count := ltac:(build_setter eta).
#[global] Instance set_m_displays_count : Setter m_displays_count := ltac:(build_setter eta).
#[global] Instance set_m_samples_count : Setter m_samples_count := ltac:(build_setter eta).
#[global] Instance set_m_configurations_count : Setter m_configurations_count := ltac:(build_setter eta).
#[global] Instance set_m_software_lists_count : Setter m_software_lists_count := ltac:(build_setter eta).
#[global] Instance set_m_ram_options_count : Setter m_ram_options_count := ltac:(build_setter eta).
#[global] Instance set_m_devices_count : Setter m_devices_count := ltac:(build_setter eta).
#[global] Instance set_m_slots_count : Setter m_slots_count := ltac:(build_setter eta).
#[global] Instance set_m_description_strindex : Setter m_description_strindex := ltac:(build_setter eta).
#[global] Instance set_m_year_strindex : Setter m_year_strindex := ltac:(build_setter eta).
#[global] Instance set_m_manufacturer_strindex : Setter m_manufacturer_strindex := ltac:(build_setter eta).
#[global] Instance set_m_quality_status : Setter m_quality_status := ltac:(build_setter eta).
#[global] Instance set_m_quality_emulation : Setter m_quality_emulation := ltac:(build_setter eta).
#[global] Instance set_m_quality_cocktail : Setter m_quality_cocktail := ltac:(build_setter eta).
#[global] Instance set_m_save_state_supported : Setter m_save_state_supported := ltac:(build_setter eta).
#[global] Instance set_m_unofficial : Setter m_unofficial := ltac:(build_setter eta).
#[global] Instance set_m_incomplete : Setter m_incomplete := ltac:(build_setter eta).
#[global] Instance set_m_sound_channels : Setter m_sound_channels := ltac:(build_setter eta).
End machine.

(** [info::binaries::biosset]. *)
Module biosset.
Record t : Type := Build {
  m_name_strindex : Z;
  m_description_strindex : Z;
  m_default : Z
}.
End biosset.

(** [info::binaries::rom]. *)
Module rom.
Record t : Type := Build {
  m_name_strindex : Z;
  m_bios_strindex : Z;
  m_size : Z;
  m_crc : list Z;
  m_sha1 : list Z;
  m_merge_strindex : Z;
  m_region_strindex : Z;
  m_offset : Z;
  m_status : Z;
  m_optional : Z
}.
End rom.

(** [info::binaries::disk]. *)
Module disk.
Record t : Type := Build {
  m_name_strindex : Z;
  m_sha1 : list Z;
  m_merge_strindex : Z;
  m_region_strindex : Z;
  m_index : Z;
  m_writable : Z;
  m_status : Z;
  m_optional : Z
}.
End disk.

(** [info::binaries::feature]. *)
Module feature.
Record t : Type := Build {
  m_type : Z;
  m_status : Z;
  m_overall : Z
}.
End feature.

(** [info::binaries::chip]. *)
Module chip.
Record t : Type := Build {
  m_type : Z;
  m_name_strindex : Z;
  m_tag_strindex : Z;
  m_clock : Z
}.
End chip.

(** [info::binaries::display]. *)
Module display.
Record t : Type := Build {
  m_tag_strindex : Z;
  m_width : Z;
  m_height : Z;
  m_refresh : Z;
  m_pixclock : Z;
  m_htotal : Z;
  m_hbend : Z;
  m_hbstart : Z;
  m_vtotal : Z;
  m_vbend : Z;
  m_vbstart : Z;
  m_type : Z;
  m_rotate : Z;
  m_flipx : Z
}.
End display.

(** [info::binaries::sample]. *)
Module sample.
Record t : Type := Build {
  m_name_strindex : Z
}.
End sample.

(** [info::binaries::configuration]. *)
Module configuration.
Record t : Type := Build {
  m_name_strindex : Z;
  m_tag_strindex : Z;
  m_mask : Z;
  m_configuration_settings_index : Z;
  m_configuration_settings_count : Z
}.
Definition eta (r : t) : t :=
  Build (m_name_strindex r) (m_tag_strindex r) (m_mask r)
  (m_configuration_settings_index r) (m_configuration_settings_count r).
#[global] Instance set_m_configuration_settings_count : Setter m_configuration_settings_count := ltac:(build_setter eta).
End configuration.

(** [info::binaries::configuration_setting]. *)
Module configuration_setting.
Record t : Type := Build {
  m_name_strindex : Z;
  m_conditions_index : Z;
  m_value : Z
}.
End configuration_setting.

(** [info::binaries::configuration_condition]. *)
Module configuration_condition.
Record t : Type := Build {
  m_tag_strindex : Z;
  m_relation : Z;
  m_mask : Z;
  m_value : Z
}.
End configuration_condition.

(** [info::binaries::device]. *)
Module device.
Record t : Type := Build {
  m_type_strindex : Z;
  m_tag_strindex : Z;
  m_interface_strindex : Z;
  m_mandatory : Z;
  m_instance_name_strindex : Z;
  m_extensions_strindex : Z
}.
Definition eta (r : t) : t :=
  Build (m_type_strindex r) (m_tag_strindex r) (m_interface_strindex r) (m_mandatory r)
  (m_instance_name_strindex r) (m_extensions_strindex r).
#[global] Instance set_m_instance_name_strindex : Setter m_instance_name_strindex := ltac:(build_setter eta).
#[global] Instance set_m_extensions_strindex : Setter m_extensions_strindex := ltac:(build_setter eta).
End device.

(** [info::binaries::slot]. *)
Module slot.
Record t : Type := Build {
  m_name_strindex : Z;
  m_slot_options_index : Z;
  m_slot_options_count : Z
}.
Definition eta (r : t) : t :=
  Build (m_name_strindex r) (m_slot_options_index r) (m_slot_options_count r).
#[global] Instance set_m_slot_options_count : Setter m_slot_options_count := ltac:(build_setter eta).
End slot.

(** [info::binaries::slot_option]. *)
Module slot_option.
Record t : Type := Build {
  m_name_strindex : Z;
  m_devname_strindex : Z;
  m_is_default : Z
}.
End slot_option.

(** [info::binaries::software_list]. *)
Module software_list.
Record t : Type := Build {
  m_name_strindex : Z;
  m_filter_strindex : Z;
  m_status : Z
}.
End software_list.

(** [info::binaries::ram_option]. *)
Module ram_option.
Record t : Type := Build {
  m_name_strindex : Z;
  m_is_default : Z;
  m_value : Z
}.
Definition eta (r : t) : t :=
  Build (m_name_strindex r) (m_is_default r) (m_value r).
#[global] Instance set_m_value : Setter m_value := ltac:(build_setter eta).
End ram_option.

(** The fields of [info::binaries::header] that [process_xml] assigns. *)
Module header.
Record t : Type := Build {
  m_magic : Z;
  m_sizes_hash : Z;
  m_build_strindex : Z;
  m_machines_count : Z;
  m_biossets_count : Z;
  m_roms_count : Z;
  m_disks_count : Z;
  m_devices_count : Z;
  m_slots_count : Z;
  m_slot_options_count : Z;
  m_features_count : Z;
  m_chips_count : Z;
  m_displays_count : Z;
  m_samples_count : Z;
  m_configurations_count : Z;
  m_configuration_settings_count : Z;
  m_configuration_conditions_count : Z;
  m_software_lists_count : Z;
  m_ram_options_count : Z
}.
Definition eta (r : t) : t :=
  Build (m_magic r) (m_sizes_hash r) (m_build_strindex r) (m_machines_count r)
  (m_biossets_count r) (m_roms_count r) (m_disks_count r) (m_devices_count r)
  (m_slots_count r) (m_slot_options_count r) (m_features_count r) (m_chips_count r)
  (m_displays_count r) (m_samples_count r) (m_configurations_count r)
  (m_configuration_settings_count r) (m_configuration_conditions_count r)
  (m_software_lists_count r) (m_ram_options_count r).
#[global] Instance set_m_magic : Setter m_magic := ltac:(build_setter eta).
#[global] Instance set_m_sizes_hash : Setter m_sizes_hash := ltac:(build_setter eta).
#[global] Instance set_m_build_strindex : Setter m_build_strindex := ltac:(build_setter eta).
#[global] Instance set_m_machines_count : Setter m_machines_count := ltac:(build_setter eta).
#[global] Instance set_m_biossets_count : Setter m_biossets_count := ltac:(build_setter eta).
#[global] Instance set_m_roms_count : Setter m_roms_count := ltac:(build_setter eta).
#[global] Instance set_m_disks_count : Setter m_disks_count := ltac:(build_setter eta).
#[global] Instance set_m_devices_count : Setter m_devices_count := ltac:(build_setter eta).
#[global] Instance set_m_slots_count : Setter m_slots_count := ltac:(build_setter eta).
#[global] Instance set_m_slot_options_count : Setter m_slot_options_count := ltac:(build_setter eta).
#[global] Instance set_m_features_count : Setter m_features_count := ltac:(build_setter eta).
#[global] Instance set_m_chips_count : Setter m_chips_count := ltac:(build_setter eta).
#[global] Instance set_m_displays_count : Setter m_displays_count := ltac:(build_setter eta).
#[global] Instance set_m_samples_count : Setter m_samples_count := ltac:(build_setter eta).
#[global] Instance set_m_configurations_count : Setter m_configurations_count := ltac:(build_setter eta).
#[global] Instance set_m_configuration_settings_count : Setter m_configuration_settings_count := ltac:(build_setter eta).
#[global] Instance set_m_configuration_conditions_count : Setter m_configuration_conditions_count := ltac:(build_setter eta).
#[global] Instance set_m_software_lists_count : Setter m_software_lists_count := ltac:(build_setter eta).
#[global] Instance set_m_ram_options_count : Setter m_ram_options_count := ltac:(build_setter eta).
End header.

End binaries.
(** *** Declarations the builder relies on

    [info.h], [info_builder.h] and [xmlparser.h] declare the constants, the
    small-string codec, the numeric values of the enumerators and the typed
    attribute conversions used below; [std::sort] and [QString::toULong] come
    from the C++ and Qt libraries. The embedding takes them as an interface. *)
Class Declarations : Type := {
  (** [info::binaries::MAGIC_HDR] and [info::database::calculate_sizes_hash()] *)
  MAGIC_HDR : Z;
  calculate_sizes_hash : Z;
  (** the bytes of [MAGIC_STRINGTABLE_BEGIN] and [MAGIC_STRINGTABLE_END] *)
  MAGIC_STRINGTABLE_BEGIN : list ascii;
  MAGIC_STRINGTABLE_END : list ascii;
  (** the object representations of [info::binaries::salt()] and of a header *)
  binaries_salt : list Z;
  header_bytes : binaries.header.t -> list Z;
  (** [sizeof(rom.m_crc)], [sizeof(rom.m_sha1)] *)
  crc_size : nat;
  sha1_size : nat;
  (** [info::database::tryEncodeAsSmallString], [tryDecodeAsSmallString];
      the decoded value is the [std::array<char, 6>] *)
  tryEncodeAsSmallString : string -> option Z;
  tryDecodeAsSmallString : Z -> option (list ascii);
  (** the values of the enumerators *)
  dump_status_value : rom.dump_status_t -> Z;
  status_type_value : software_list.status_type -> Z;
  relation_value : configuration_condition.relation_t -> Z;
  feature_type_value : feature.type_t -> Z;
  feature_quality_value : feature.quality_t -> Z;
  chip_type_value : chip.type_t -> Z;
  display_type_value : display.type_t -> Z;
  display_rotation_value : display.rotation_t -> Z;
  driver_quality_value : machine.driver_quality_t -> Z;
  (** [XmlParser::Attributes::get<T>]: the conversion of an attribute's text;
      [as_uint64] takes the radix, [as_float] yields the 32-bit pattern *)
  as_bool : string -> option bool;
  as_uint8 : string -> option Z;
  as_uint32 : string -> option Z;
  as_uint64 : Z -> string -> option Z;
  as_float : string -> option Z;
  (** the 32-bit pattern of [NAN] *)
  NAN : Z;
  (** [QString::toULong(&ok)] *)
  toULong : string -> option Z;
  (** [std::sort(first, last, comp)] *)
  std_sort : forall A : Type, (A -> A -> bool) -> list A -> list A;
}.

(** [strcmp(a, b)] on NUL-free strings: the sign of the first difference of
    the characters taken as [unsigned char]. *)
Definition strcmp (a b : string) : Z :=
  match String.compare a b with
  | Lt => -1
  | Eq => 0
  | Gt => 1
  end.

(** The C string that starts at the beginning of [chars]. *)
Fixpoint c_str (chars : list ascii) : outcome string :=
  match chars with
  | [] => Fault Unterminated
  | ch :: chars' =>
      if decide (ch = NUL) then Ok EmptyString
      else s ← c_str chars'; Ok (String ch s)
  end.

(** *** info_builder.cpp *)

(** [template<typename T> static std::uint32_t to_uint32(T &&value)], for a
    [value] of an unsigned type at least 32 bits wide. *)
Definition to_uint32 (value : Z) : outcome Z :=
  let new_value := value mod 2 ^ 32 in
  if decide (new_value ≠ value) then Throw "Array size cannot fit in 32 bits"
  else Ok new_value.

(** [static constexpr std::uint8_t encodeBool(std::optional<bool> b, std::uint8_t defaultValue = 0xFF)] *)
Definition encodeBool (b : option bool) (defaultValue : Z) : Z :=
  match b with
  | Some b => if b then 0x01 else 0x00
  | None => defaultValue
  end.

(** [static constexpr std::uint8_t encodeEnum(std::optional<T> &&value, std::uint8_t defaultValue = 0)];
    [code] gives the value of an enumerator, which the cast narrows. *)
Definition encodeEnum {T} (code : T -> Z) (value : option T) (defaultValue : Z) : Z :=
  match value with
  | Some v => code v mod 2 ^ 8
  | None => defaultValue
  end.

(** [template<int N> static bool binaryFromHex(std::uint8_t (&dest)[N], const std::optional<std::string> &hex)]:
    [dest] after the call and the returned flag; [N] is [length dest]. *)
Definition binaryFromHex (dest : list Z) (hex : option string) : outcome (list Z * bool) :=
  '(dest, pos) ← match hex with
                 | Some hex => util.binaryFromHex dest hex
                 | None => Ok (dest, 0%nat)
                 end;
  let N := length dest in
  Ok (take pos dest ++ replicate (N - pos) 0, bool_decide (pos = N)).

(** The same [binaryFromHex] of info_builder.cpp, the reads of the view
    being those of [read]: with [util.std_string_at], the call as the
    callbacks make it, on the [std::string] of an attribute. *)
Definition binaryFromHex_with (read : string -> nat -> outcome ascii) (dest : list Z)
  (hex : option string) : outcome (list Z * bool) :=
  '(dest, pos) ← match hex with
                 | Some hex => util.binaryFromHex_with read dest hex
                 | None => Ok (dest, 0%nat)
                 end;
  let N := length dest in
  Ok (take pos dest ++ replicate (N - pos) 0, bool_decide (pos = N)).

(** [util::enum_parser<T>]: the table given to the constructor;
    [operator()] finds the text among the keys. *)
Definition enum_parser (T : Type) : Type := list (string * T).

Fixpoint enum_parse {T} (parser : enum_parser T) (text : string) : option T :=
  match parser with
  | [] => None
  | (key, value) :: parser' =>
      if decide (key = text) then Some value else enum_parse parser' text
  end.

(** [util::enum_parser_bidirectional<T>::operator[]]: the constructor puts
    the pairs in [m_reverse_map] with [emplace], which keeps the first string
    of a value; [None] where [find] returns [end()], which the code
    dereferences. *)
Fixpoint enum_name {T} `{EqDecision T} (parser : enum_parser T) (val : T) : option string :=
  match parser with
  | [] => None
  | (str, value) :: parser' =>
      if decide (value = val) then Some str else enum_name parser' val
  end.

Definition s_dump_status_parser : enum_parser rom.dump_status_t :=
  [ ("baddump", rom.BADDUMP); ("nodump", rom.NODUMP); ("good", rom.GOOD) ]%string.

Definition s_status_parser : enum_parser software_list.status_type :=
  [ ("original", software_list.ORIGINAL); ("compatible", software_list.COMPATIBLE) ]%string.

Definition s_relation_parser : enum_parser configuration_condition.relation_t :=
  [ ("eq", configuration_condition.EQ); ("ne", configuration_condition.NE);
    ("gt", configuration_condition.GT); ("le", configuration_condition.LE);
    ("lt", configuration_condition.LT); ("ge", configuration_condition.GE) ]%string.

Definition s_feature_type_parser : enum_parser feature.type_t :=
  [ ("protection", feature.PROTECTION); ("timing", feature.TIMING);
    ("graphics", feature.GRAPHICS); ("palette", feature.PALETTE);
    ("sound", feature.SOUND); ("capture", feature.CAPTURE);
    ("camera", feature.CAMERA); ("microphone", feature.MICROPHONE);
    ("controls", feature.CONTROLS); ("keyboard", feature.KEYBOARD);
    ("mouse", feature.MOUSE); ("media", feature.MEDIA); ("disk", feature.DISK);
    ("printer", feature.PRINTER); ("tape", feature.TAPE); ("punch", feature.PUNCH);
    ("drum", feature.DRUM); ("rom", feature.ROM); ("comms", feature.COMMS);
    ("lan", feature.LAN); ("wan", feature.WAN) ]%string.

Definition s_feature_quality_parser : enum_parser feature.quality_t :=
  [ ("unemulated", feature.UNEMULATED); ("imperfect", feature.IMPERFECT) ]%string.

Definition s_chip_type_parser : enum_parser chip.type_t :=
  [ ("cpu", chip.CPU); ("audio", chip.AUDIO) ]%string.

Definition s_display_type_parser : enum_parser display.type_t :=
  [ ("unknown", display.UNKNOWN); ("raster", display.RASTER);
    ("vector", display.VECTOR); ("lcd", display.LCD); ("svg", display.SVG) ]%string.

Definition s_display_rotation_parser : enum_parser display.rotation_t :=
  [ ("0", display.ROT0); ("90", display.ROT90); ("180", display.ROT180);
    ("270", display.ROT270) ]%string.

Definition s_driver_quality_parser : enum_parser machine.driver_quality_t :=
  [ ("good", machine.GOOD); ("imperfect", machine.IMPERFECT);
    ("preliminary", machine.PRELIMINARY) ]%string.

Definition s_supported_parser : enum_parser bool :=
  [ ("supported", true); ("unsupported", false) ]%string.

(** *** XmlParser

    Modelled from the spec: [XmlParser] ([xmlparser.h], [xmlparser.cpp]) is
    not under src/. The builder is fed "a streaming source of
    element-begin/element-end events, each carrying a path (sequence of
    element names from the document root) and either a set of named
    attributes (on begin) or accumulated text content (on end)". A document
    is the events its parse delivers, whether the parse then reports success,
    and the text of [errorMessagesSingleString()]. *)
Definition Attributes : Type := list (string * string).

Inductive xml_event : Type :=
| ElementBegin (path : list string) (attributes : Attributes)
| ElementEnd (path : list string) (content : string).

Record xml_document : Type := {
  xml_events : list xml_event;
  xml_parsed : bool;
  xml_error_messages : string
}.

(** [attributes.get<QString>(name)], [attributes.get<std::string>(name)]. *)
Fixpoint get_string (attributes : Attributes) (name : string) : option string :=
  match attributes with
  | [] => None
  | (key, value) :: attributes' =>
      if decide (key = name) then Some value else get_string attributes' name
  end.

(** [attributes.get<T>(name)] and [attributes.get<T>(name, parser)]. *)
Definition get_with {T} (convert : string -> option T) (attributes : Attributes)
  (name : string) : option T :=
  get_string attributes name ≫= convert.

(** *** info::database_builder::string_table *)

Module string_table.

Record t : Type := Build {
  m_data : list ascii;
  m_map : gmap string Z
}.
Definition eta (r : t) : t := Build (m_data r) (m_map r).
#[global] Instance set_m_data : Setter m_data := ltac:(build_setter eta).
#[global] Instance set_m_map : Setter m_map := ltac:(build_setter eta).

Section string_table.
Context `{Declarations}.

(** Modelled from the spec: [embed_value] is defined in [info_builder.h], not
    under src/; "a magic sentinel value is embedded at the very start and
    very end of the table": the bytes of the value are appended to [m_data]. *)
Definition embed_value (value : list ascii) (this : t) : t :=
  this <| m_data ::= (fun data => data ++ value) |>.

(** [string_table::string_table()] *)
Definition ctor : t :=
  embed_value MAGIC_STRINGTABLE_BEGIN (Build [] ∅).

(** [std::uint32_t string_table::get(const std::string &s)]: the returned
    reference and the table after the call. *)
Definition get (s : string) (this : t) : outcome (Z * t) :=
  match tryEncodeAsSmallString s with
  | Some ssoResult => Ok (ssoResult, this)
  | None =>
      match m_map this !! s with
      | Some second => Ok (second, this)
      | None =>
          result ← to_uint32 (Z.of_nat (length (m_data this)));
          let this := this <| m_data ::= (fun data => data ++ list_ascii_of_string s ++ [NUL]) |> in
          let this := this <| m_map ::= (fun map => <[s := result]> map) |> in
          Ok (result, this)
      end
  end.

(** [std::uint32_t string_table::get(const XmlParser::Attributes &attributes, const char *attribute)];
    [QString()] is the empty string. *)
Definition get_attribute (attributes : Attributes) (attribute : string) (this : t)
  : outcome (Z * t) :=
  get (default EmptyString (get_string attributes attribute)) this.

(** [const char *string_table::lookup(std::uint32_t value, SsoBuffer &ssoBuffer) const]:
    the C string the returned pointer designates. *)
Definition lookup (value : Z) (this : t) : outcome string :=
  match tryDecodeAsSmallString value with
  | Some sso => c_str sso
  | None =>
      if decide (value < Z.of_nat (length (m_data this)))
      then c_str (drop (Z.to_nat value) (m_data this))
      else Fault AssertionFailed
  end.

End string_table.
End string_table.

(** *** info::database_builder *)

Module database_builder.

Record t : Type := Build {
  m_salted_header : list Z;
  m_machines : list binaries.machine.t;
  m_biossets : list binaries.biosset.t;
  m_roms : list binaries.rom.t;
  m_disks : list binaries.disk.t;
  m_devices : list binaries.device.t;
  m_slots : list binaries.slot.t;
  m_slot_options : list binaries.slot_option.t;
  m_features : list binaries.feature.t;
  m_chips : list binaries.chip.t;
  m_displays : list binaries.display.t;
  m_samples : list binaries.sample.t;
  m_configurations : list binaries.configuration.t;
  m_configuration_settings : list binaries.configuration_setting.t;
  m_configuration_conditions : list binaries.configuration_condition.t;
  m_software_lists : list binaries.software_list.t;
  m_ram_options : list binaries.ram_option.t;
  m_strings : string_table.t
}.
Definition eta (r : t) : t :=
  Build (m_salted_header r) (m_machines r) (m_biossets r) (m_roms r) (m_disks r)
    (m_devices r) (m_slots r) (m_slot_options r) (m_features r) (m_chips r)
    (m_displays r) (m_samples r) (m_configurations r) (m_configuration_settings r)
    (m_configuration_conditions r) (m_software_lists r) (m_ram_options r) (m_strings r).
#[global] Instance set_m_salted_header : Setter m_salted_header := ltac:(build_setter eta).
#[global] Instance set_m_machines : Setter m_machines := ltac:(build_setter eta).
#[global] Instance set_m_biossets : Setter m_biossets := ltac:(build_setter eta).
#[global] Instance set_m_roms : Setter m_roms := ltac:(build_setter eta).
#[global] Instance set_m_disks : Setter m_disks := ltac:(build_setter eta).
#[global] Instance set_m_devices : Setter m_devices := ltac:(build_setter eta).
#[global] Instance set_m_slots : Setter m_slots := ltac:(build_setter eta).
#[global] Instance set_m_slot_options : Setter m_slot_options := ltac:(build_setter eta).
#[global] Instance set_m_features : Setter m_features := ltac:(build_setter eta).
#[global] Instance set_m_chips : Setter m_chips := ltac:(build_setter eta).
#[global] Instance set_m_displays : Setter m_displays := ltac:(build_setter eta).
#[global] Instance set_m_samples : Setter m_samples := ltac:(build_setter eta).
#[global] Instance set_m_configurations : Setter m_configurations := ltac:(build_setter eta).
#[global] Instance set_m_configuration_settings : Setter m_configuration_settings := ltac:(build_setter eta).
#[global] Instance set_m_configuration_conditions : Setter m_configuration_conditions := ltac:(build_setter eta).
#[global] Instance set_m_software_lists : Setter m_software_lists := ltac:(build_setter eta).
#[global] Instance set_m_ram_options : Setter m_ram_options := ltac:(build_setter eta).
#[global] Instance set_m_strings : Setter m_strings := ltac:(build_setter eta).

(** What the callbacks of [process_xml] capture: the builder itself and the
    two locals [header] and [current_device_extensions]. *)
Record captures : Type := Captures {
  this : t;
  header : binaries.header.t;
  current_device_extensions : string
}.
Definition captures_eta (r : captures) : captures :=
  Captures (this r) (header r) (current_device_extensions r).
#[global] Instance set_this : Setter this := ltac:(build_setter captures_eta).
#[global] Instance set_header : Setter header := ltac:(build_setter captures_eta).
#[global] Instance set_current_device_extensions : Setter current_device_extensions :=
  ltac:(build_setter captures_eta).

(** A callback: a computation on the captured state. *)
Definition M (A : Type) : Type := captures -> outcome (A * captures).

#[global] Instance M_ret : MRet M := fun A a st => Ok (a, st).
#[global] Instance M_bind : MBind M := fun A B f m st =>
  match m st with
  | Ok (a, st') => f a st'
  | Throw what => Throw what
  | Fault x => Fault x
  end.

Definition lift {A} (o : outcome A) : M A := fun st => a ← o; Ok (a, st).
Definition read {A} (f : t -> A) : M A := fun st => Ok (f (this st), st).
Definition update (f : t -> t) : M unit := fun st => Ok (tt, st <| this ::= f |>).

Definition update_header (f : binaries.header.t -> binaries.header.t) : M unit :=
  fun st => Ok (tt, st <| header ::= f |>).

(** [util::last(v).field = ...]: the last element of [v] replaced by [f] of it. *)
Definition update_last {A} (f : A -> A) (v : list A) : outcome (list A) :=
  _ ← util.last v;
  Ok (alter f (Nat.pred (length v)) v).

(** [v.size()] as a [std::size_t] *)
Definition size {A} (v : list A) : Z := Z.of_nat (length v).

(** [x++] on a [std::uint32_t] *)
Definition incr (x : Z) : Z := (x + 1) mod 2 ^ 32.

Section callbacks.
Context `{Declarations}.

Import binaries.

(** [m_strings.get(s)] and [m_strings.get(attributes, attribute)] *)
Definition strings_get (s : string) : M Z := fun st =>
  '(result, strings) ← string_table.get s (m_strings (this st));
  Ok (result, st <| this ::= (fun b => b <| m_strings := strings |>) |>).

Definition strings_get_attribute (attributes : Attributes) (attribute : string) : M Z := fun st =>
  '(result, strings) ← string_table.get_attribute attributes attribute (m_strings (this st));
  Ok (result, st <| this ::= (fun b => b <| m_strings := strings |>) |>).

(** [to_uint32(v.size())] for a table [v] of the builder *)
Definition size_uint32 {A} (table : t -> list A) : M Z :=
  v ← read table; lift (to_uint32 (size v)).

(** [util::last(m_x).field = ...] on a table of the builder *)
Definition update_last_in {A} (table : t -> list A) (store : list A -> t -> t) (f : A -> A)
  : M unit := fun st =>
  v ← update_last f (table (this st));
  Ok (tt, st <| this ::= store v |>).

Definition update_last_machine (f : machine.t -> machine.t) : M unit :=
  update_last_in m_machines (fun v b => b <| m_machines := v |>) f.

Definition read_extensions : M string :=
  fun st => Ok (current_device_extensions st, st).
Definition update_extensions (f : string -> string) : M unit :=
  fun st => Ok (tt, st <| current_device_extensions ::= f |>).

(** [{ "mame" }], begin *)
Definition on_mame (attributes : Attributes) : M unit :=
  build ← strings_get_attribute attributes "build";
  update_header (fun h => h <| header.m_build_strindex := build |>).

(** [{ "mame", "machine" }], begin *)
Definition on_machine (attributes : Attributes) : M unit :=
  let runnable := encodeBool (Some (default true (get_with as_bool attributes "runnable"))) 0xFF in
  name ← strings_get_attribute attributes "name";
  sourcefile ← strings_get_attribute attributes "sourcefile";
  cloneof ← strings_get_attribute attributes "cloneof";
  romof ← strings_get_attribute attributes "romof";
  let is_bios := encodeBool (get_with as_bool attributes "isbios") 0xFF in
  let is_device := encodeBool (get_with as_bool attributes "isdevice") 0xFF in
  let is_mechanical := encodeBool (get_with as_bool attributes "ismechanical") 0xFF in
  biossets_index ← size_uint32 m_biossets;
  roms_index ← size_uint32 m_roms;
  disks_index ← size_uint32 m_disks;
  features_index ← size_uint32 m_features;
  chips_index ← size_uint32 m_chips;
  displays_index ← size_uint32 m_displays;
  samples_index ← size_uint32 m_samples;
  configurations_index ← size_uint32 m_configurations;
  software_lists_index ← size_uint32 m_software_lists;
  ram_options_index ← size_uint32 m_ram_options;
  devices_index ← size_uint32 m_devices;
  slots_index ← size_uint32 m_slots;
  update (fun b => b <| m_machines ::= (fun v => v ++ [
    {| machine.m_runnable := runnable;
       machine.m_name_strindex := name;
       machine.m_sourcefile_strindex := sourcefile;
       machine.m_clone_of_machindex := cloneof;
       machine.m_rom_of_machindex := romof;
       machine.m_is_bios := is_bios;
       machine.m_is_device := is_device;
       machine.m_is_mechanical := is_mechanical;
       machine.m_biossets_index := biossets_index;
       machine.m_biossets_count := 0;
       machine.m_roms_index := roms_index;
       machine.m_roms_count := 0;
       machine.m_disks_index := disks_index;
       machine.m_disks_count := 0;
       machine.m_features_index := features_index;
       machine.m_features_count := 0;
       machine.m_chips_index := chips_index;
       machine.m_chips_count := 0;
       machine.m_displays_index := displays_index;
       machine.m_displays_count := 0;
       machine.m_samples_index := samples_index;
       machine.m_samples_count := 0;
       machine.m_configurations_index := configurations_index;
       machine.m_configurations_count := 0;
       machine.m_software_lists_index := software_lists_index;
       machine.m_software_lists_count := 0;
       machine.m_ram_options_index := ram_options_index;
       machine.m_ram_options_count := 0;
       machine.m_devices_index := devices_index;
       machine.m_devices_count := 0;
       machine.m_slots_index := slots_index;
       machine.m_slots_count := 0;
       machine.m_description_strindex := 0;
       machine.m_year_strindex := 0;
       machine.m_manufacturer_strindex := 0;
       machine.m_quality_status := 0;
       machine.m_quality_emulation := 0;
       machine.m_quality_cocktail := 0;
       machine.m_save_state_supported := encodeBool None 0xFF;
       machine.m_unofficial := encodeBool None 0xFF;
       machine.m_incomplete := encodeBool None 0xFF;
       machine.m_sound_channels := 0xFF |} ]) |>).

(** [{ "mame", "machine", "description" }], [{ ..., "year" }], [{ ..., "manufacturer" }], end *)
Definition on_description_end (content : string) : M unit :=
  description ← strings_get content;
  update_last_machine (fun m => m <| machine.m_description_strindex := description |>).

Definition on_year_end (content : string) : M unit :=
  year ← strings_get content;
  update_last_machine (fun m => m <| machine.m_year_strindex := year |>).

Definition on_manufacturer_end (content : string) : M unit :=
  manufacturer ← strings_get content;
  update_last_machine (fun m => m <| machine.m_manufacturer_strindex := manufacturer |>).

(** [{ "mame", "machine", "biosset" }], begin *)
Definition on_biosset (attributes : Attributes) : M unit :=
  name ← strings_get_attribute attributes "name";
  description ← strings_get_attribute attributes "description";
  let default_ := encodeBool (Some (default false (get_with as_bool attributes "default"))) 0xFF in
  update (fun b => b <| m_biossets ::= (fun v => v ++ [
    {| biosset.m_name_strindex := name;
       biosset.m_description_strindex := description;
       biosset.m_default := default_ |} ]) |>);;
  update_last_machine (fun m => m <| machine.m_biossets_count ::= incr |>).

(** [{ "mame", "machine", "rom" }], begin; [m_size] is assigned twice, to the
    same value. *)
Definition on_rom (attributes : Attributes) : M unit :=
  name ← strings_get_attribute attributes "name";
  bios ← strings_get_attribute attributes "bios";
  let size := default 0 (get_with as_uint32 attributes "size") in
  '(crc, _) ← lift (binaryFromHex (replicate crc_size 0) (get_string attributes "crc"));
  '(sha1, _) ← lift (binaryFromHex (replicate sha1_size 0) (get_string attributes "sha1"));
  let size := default 0 (get_with as_uint32 attributes "size") in
  merge ← strings_get_attribute attributes "merge";
  region ← strings_get_attribute attributes "region";
  let offset := default 0 (get_with (as_uint64 16) attributes "offset") in
  let status := encodeEnum dump_status_value
                  (get_with (enum_parse s_dump_status_parser) attributes "status") 0 in
  let optional := encodeBool (Some (default false (get_with as_bool attributes "optional"))) 0xFF in
  update (fun b => b <| m_roms ::= (fun v => v ++ [
    {| rom.m_name_strindex := name;
       rom.m_bios_strindex := bios;
       rom.m_size := size;
       rom.m_crc := crc;
       rom.m_sha1 := sha1;
       rom.m_merge_strindex := merge;
       rom.m_region_strindex := region;
       rom.m_offset := offset;
       rom.m_status := status;
       rom.m_optional := optional |} ]) |>);;
  update_last_machine (fun m => m <| machine.m_roms_count ::= incr |>).

(** [{ "mame", "machine", "disk" }], begin *)
Definition on_disk (attributes : Attributes) : M unit :=
  name ← strings_get_attribute attributes "name";
  '(sha1, _) ← lift (binaryFromHex (replicate sha1_size 0) (get_string attributes "sha1"));
  merge ← strings_get_attribute attributes "merge";
  region ← strings_get_attribute attributes "region";
  let index := default 0 (get_with as_uint32 attributes "index") in
  let writable := encodeBool (Some (default false (get_with as_bool attributes "writable"))) 0xFF in
  let status := encodeEnum dump_status_value
                  (get_with (enum_parse s_dump_status_parser) attributes "status") 0 in
  let optional := encodeBool (Some (default false (get_with as_bool attributes "optional"))) 0xFF in
  update (fun b => b <| m_disks ::= (fun v => v ++ [
    {| disk.m_name_strindex := name;
       disk.m_sha1 := sha1;
       disk.m_merge_strindex := merge;
       disk.m_region_strindex := region;
       disk.m_index := index;
       disk.m_writable := writable;
       disk.m_status := status;
       disk.m_optional := optional |} ]) |>);;
  update_last_machine (fun m => m <| machine.m_disks_count ::= incr |>).

(** [{ "mame", "machine", "feature" }], begin *)
Definition on_feature (attributes : Attributes) : M unit :=
  let type := encodeEnum feature_type_value
                (get_with (enum_parse s_feature_type_parser) attributes "type") 0 in
  let status := encodeEnum feature_quality_value
                  (get_with (enum_parse s_feature_quality_parser) attributes "status") 0 in
  let overall := encodeEnum feature_quality_value
                   (get_with (enum_parse s_feature_quality_parser) attributes "overall") 0 in
  update (fun b => b <| m_features ::= (fun v => v ++ [
    {| feature.m_type := type;
       feature.m_status := status;
       feature.m_overall := overall |} ]) |>);;
  update_last_machine (fun m => m <| machine.m_features_count ::= incr |>).

(** [{ "mame", "machine", "chip" }], begin *)
Definition on_chip (attributes : Attributes) : M unit :=
  let type := encodeEnum chip_type_value
                (get_with (enum_parse s_chip_type_parser) attributes "type") 0 in
  name ← strings_get_attribute attributes "name";
  tag ← strings_get_attribute attributes "tag";
  let clock := default 0 (get_with (as_uint64 10) attributes "clock") in
  update (fun b => b <| m_chips ::= (fun v => v ++ [
    {| chip.m_type := type;
       chip.m_name_strindex := name;
       chip.m_tag_strindex := tag;
       chip.m_clock := clock |} ]) |>);;
  update_last_machine (fun m => m <| machine.m_chips_count ::= incr |>).

(** [{ "mame", "machine", "display" }], begin; [~0] converted to the type of
    the field is all bits set. *)
Definition on_display (attributes : Attributes) : M unit :=
  tag ← strings_get_attribute attributes "tag";
  let uint32_or_ones name := default (2 ^ 32 - 1) (get_with as_uint32 attributes name) in
  update (fun b => b <| m_displays ::= (fun v => v ++ [
    {| display.m_tag_strindex := tag;
       display.m_width := uint32_or_ones "width"%string;
       display.m_height := uint32_or_ones "height"%string;
       display.m_refresh := default NAN (get_with as_float attributes "refresh");
       display.m_pixclock := default (2 ^ 64 - 1) (get_with (as_uint64 10) attributes "pixclock");
       display.m_htotal := uint32_or_ones "htotal"%string;
       display.m_hbend := uint32_or_ones "hbend"%string;
       display.m_hbstart := uint32_or_ones "hbstart"%string;
       display.m_vtotal := uint32_or_ones "vtotal"%string;
       display.m_vbend := uint32_or_ones "vbend"%string;
       display.m_vbstart := uint32_or_ones "vbstart"%string;
       display.m_type := encodeEnum display_type_value
                           (get_with (enum_parse s_display_type_parser) attributes "type") 0;
       display.m_rotate := encodeEnum display_rotation_value
                             (get_with (enum_parse s_display_rotation_parser) attributes "rotate") 0;
       display.m_flipx := encodeBool (get_with as_bool attributes "flipx") 0xFF |} ]) |>);;
  update_last_machine (fun m => m <| machine.m_displays_count ::= incr |>).

(** [{ "mame", "machine", "sample" }], begin *)
Definition on_sample (attributes : Attributes) : M unit :=
  name ← strings_get_attribute attributes "name";
  update (fun b => b <| m_samples ::= (fun v => v ++ [
    {| sample.m_name_strindex := name |} ]) |>);;
  update_last_machine (fun m => m <| machine.m_samples_count ::= incr |>).

(** [{ "mame", "machine", "configuration" }] and [{ "mame", "machine", "dipswitch" }], begin *)
Definition on_configuration (attributes : Attributes) : M unit :=
  name ← strings_get_attribute attributes "name";
  tag ← strings_get_attribute attributes "tag";
  let mask := default 0 (get_with as_uint32 attributes "mask") in
  configuration_settings_index ← size_uint32 m_configuration_settings;
  update (fun b => b <| m_configurations ::= (fun v => v ++ [
    {| configuration.m_name_strindex := name;
       configuration.m_tag_strindex := tag;
       configuration.m_mask := mask;
       configuration.m_configuration_settings_index := configuration_settings_index;
       configuration.m_configuration_settings_count := 0 |} ]) |>);;
  update_last_machine (fun m => m <| machine.m_configurations_count ::= incr |>).

(** [{ ..., "configuration", "confsetting" }] and [{ ..., "dipswitch", "dipvalue" }], begin *)
Definition on_configuration_setting (attributes : Attributes) : M unit :=
  name ← strings_get_attribute attributes "name";
  conditions_index ← size_uint32 m_configuration_conditions;
  let value := default 0 (get_with as_uint32 attributes "value") in
  update (fun b => b <| m_configuration_settings ::= (fun v => v ++ [
    {| configuration_setting.m_name_strindex := name;
       configuration_setting.m_conditions_index := conditions_index;
       configuration_setting.m_value := value |} ]) |>);;
  update_last_in m_configurations (fun v b => b <| m_configurations := v |>)
    (fun c => c <| configuration.m_configuration_settings_count ::= incr |>).

(** [{ ..., "confsetting", "condition" }] and [{ ..., "dipvalue", "condition" }], begin *)
Definition on_configuration_condition (attributes : Attributes) : M unit :=
  tag ← strings_get_attribute attributes "tag";
  let relation := encodeEnum relation_value
                    (get_with (enum_parse s_relation_parser) attributes "relation") 0 in
  let mask := default 0 (get_with as_uint32 attributes "mask") in
  let value := default 0 (get_with as_uint32 attributes "value") in
  update (fun b => b <| m_configuration_conditions ::= (fun v => v ++ [
    {| configuration_condition.m_tag_strindex := tag;
       configuration_condition.m_relation := relation;
       configuration_condition.m_mask := mask;
       configuration_condition.m_value := value |} ]) |>).

(** [{ "mame", "machine", "device" }], begin *)
Definition on_device (attributes : Attributes) : M unit :=
  type ← strings_get_attribute attributes "type";
  tag ← strings_get_attribute attributes "tag";
  interface ← strings_get_attribute attributes "interface";
  let mandatory := encodeBool (Some (default false (get_with as_bool attributes "mandatory"))) 0xFF in
  update (fun b => b <| m_devices ::= (fun v => v ++ [
    {| device.m_type_strindex := type;
       device.m_tag_strindex := tag;
       device.m_interface_strindex := interface;
       device.m_mandatory := mandatory;
       device.m_instance_name_strindex := 0;
       device.m_extensions_strindex := 0 |} ]) |>);;
  update_extensions (fun _ => EmptyString);;
  update_last_machine (fun m => m <| machine.m_devices_count ::= incr |>).

(** [{ "mame", "machine", "device", "instance" }], begin *)
Definition on_device_instance (attributes : Attributes) : M unit :=
  name ← strings_get_attribute attributes "name";
  update_last_in m_devices (fun v b => b <| m_devices := v |>)
    (fun d => d <| device.m_instance_name_strindex := name |>).

(** [{ "mame", "machine", "device", "extension" }], begin *)
Definition on_device_extension (attributes : Attributes) : M unit :=
  match get_string attributes "name" with
  | Some name => update_extensions (fun extensions => extensions +:+ name +:+ ",")
  | None => mret tt
  end.

(** [{ "mame", "machine", "device" }], end *)
Definition on_device_end (content : string) : M unit :=
  extensions ← read_extensions;
  if decide (extensions ≠ EmptyString) then
    strindex ← strings_get extensions;
    update_last_in m_devices (fun v b => b <| m_devices := v |>)
      (fun d => d <| device.m_extensions_strindex := strindex |>)
  else mret tt.

(** [{ "mame", "machine", "driver" }], begin *)
Definition on_driver (attributes : Attributes) : M unit :=
  let quality name := get_with (enum_parse s_driver_quality_parser) attributes name in
  update_last_machine (fun m =>
    let m := m <| machine.m_quality_status ::= encodeEnum driver_quality_value (quality "status"%string) |> in
    let m := m <| machine.m_quality_emulation ::= encodeEnum driver_quality_value (quality "emulation"%string) |> in
    let m := m <| machine.m_quality_cocktail ::= encodeEnum driver_quality_value (quality "cocktail"%string) |> in
    let m := m <| machine.m_save_state_supported ::=
                    encodeBool (get_with (enum_parse s_supported_parser) attributes "savestate") |> in
    let m := m <| machine.m_unofficial ::= encodeBool (get_with as_bool attributes "unofficial") |> in
    m <| machine.m_incomplete ::= encodeBool (get_with as_bool attributes "incomplete") |>).

(** [{ "mame", "machine", "slot" }], begin *)
Definition on_slot (attributes : Attributes) : M unit :=
  name ← strings_get_attribute attributes "name";
  slot_options_index ← size_uint32 m_slot_options;
  update (fun b => b <| m_slots ::= (fun v => v ++ [
    {| slot.m_name_strindex := name;
       slot.m_slot_options_index := slot_options_index;
       slot.m_slot_options_count := 0 |} ]) |>);;
  update_last_machine (fun m => m <| machine.m_slots_count ::= incr |>).

(** [{ "mame", "machine", "slot", "slotoption" }], begin *)
Definition on_slot_option (attributes : Attributes) : M unit :=
  name ← strings_get_attribute attributes "name";
  devname ← strings_get_attribute attributes "devname";
  let is_default := encodeBool (Some (default false (get_with as_bool attributes "default"))) 0xFF in
  update (fun b => b <| m_slot_options ::= (fun v => v ++ [
    {| slot_option.m_name_strindex := name;
       slot_option.m_devname_strindex := devname;
       slot_option.m_is_default := is_default |} ]) |>);;
  update_last_in m_slots (fun v b => b <| m_slots := v |>)
    (fun s => s <| slot.m_slot_options_count ::= incr |>).

(** [{ "mame", "machine", "softwarelist" }], begin *)
Definition on_software_list (attributes : Attributes) : M unit :=
  name ← strings_get_attribute attributes "name";
  filter ← strings_get_attribute attributes "filter";
  let status := encodeEnum status_type_value
                  (get_with (enum_parse s_status_parser) attributes "status") 0 in
  update (fun b => b <| m_software_lists ::= (fun v => v ++ [
    {| software_list.m_name_strindex := name;
       software_list.m_filter_strindex := filter;
       software_list.m_status := status |} ]) |>);;
  update_last_machine (fun m => m <| machine.m_software_lists_count ::= incr |>).

(** [{ "mame", "machine", "ramoption" }], begin and end *)
Definition on_ram_option (attributes : Attributes) : M unit :=
  name ← strings_get_attribute attributes "name";
  let is_default := encodeBool (Some (default false (get_with as_bool attributes "default"))) 0xFF in
  update (fun b => b <| m_ram_options ::= (fun v => v ++ [
    {| ram_option.m_name_strindex := name;
       ram_option.m_is_default := is_default;
       ram_option.m_value := 0 |} ]) |>);;
  update_last_machine (fun m => m <| machine.m_ram_options_count ::= incr |>).

Definition on_ram_option_end (content : string) : M unit :=
  let val := default 0 (toULong content) in
  update_last_in m_ram_options (fun v b => b <| m_ram_options := v |>)
    (fun r => r <| ram_option.m_value := val |>).

(** [{ "mame", "machine", "sound" }], begin *)
Definition on_sound (attributes : Attributes) : M unit :=
  update_last_machine (fun m =>
    m <| machine.m_sound_channels := default 0xFF (get_with as_uint8 attributes "channels") |>).

(** The callbacks registered with [xml.onElementBegin] and [xml.onElementEnd],
    each under the paths it is registered for. *)
Definition begin_callbacks : list (list (list string) * (Attributes -> M unit)) :=
  [ ([["mame"]], on_mame);
    ([["mame"; "machine"]], on_machine);
    ([["mame"; "machine"; "biosset"]], on_biosset);
    ([["mame"; "machine"; "rom"]], on_rom);
    ([["mame"; "machine"; "disk"]], on_disk);
    ([["mame"; "machine"; "feature"]], on_feature);
    ([["mame"; "machine"; "chip"]], on_chip);
    ([["mame"; "machine"; "display"]], on_display);
    ([["mame"; "machine"; "sample"]], on_sample);
    ([["mame"; "machine"; "configuration"];
      ["mame"; "machine"; "dipswitch"]], on_configuration);
    ([["mame"; "machine"; "configuration"; "confsetting"];
      ["mame"; "machine"; "dipswitch"; "dipvalue"]], on_configuration_setting);
    ([["mame"; "machine"; "configuration"; "confsetting"; "condition"];
      ["mame"; "machine"; "dipswitch"; "dipvalue"; "condition"]], on_configuration_condition);
    ([["mame"; "machine"; "device"]], on_device);
    ([["mame"; "machine"; "device"; "instance"]], on_device_instance);
    ([["mame"; "machine"; "device"; "extension"]], on_device_extension);
    ([["mame"; "machine"; "driver"]], on_driver);
    ([["mame"; "machine"; "slot"]], on_slot);
    ([["mame"; "machine"; "slot"; "slotoption"]], on_slot_option);
    ([["mame"; "machine"; "softwarelist"]], on_software_list);
    ([["mame"; "machine"; "ramoption"]], on_ram_option);
    ([["mame"; "machine"; "sound"]], on_sound) ]%string.

Definition end_callbacks : list (list (list string) * (string -> M unit)) :=
  [ ([["mame"; "machine"; "description"]], on_description_end);
    ([["mame"; "machine"; "year"]], on_year_end);
    ([["mame"; "machine"; "manufacturer"]], on_manufacturer_end);
    ([["mame"; "machine"; "device"]], on_device_end);
    ([["mame"; "machine"; "ramoption"]], on_ram_option_end) ]%string.

(** Modelled from the spec: the dispatch of [XmlParser] is not under src/;
    "the builder registers callbacks per path": an event runs the callback
    registered for its path, if there is one. *)
Fixpoint find_callback {F} (callbacks : list (list (list string) * F)) (path : list string)
  : option F :=
  match callbacks with
  | [] => None
  | (paths, callback) :: callbacks' =>
      if decide (path ∈ paths) then Some callback else find_callback callbacks' path
  end.

Definition dispatch (event : xml_event) : M unit :=
  match event with
  | ElementBegin path attributes =>
      match find_callback begin_callbacks path with
      | Some callback => callback attributes
      | None => mret tt
      end
  | ElementEnd path content =>
      match find_callback end_callbacks path with
      | Some callback => callback content
      | None => mret tt
      end
  end.

(** The callbacks run by [xml.parse(input)], in the order of the events. *)
Fixpoint parse (events : list xml_event) : M unit :=
  match events with
  | [] => mret tt
  | event :: events' => dispatch event;; parse events'
  end.

(** The header before the parse: [header = { 0, }], then the magic and the hash. *)
Definition initial_header : header.t :=
  {| header.m_magic := MAGIC_HDR;
     header.m_sizes_hash := calculate_sizes_hash;
     header.m_build_strindex := 0;
     header.m_machines_count := 0;
     header.m_biossets_count := 0;
     header.m_roms_count := 0;
     header.m_disks_count := 0;
     header.m_devices_count := 0;
     header.m_slots_count := 0;
     header.m_slot_options_count := 0;
     header.m_features_count := 0;
     header.m_chips_count := 0;
     header.m_displays_count := 0;
     header.m_samples_count := 0;
     header.m_configurations_count := 0;
     header.m_configuration_settings_count := 0;
     header.m_configuration_conditions_count := 0;
     header.m_software_lists_count := 0;
     header.m_ram_options_count := 0 |}.

(** "finalize the header" *)
Definition finalize_header : M unit :=
  n ← size_uint32 m_machines; update_header (fun h => h <| header.m_machines_count := n |>);;
  n ← size_uint32 m_biossets; update_header (fun h => h <| header.m_biossets_count := n |>);;
  n ← size_uint32 m_roms; update_header (fun h => h <| header.m_roms_count := n |>);;
  n ← size_uint32 m_disks; update_header (fun h => h <| header.m_disks_count := n |>);;
  n ← size_uint32 m_devices; update_header (fun h => h <| header.m_devices_count := n |>);;
  n ← size_uint32 m_slots; update_header (fun h => h <| header.m_slots_count := n |>);;
  n ← size_uint32 m_slot_options; update_header (fun h => h <| header.m_slot_options_count := n |>);;
  n ← size_uint32 m_features; update_header (fun h => h <| header.m_features_count := n |>);;
  n ← size_uint32 m_chips; update_header (fun h => h <| header.m_chips_count := n |>);;
  n ← size_uint32 m_displays; update_header (fun h => h <| header.m_displays_count := n |>);;
  n ← size_uint32 m_samples; update_header (fun h => h <| header.m_samples_count := n |>);;
  n ← size_uint32 m_configurations;
  update_header (fun h => h <| header.m_configurations_count := n |>);;
  n ← size_uint32 m_configuration_settings;
  update_header (fun h => h <| header.m_configuration_settings_count := n |>);;
  n ← size_uint32 m_configuration_conditions;
  update_header (fun h => h <| header.m_configuration_conditions_count := n |>);;
  n ← size_uint32 m_software_lists;
  update_header (fun h => h <| header.m_software_lists_count := n |>);;
  n ← size_uint32 m_ram_options;
  update_header (fun h => h <| header.m_ram_options_count := n |>).

(** "and salt it" *)
Definition salt_header : M unit := fun st =>
  salted ← util.salt (header_bytes (header st)) binaries_salt;
  Ok (tt, st <| this ::= (fun b => b <| m_salted_header := salted |>) |>).

(** The comparison given to [std::sort], on the two texts [lookup] returned. *)
Definition name_less (a b : string * machine.t) : bool :=
  bool_decide (strcmp a.1 b.1 < 0).

(** "sort machines by name to facilitate lookups": [std::sort] compares by
    [strcmp] of the names [m_strings.lookup] returns; the names are taken
    here before the sort, so that an assertion of [lookup] that fails stops
    the call. *)
Definition sort_machines : M unit := fun st =>
  let strings := m_strings (this st) in
  named ← mapM (M := outcome)
             (fun m => aText ← string_table.lookup (machine.m_name_strindex m) strings;
                       Ok (aText, m))
             (m_machines (this st));
  let sorted := std_sort _ name_less named in
  Ok (tt, st <| this ::= (fun b => b <| m_machines := sorted.*2 |>) |>).

(** [machineIndexMap.emplace(key, value)]: an existing key keeps its value. *)
Definition emplace (key value : Z) (map : gmap Z Z) : gmap Z Z :=
  match map !! key with
  | Some _ => map
  | None => <[key := value]> map
  end.

(** The [for] loop that fills [machineIndexMap]; [i] is [iter - m_machines.begin()]. *)
Fixpoint emplace_machines (machines : list machine.t) (i : nat) (map : gmap Z Z) : gmap Z Z :=
  match machines with
  | [] => map
  | m :: machines' =>
      emplace_machines machines' (S i)
        (emplace (machine.m_name_strindex m) (Z.of_nat i mod 2 ^ 32) map)
  end.

(** [machineIndexFromStringIndex]; [~0] as a [std::uint32_t] *)
Definition machineIndexFromStringIndex (machineIndexMap : gmap Z Z) (stringIndex : Z) : Z :=
  match machineIndexMap !! stringIndex with
  | Some second => second
  | None => 2 ^ 32 - 1
  end.

(** "build a machine index map" and "change clone_of and rom_of to be machine
    indexes" *)
Definition resolve_machine_indexes : M unit :=
  empty ← strings_get EmptyString;
  machines ← read m_machines;
  let machineIndexMap := emplace_machines machines 0 (emplace empty (2 ^ 32 - 1) ∅) in
  update (fun b => b <| m_machines ::= fmap (fun m =>
    let m := m <| machine.m_clone_of_machindex ::= machineIndexFromStringIndex machineIndexMap |> in
    m <| machine.m_rom_of_machindex ::= machineIndexFromStringIndex machineIndexMap |>) |>).

(** What follows a successful [xml.parse] in [process_xml]. *)
Definition finalize : M unit :=
  update (fun b => b <| m_strings ::= string_table.embed_value MAGIC_STRINGTABLE_END |>);;
  finalize_header;;
  salt_header;;
  sort_machines;;
  resolve_machine_indexes.

(** The two ways [process_xml] returns: [true], with the builder as the call
    leaves it, or [false], with [error_message]. *)
Inductive processed : Type :=
| Built (builder : t)
| Failed (error_message : string).

(** [bool info::database_builder::process_xml(QIODevice &input, QString &error_message)];
    an exception of a callback is caught, one of the finalization is not. *)
Definition process_xml (input : xml_document) (this : t) : outcome processed :=
  if decide (m_machines this = [] ∧ m_devices this = []) then
    match parse (xml_events input) (Captures this initial_header EmptyString) with
    | Throw what => Ok (Failed what)
    | Fault f => Fault f
    | Ok (_, st) =>
        if xml_parsed input then
          '(_, st) ← finalize st;
          Ok (Built (database_builder.this st))
        else Ok (Failed (xml_error_messages input))
    end
  else Fault AssertionFailed.

(** [info::database_builder] as its constructor leaves it *)
Definition ctor : t :=
  {| m_salted_header := [];
     m_machines := []; m_biossets := []; m_roms := []; m_disks := [];
     m_devices := []; m_slots := []; m_slot_options := []; m_features := [];
     m_chips := []; m_displays := []; m_samples := []; m_configurations := [];
     m_configuration_settings := []; m_configuration_conditions := [];
     m_software_lists := []; m_ram_options := [];
     m_strings := string_table.ctor |}.

(** One [output.write] of [emit_info]: the bytes of the header, a table, or
    the bytes of the string table. *)
Inductive written : Type :=
| WriteHeader (salted : list Z)
| WriteMachines (v : list machine.t)
| WriteBiossets (v : list biosset.t)
| WriteRoms (v : list rom.t)
| WriteDisks (v : list disk.t)
| WriteDevices (v : list device.t)
| WriteSlots (v : list slot.t)
| WriteSlotOptions (v : list slot_option.t)
| WriteFeatures (v : list feature.t)
| WriteChips (v : list chip.t)
| WriteDisplays (v : list display.t)
| WriteSamples (v : list sample.t)
| WriteConfigurations (v : list configuration.t)
| WriteConfigurationSettings (v : list configuration_setting.t)
| WriteConfigurationConditions (v : list configuration_condition.t)
| WriteSoftwareLists (v : list software_list.t)
| WriteRamOptions (v : list ram_option.t)
| WriteStrings (data : list ascii).

(** [void info::database_builder::emit_info(QIODevice &output) const] *)
Definition emit_info (this : t) : list written :=
  [ WriteHeader (m_salted_header this);
    WriteMachines (m_machines this);
    WriteBiossets (m_biossets this);
    WriteRoms (m_roms this);
    WriteDisks (m_disks this);
    WriteDevices (m_devices this);
    WriteSlots (m_slots this);
    WriteSlotOptions (m_slot_options this);
    WriteFeatures (m_features this);
    WriteChips (m_chips this);
    WriteDisplays (m_displays this);
    WriteSamples (m_samples this);
    WriteConfigurations (m_configurations this);
    WriteConfigurationSettings (m_configuration_settings this);
    WriteConfigurationConditions (m_configuration_conditions this);
    WriteSoftwareLists (m_software_lists this);
    WriteRamOptions (m_ram_options this);
    WriteStrings (string_table.m_data (m_strings this)) ].

End callbacks.
End database_builder.
End info.

(** ** listxmltask.cpp *)

Module ListXmlResultEvent.
Inductive Status : Type := SUCCESS | ABORTED | ERROR.
Record t : Type := Build { status : Status; errorMessage : string }.
End ListXmlResultEvent.

Module ListXmlTask.
Import info.

(** [ListXmlTask::list_xml_exception]; a status alone comes with an empty message. *)
Record list_xml_exception : Type := Build_exception {
  m_status : ListXmlResultEvent.Status;
  m_message : string
}.

(** What the task meets while it runs: the output of [-listxml], what
    [hasAborted()] answers after the parse, and whether the output file opens. *)
Record environment : Type := {
  listxml_output : info.xml_document;
  hasAborted : bool;
  file_opens : bool
}.

Section ListXmlTask.
Context `{Declarations}.
Variable m_outputFilename : string.

(** [void ListXmlTask::internalProcess(QIODevice &process, ...)]: it returns
    after [emit_info] wrote the file, or it throws a [list_xml_exception]. *)
Definition internalProcess (env : environment)
  : outcome (list database_builder.written + list_xml_exception) :=
  let builder := database_builder.ctor in
  processed ← database_builder.process_xml (listxml_output env) builder;
  if hasAborted env then
    Ok (inr (Build_exception ListXmlResultEvent.ABORTED EmptyString))
  else
    match processed with
    | database_builder.Failed error_message =>
        Ok (inr (Build_exception ListXmlResultEvent.ERROR
                   ("Error parsing XML from MAME -listxml: " +:+ error_message)))
    | database_builder.Built builder =>
        if file_opens env then Ok (inl (database_builder.emit_info builder))
        else Ok (inr (Build_exception ListXmlResultEvent.ERROR
                        ("Could not open file: " +:+ m_outputFilename)))
    end.

(** [void ListXmlTask::process(QProcess &process, QObject &handler)]: the
    result event posted to the handler, and the file if one was written. *)
Definition process (env : environment)
  : outcome (ListXmlResultEvent.t * option (list database_builder.written)) :=
  result ← internalProcess env;
  match result with
  | inl file => Ok (ListXmlResultEvent.Build ListXmlResultEvent.SUCCESS EmptyString, Some file)
  | inr ex => Ok (ListXmlResultEvent.Build (m_status ex) (m_message ex), None)
  end.

End ListXmlTask.
End ListXmlTask.

(** ** runmachinetask.cpp *)

Module RunMachineTask.

(** [MameWorkerController::Response]: the type, of which the task only asks
    whether it is [Ok], and the text. *)
Module Response.
Inductive Type_ : Type := Ok | NotOk.
Record t : Type := Build { m_type : Type_; m_text : string }.
End Response.

(** [Task::emu_error]: the status code; [NONE] is 0. *)
Abbreviation emu_error := Z (only parsing).
Definition NONE : emu_error := 0.

Module Message.
Inductive type : Type := INVALID | COMMAND | TERMINATED.
Record t : Type := Build { m_type : type; m_command : string; m_status : emu_error }.
End Message.

(** [RunMachineCompletedEvent]: [m_success] is [None] when the constructor
    was given a [bool] that had never been assigned. *)
Record RunMachineCompletedEvent : Type := Build_event {
  m_success : option bool;
  m_errorMessage : string
}.

(** What the task meets while it runs: the inaugural response, what
    [scrapeMameStartupError()] finds, the messages [m_messageQueue.receive()]
    delivers in order, and the text of the standard error stream. *)
Record session : Type := {
  inaugural : Response.t;
  scraped : string;
  messages : list Message.t;
  standard_error : string
}.

(** How [process] ends: it posts the completion event, it waits for a message
    that never comes, or it leaves by [throw false]. *)
Inductive ending : Type :=
| Posted (event : RunMachineCompletedEvent)
| Waiting
| Thrown.

(** The [while (!done)] loop: the status of the first [TERMINATED] message. *)
Fixpoint await_termination (messages : list Message.t) : option emu_error + unit :=
  match messages with
  | [] => inl None
  | message :: messages' =>
      match Message.m_type message with
      | Message.COMMAND => await_termination messages'
      | Message.TERMINATED => inl (Some (Message.m_status message))
      | Message.INVALID => inr tt
      end
  end.

(** [QString("Error %1 running MAME").arg(QString::number((int)status))]; the
    decimal text of the number is not needed by what follows. *)
Definition error_running (number : Z -> string) (status : emu_error) : string :=
  "Error " +:+ number status +:+ " running MAME".

(** [void RunMachineTask::process(QProcess &process, QObject &handler)] *)
Definition process (number : Z -> string) (s : session) : ending :=
  let success : option bool := None in
  let errorMessage := EmptyString in
  let response := inaugural s in
  if negb (match Response.m_type response with Response.Ok => true | _ => false end) then
    let success := Some false in
    let errorMessage :=
      if decide (Response.m_text response ≠ EmptyString) then Response.m_text response
      else scraped s in
    Posted (Build_event success errorMessage)
  else
    match await_termination (messages s) with
    | inl None => Waiting
    | inr tt => Thrown
    | inl (Some status) =>
        let errorMessage :=
          if decide (status ≠ NONE) then
            if (0 <? String.length (standard_error s))%nat then standard_error s
            else error_running number status
          else errorMessage in
        Posted (Build_event success errorMessage)
    end.

(** [Task::emu_error]: the two codes of the application. *)
Definition INVALID : emu_error := 1000.
Definition KILLED : emu_error := 1001.

(** The characters the task writes by their codes. *)
Definition QUOTE : ascii := "034".
Definition CR : ascii := "013".
Definition LF : ascii := "010".

(** [QString::indexOf(QChar ch)]: the position of the first [ch], or -1. *)
Fixpoint indexOf (ch : ascii) (str : string) : Z :=
  match str with
  | EmptyString => -1
  | String c str' =>
      if decide (c = ch) then 0
      else let i := indexOf ch str' in if i <? 0 then -1 else i + 1
  end.

(** The [for] loop of [buildCommand], with [command]. *)
Fixpoint buildCommand_loop (args : list string) (command : string) : string :=
  match args with
  | [] => command
  | arg :: args' =>
      let command :=
        if decide (command ≠ EmptyString) then command +:+ " " else command in
      let needs_quotes := bool_decide (arg = EmptyString) || (0 <=? indexOf " " arg) in
      let command := if needs_quotes then command +:+ String QUOTE EmptyString else command in
      let command := command +:+ arg in
      let command := if needs_quotes then command +:+ String QUOTE EmptyString else command in
      buildCommand_loop args' command
  end.

(** [QString RunMachineTask::buildCommand(const std::vector<QString> &args)] *)
Definition buildCommand (args : list string) : string :=
  buildCommand_loop args EmptyString +:+ String CR (String LF EmptyString).

(** [void RunMachineTask::internalPost(Message::type type, QString &&command, emu_error status)]
    on the messages the queue holds; [status] is [INVALID] when not given. *)
Definition internalPost (type : Message.type) (command : string) (status : emu_error)
  (m_messageQueue : list Message.t) : list Message.t :=
  m_messageQueue ++ [Message.Build type command status].

(** [void RunMachineTask::issue(const std::vector<QString> &args)] *)
Definition issue (args : list string) (m_messageQueue : list Message.t) : list Message.t :=
  let command := buildCommand args in
  internalPost Message.COMMAND command INVALID m_messageQueue.

(** [void RunMachineTask::issueFullCommandLine(QString &&fullCommand)] *)
Definition issueFullCommandLine (fullCommand : string) (m_messageQueue : list Message.t)
  : list Message.t :=
  let fullCommand := fullCommand +:+ String CR (String LF EmptyString) in
  internalPost Message.COMMAND fullCommand INVALID m_messageQueue.

(** [void RunMachineTask::abort()] *)
Definition abort (m_messageQueue : list Message.t) : list Message.t :=
  issue ["exit"%string] m_messageQueue.

(** [void RunMachineTask::onChildProcessCompleted(emu_error status)] *)
Definition onChildProcessCompleted (status : emu_error) (m_messageQueue : list Message.t)
  : list Message.t :=
  internalPost Message.TERMINATED EmptyString status m_messageQueue.

(** [void RunMachineTask::onChildProcessKilled()] *)
Definition onChildProcessKilled (m_messageQueue : list Message.t) : list Message.t :=
  internalPost Message.TERMINATED EmptyString KILLED m_messageQueue.

(** The commands that the [while (!done)] loop of [process] gives to
    [controller.issueCommand], in order: those of the [COMMAND] messages it
    receives before the message that ends the loop. *)
Fixpoint issued_commands (messages : list Message.t) : list string :=
  match messages with
  | [] => []
  | message :: messages' =>
      match Message.m_type message with
      | Message.COMMAND => Message.m_command message :: issued_commands messages'
      | _ => []
      end
  end.

(** [m_text.resize(m_text.size() - 1)] on a text that is not empty. *)
Definition chop (m_text : string) : string :=
  String.substring 0 (String.length m_text - 1) m_text.

(** The [while] loop of the constructor of [ChatterEvent]; each turn removes
    a character, so [fuel = text.size()] turns are enough. *)
Fixpoint remove_line_endings (fuel : nat) (m_text : string) : string :=
  match fuel with
  | O => m_text
  | S fuel' =>
      if bool_decide (m_text ≠ EmptyString)
         && match String.get (String.length m_text - 1) m_text with
            | Some ch => bool_decide (ch = CR) || bool_decide (ch = LF)
            | None => false
            end
      then remove_line_endings fuel' (chop m_text)
      else m_text
  end.

(** [MameWorkerController::ChatterType] *)
Inductive ChatterType : Type := Command | GoodResponse | ErrorResponse.

(** [ChatterEvent::ChatterEvent(MameWorkerController::ChatterType type, const QString &text)] *)
Record ChatterEvent : Type := Build_chatter {
  chatter_type : ChatterType;
  chatter_text : string
}.

Definition ChatterEvent_ctor (type : ChatterType) (text : string) : ChatterEvent :=
  Build_chatter type (remove_line_endings (String.length text) text).

End RunMachineTask.

(** ** prefs.cpp: the tables written and read back *)

Module Preferences.

(** [Preferences::list_view_type], as listed by [s_list_view_type_parser]. *)
Inductive list_view_type : Type := MACHINE | SOFTWARELIST | PROFILE.

#[global] Instance list_view_type_eq_dec : EqDecision list_view_type.
Proof. solve_decision. Defined.

(** [static const util::enum_parser_bidirectional<Preferences::list_view_type> s_list_view_type_parser] *)
Definition s_list_view_type_parser : info.enum_parser list_view_type :=
  [ ("machine", MACHINE); ("softwarelist", SOFTWARELIST); ("profile", PROFILE) ]%string.

End Preferences.

(** ** The loader's lookup by name *)

Module database.
Import info.

Section database.
Context `{Declarations}.

(** The names of the machine table, in the order of the table. *)
Definition machine_names (db : database_builder.t) : outcome (list string) :=
  mapM (M := outcome)
    (fun m => string_table.lookup (binaries.machine.m_name_strindex m)
                (database_builder.m_strings db))
    (database_builder.m_machines db).

(** The first position of [names], among the [count] positions from [first]
    on, whose name is not less than [target]; [count] halves at each step. *)
Fixpoint lower_bound (fuel : nat) (names : list string) (target : string)
  (first count : nat) : nat :=
  match fuel with
  | O => first
  | S fuel' =>
      if (count =? 0)%nat then first
      else
        let step := (count / 2)%nat in
        match names !! (first + step)%nat with
        | Some name =>
            if bool_decide (strcmp name target < 0)
            then lower_bound fuel' names target (first + step + 1) (count - (step + 1))
            else lower_bound fuel' names target first step
        | None => first
        end
  end.

(** Modelled from the spec: the loader ([info.cpp]) is not under src/. It
    "exposes [...] the top-level table additionally as a name-keyed view using
    binary search (relying on the build-time sort)"; "lookup for an absent
    name returns not found, not a neighbor": the binary search stops at the
    first name not less than the target, which is the answer if it is equal. *)
Definition find_machine (db : database_builder.t) (target : string)
  : outcome (option (nat * binaries.machine.t)) :=
  names ← machine_names db;
  let i := lower_bound (length names) names target 0 (length names) in
  match names !! i, database_builder.m_machines db !! i with
  | Some name, Some m => if decide (name = target) then Ok (Some (i, m)) else Ok None
  | _, _ => Ok None
  end.

End database.
End database.

(** ** A sample of the declarations

    One choice of what [Declarations] leaves open, on which the builder can
    be run: numbers are decimal (or of the given radix up to 16) and must fit
    their type, booleans are "yes" and "no", a string of at most one
    character other than NUL is a small string, and the sort is a merge
    sort. *)

Module sample.
Import info.

Definition digit_value (ch : ascii) : option Z :=
  util.hexDigit ch.

Fixpoint number_from (radix : Z) (s : string) (acc : Z) : option Z :=
  match s with
  | EmptyString => Some acc
  | String ch s' =>
      d ← digit_value ch;
      if d <? radix then number_from radix s' (acc * radix + d) else None
  end.

Definition number (radix bound : Z) (s : string) : option Z :=
  if decide (s = EmptyString) then None
  else n ← number_from radix s 0; if n <? bound then Some n else None.

Definition boolean (s : string) : option bool :=
  if decide (s = "yes"%string) then Some true
  else if decide (s = "no"%string) then Some false
  else None.

Definition SMALL : Z := 0xC0000000.

Definition encode_small (s : string) : option Z :=
  match s with
  | EmptyString => Some SMALL
  | String ch EmptyString => if decide (ch = NUL) then None else Some (SMALL + char_code ch)
  | _ => None
  end.

Definition decode_small (value : Z) : option (list ascii) :=
  if decide (SMALL <= value < SMALL + 256)
  then Some [ascii_of_N (Z.to_N (value - SMALL)); NUL; NUL; NUL; NUL; NUL]
  else None.

Definition position {T} `{EqDecision T} (all : list T) (x : T) : Z :=
  match list_find (fun y => y = x) all with
  | Some (i, _) => Z.of_nat i
  | None => 0
  end.

#[global] Instance dump_status_eq_dec : EqDecision rom.dump_status_t.
Proof. solve_decision. Defined.
#[global] Instance status_type_eq_dec : EqDecision software_list.status_type.
Proof. solve_decision. Defined.
#[global] Instance relation_eq_dec : EqDecision configuration_condition.relation_t.
Proof. solve_decision. Defined.
#[global] Instance feature_type_eq_dec : EqDecision feature.type_t.
Proof. solve_decision. Defined.
#[global] Instance feature_quality_eq_dec : EqDecision feature.quality_t.
Proof. solve_decision. Defined.
#[global] Instance chip_type_eq_dec : EqDecision chip.type_t.
Proof. solve_decision. Defined.
#[global] Instance display_type_eq_dec : EqDecision display.type_t.
Proof. solve_decision. Defined.
#[global] Instance display_rotation_eq_dec : EqDecision display.rotation_t.
Proof. solve_decision. Defined.
#[global] Instance driver_quality_eq_dec : EqDecision machine.driver_quality_t.
Proof. solve_decision. Defined.

(** [a] may come before [b]: [comp(b, a)] is false. *)
Definition not_after {A} (comp : A -> A -> bool) (a b : A) : Prop := comp b a = false.

#[global] Instance not_after_dec {A} (comp : A -> A -> bool) a b : Decision (not_after comp a b).
Proof. unfold not_after. apply _. Defined.

(** The header as the little-endian bytes of its fields, in their order. *)
Definition uint32_bytes (x : Z) : list Z :=
  [x mod 256; (x / 256) mod 256; (x / 65536) mod 256; (x / 16777216) mod 256].

Definition header_bytes (h : binaries.header.t) : list Z :=
  let 'binaries.header.Build a b c d e f g h i j k l m n o p q r s := h in
  concat (uint32_bytes <$> [a; b; c; d; e; f; g; h; i; j; k; l; m; n; o; p; q; r; s]).

#[global] Instance declarations : Declarations := {|
  MAGIC_HDR := 0x4D414D45;
  calculate_sizes_hash := 0x12345678;
  MAGIC_STRINGTABLE_BEGIN := list_ascii_of_string "<STRINGS";
  MAGIC_STRINGTABLE_END := list_ascii_of_string "STRINGS>";
  binaries_salt := [0xDE; 0xAD; 0xBE; 0xEF];
  info.header_bytes := header_bytes;
  crc_size := 4;
  sha1_size := 20;
  tryEncodeAsSmallString := encode_small;
  tryDecodeAsSmallString := decode_small;
  dump_status_value := position (snd <$> s_dump_status_parser);
  status_type_value := position (snd <$> s_status_parser);
  relation_value := position (snd <$> s_relation_parser);
  feature_type_value := position (snd <$> s_feature_type_parser);
  feature_quality_value := position (snd <$> s_feature_quality_parser);
  chip_type_value := position (snd <$> s_chip_type_parser);
  display_type_value := position (snd <$> s_display_type_parser);
  display_rotation_value := position (snd <$> s_display_rotation_parser);
  driver_quality_value := position (snd <$> s_driver_quality_parser);
  as_bool := boolean;
  as_uint8 := number 10 (2 ^ 8);
  as_uint32 := number 10 (2 ^ 32);
  as_uint64 := fun radix => number radix (2 ^ 64);
  as_float := fun _ => None;
  NAN := 0x7FC00000;
  toULong := number 10 (2 ^ 64);
  std_sort := fun A comp => merge_sort (not_after comp)
|}.

(** The document of the end-to-end scenario of the specification, "two
    top-level records ("bbb", "aaa"), each with one child record"; here
    "aaa" is a clone of "bbb", which the document declares first and the
    table holds last. *)
Definition document : xml_document :=
  {| xml_events :=
       [ ElementBegin ["mame"] [("build", "0.262")];
         ElementBegin ["mame"; "machine"] [("name", "bbb")];
         ElementBegin ["mame"; "machine"; "rom"] [("name", "b.bin"); ("size", "16")];
         ElementEnd ["mame"; "machine"; "rom"] EmptyString;
         ElementEnd ["mame"; "machine"] EmptyString;
         ElementBegin ["mame"; "machine"]
           [("name", "aaa"); ("cloneof", "bbb"); ("romof", "bbb")];
         ElementBegin ["mame"; "machine"; "rom"]
           [("name", "a.bin"); ("size", "4294967295")];
         ElementEnd ["mame"; "machine"; "rom"] EmptyString;
         ElementEnd ["mame"; "machine"] EmptyString;
         ElementEnd ["mame"] EmptyString ]%string;
     xml_parsed := true;
     xml_error_messages := EmptyString |}.

(** A machine whose name is the empty string, and a machine whose [cloneof]
    is the empty string. *)
Definition unnamed_document : xml_document :=
  {| xml_events :=
       [ ElementBegin ["mame"] [];
         ElementBegin ["mame"; "machine"] [("name", EmptyString)];
         ElementEnd ["mame"; "machine"] EmptyString;
         ElementBegin ["mame"; "machine"] [("name", "bbb"); ("cloneof", EmptyString)];
         ElementEnd ["mame"; "machine"] EmptyString;
         ElementEnd ["mame"] EmptyString ]%string;
     xml_parsed := true;
     xml_error_messages := EmptyString |}.

(** A rom whose [size] attribute is 2^32, one more than a [std::uint32_t] holds. *)
Definition oversized_document : xml_document :=
  {| xml_events :=
       [ ElementBegin ["mame"] [];
         ElementBegin ["mame"; "machine"] [("name", "aaa")];
         ElementBegin ["mame"; "machine"; "rom"]
           [("name", "a.bin"); ("size", "4294967296")];
         ElementEnd ["mame"; "machine"; "rom"] EmptyString;
         ElementEnd ["mame"; "machine"] EmptyString;
         ElementEnd ["mame"] EmptyString ]%string;
     xml_parsed := true;
     xml_error_messages := EmptyString |}.

(** A parse that the caller stopped: the parser reports a failure. *)
Definition stopped_document : xml_document :=
  {| xml_events := [ ElementBegin ["mame"] [] ]%string;
     xml_parsed := false;
     xml_error_messages := "parsing aborted" |}.

(** The builder after [process_xml] on [input], if it returned [true]. *)
Definition database (input : xml_document) : database_builder.t :=
  match database_builder.process_xml input database_builder.ctor with
  | Ok (database_builder.Built db) => db
  | _ => database_builder.ctor
  end.

(** A string with a NUL in it. *)
Definition split_name : string := String "a" (String NUL "bcdefgh").

(** A machine with a configuration of two settings, the second of them under
    a condition, a dipswitch of one value, a device with two named
    extensions, and two slots, the first of them with two options. *)
Definition configured_document : xml_document :=
  {| xml_events :=
       [ ElementBegin ["mame"] [("build", "0.262")];
         ElementBegin ["mame"; "machine"] [("name", "ccc")];
         ElementBegin ["mame"; "machine"; "configuration"] [("name", "c"); ("tag", "t")];
         ElementBegin ["mame"; "machine"; "configuration"; "confsetting"]
           [("name", "x"); ("value", "0")];
         ElementBegin ["mame"; "machine"; "configuration"; "confsetting"]
           [("name", "y"); ("value", "1")];
         ElementBegin ["mame"; "machine"; "configuration"; "confsetting"; "condition"]
           [("tag", "t"); ("relation", "eq"); ("mask", "1"); ("value", "1")];
         ElementBegin ["mame"; "machine"; "dipswitch"] [("name", "d"); ("tag", "t")];
         ElementBegin ["mame"; "machine"; "dipswitch"; "dipvalue"]
           [("name", "z"); ("value", "2")];
         ElementBegin ["mame"; "machine"; "device"] [("type", "cassette"); ("tag", "cass")];
         ElementBegin ["mame"; "machine"; "device"; "extension"] [("name", "wav")];
         ElementBegin ["mame"; "machine"; "device"; "extension"] [("name", "cas")];
         ElementEnd ["mame"; "machine"; "device"] EmptyString;
         ElementBegin ["mame"; "machine"; "slot"] [("name", "s")];
         ElementBegin ["mame"; "machine"; "slot"; "slotoption"]
           [("name", "o"); ("devname", "p"); ("default", "yes")];
         ElementBegin ["mame"; "machine"; "slot"; "slotoption"]
           [("name", "q"); ("devname", "r")];
         ElementBegin ["mame"; "machine"; "slot"] [("name", "e")];
         ElementEnd ["mame"; "machine"] EmptyString;
         ElementEnd ["mame"] EmptyString ]%string;
     xml_parsed := true;
     xml_error_messages := EmptyString |}.

(** The captures after the callbacks of [events], begun from [st]. *)
Definition after (events : list xml_event) (st : database_builder.captures)
  : database_builder.captures :=
  match database_builder.parse events st with
  | Ok (_, st') => st'
  | _ => st
  end.

(** The captures inside the element of a machine. *)
Definition in_machine : database_builder.captures :=
  after [ ElementBegin ["mame"] [];
          ElementBegin ["mame"; "machine"] [("name", "ccc")] ]%string
    (database_builder.Captures database_builder.ctor database_builder.initial_header
       EmptyString).

(** A device element with three extensions, the second of them without a
    name. *)
Definition device_events : list xml_event :=
  (ElementBegin ["mame"; "machine"; "device"] [("type", "cassette"); ("tag", "cass")]
   :: (ElementBegin ["mame"; "machine"; "device"; "extension"]
       <$> [[("name", "wav")]; [("type", "x")]; [("name", "cas")]])
   ++ [ElementEnd ["mame"; "machine"; "device"] EmptyString])%string.

(** The delimiter of a list of paths. *)
Definition is_semicolon (ch : ascii) : bool := bool_decide (ch = ";"%char).

End sample.

(** ** Vocabulary of the properties *)

(** The byte that the two characters of [hex] at [2 * i] and [2 * i + 1] encode. *)
Definition hex_pair (hex : string) (i : nat) : option Z :=
  chHi ← String.get (i * 2 + 0) hex;
  hiDigit ← util.hexDigit chHi;
  chLo ← String.get (i * 2 + 1) hex;
  loDigit ← util.hexDigit chLo;
  Some (Z.lor (Z.shiftl hiDigit 4) (Z.shiftl loDigit 0)).


(** *** The string table *)

Section string_table_vocabulary.
Context `{info.Declarations}.
Import info.

(** [s] holds no NUL character: it is the C string of its own bytes. *)
Definition no_NUL (s : string) : Prop := NUL ∉ list_ascii_of_string s.

(** What the builder needs of the small-string codec: a reference that
    encodes [s] decodes to a buffer holding the C string [s]. *)
Class SmallStrings : Prop := {
  small_string_decodes : forall s r,
    tryEncodeAsSmallString s = Some r ->
    exists sso, tryDecodeAsSmallString r = Some sso /\ c_str sso = Ok s
}.

(** No offset below [limit] is the encoding of a small string. *)
Definition offsets_below (limit : nat) : Prop :=
  forall off, (off < limit)%nat -> tryDecodeAsSmallString (Z.of_nat off) = None.

(** The bytes of [s] and a NUL are in [data] from the offset [off] on. *)
Definition stored_at (data : list ascii) (off : nat) (s : string) : Prop :=
  exists before after,
    data = before ++ list_ascii_of_string s ++ NUL :: after /\ length before = off.

(** The table is consistent: each string of the map is stored at its offset,
    and two strings of the map have different offsets. *)
Definition consistent (table : string_table.t) : Prop :=
  (forall s r, string_table.m_map table !! s = Some r ->
     exists off, r = Z.of_nat off /\ stored_at (string_table.m_data table) off s) /\
  (forall s1 s2 r,
     string_table.m_map table !! s1 = Some r ->
     string_table.m_map table !! s2 = Some r -> s1 = s2).

(** [table'] extends [table]: the bytes and the entries of [table] are kept. *)
Definition extends (table table' : string_table.t) : Prop :=
  (exists more, string_table.m_data table' = string_table.m_data table ++ more) /\
  string_table.m_map table ⊆ string_table.m_map table'.

(** [r] is the reference of [s] in [table]. *)
Definition reference_of (table : string_table.t) (s : string) (r : Z) : Prop :=
  tryEncodeAsSmallString s = Some r \/
  (tryEncodeAsSmallString s = None /\ string_table.m_map table !! s = Some r).

End string_table_vocabulary.

(** *** The machine table and its child tables *)

(** The tables whose records a machine owns through an index and a count. *)
Inductive child : Type :=
| Biosset | Rom | Disk | Feature | Chip | Display | Sample | Configuration
| Device | Slot | SoftwareList | RamOption.

#[global] Instance child_eq_dec : EqDecision child.
Proof. solve_decision. Defined.

Section builder_vocabulary.
Import info info.binaries info.database_builder.

Definition table_size (k : child) (b : database_builder.t) : nat :=
  match k with
  | Biosset => length (m_biossets b)
  | Rom => length (m_roms b)
  | Disk => length (m_disks b)
  | Feature => length (m_features b)
  | Chip => length (m_chips b)
  | Display => length (m_displays b)
  | Sample => length (m_samples b)
  | Configuration => length (m_configurations b)
  | Device => length (m_devices b)
  | Slot => length (m_slots b)
  | SoftwareList => length (m_software_lists b)
  | RamOption => length (m_ram_options b)
  end.

Definition child_index (k : child) (m : machine.t) : Z :=
  match k with
  | Biosset => machine.m_biossets_index m
  | Rom => machine.m_roms_index m
  | Disk => machine.m_disks_index m
  | Feature => machine.m_features_index m
  | Chip => machine.m_chips_index m
  | Display => machine.m_displays_index m
  | Sample => machine.m_samples_index m
  | Configuration => machine.m_configurations_index m
  | Device => machine.m_devices_index m
  | Slot => machine.m_slots_index m
  | SoftwareList => machine.m_software_lists_index m
  | RamOption => machine.m_ram_options_index m
  end.

Definition child_count (k : child) (m : machine.t) : Z :=
  match k with
  | Biosset => machine.m_biossets_count m
  | Rom => machine.m_roms_count m
  | Disk => machine.m_disks_count m
  | Feature => machine.m_features_count m
  | Chip => machine.m_chips_count m
  | Display => machine.m_displays_count m
  | Sample => machine.m_samples_count m
  | Configuration => machine.m_configurations_count m
  | Device => machine.m_devices_count m
  | Slot => machine.m_slots_count m
  | SoftwareList => machine.m_software_lists_count m
  | RamOption => machine.m_ram_options_count m
  end.

(** The position [p] of a child table is in the range the machine records. *)
Definition in_range (k : child) (m : machine.t) (p : nat) : Prop :=
  child_index k m <= Z.of_nat p < child_index k m + child_count k m.

(** The element whose begin starts a machine, and the elements whose begin
    appends a record to a child table. *)
Definition machine_path : list string := ["mame"; "machine"]%string.

Definition child_paths (k : child) : list (list string) :=
  match k with
  | Biosset => [["mame"; "machine"; "biosset"]]
  | Rom => [["mame"; "machine"; "rom"]]
  | Disk => [["mame"; "machine"; "disk"]]
  | Feature => [["mame"; "machine"; "feature"]]
  | Chip => [["mame"; "machine"; "chip"]]
  | Display => [["mame"; "machine"; "display"]]
  | Sample => [["mame"; "machine"; "sample"]]
  | Configuration => [["mame"; "machine"; "configuration"]; ["mame"; "machine"; "dipswitch"]]
  | Device => [["mame"; "machine"; "device"]]
  | Slot => [["mame"; "machine"; "slot"]]
  | SoftwareList => [["mame"; "machine"; "softwarelist"]]
  | RamOption => [["mame"; "machine"; "ramoption"]]
  end%string.

(** For each child of kind [k] that the events append, in the order of the
    append, the machine that is current then: machines are numbered from 0
    in the order of their elements, [begun] of them are begun before the
    events. *)
Fixpoint owners (k : child) (begun : nat) (events : list xml_event) : list nat :=
  match events with
  | [] => []
  | ElementBegin path _ :: events' =>
      if decide (path = machine_path) then owners k (S begun) events'
      else if decide (path ∈ child_paths k) then Nat.pred begun :: owners k begun events'
      else owners k begun events'
  | ElementEnd _ _ :: events' => owners k begun events'
  end.

(** The attributes of the machine elements, in the order of the elements. *)
Fixpoint machine_elements (events : list xml_event) : list Attributes :=
  match events with
  | [] => []
  | ElementBegin path attributes :: events' =>
      if decide (path = machine_path) then attributes :: machine_elements events'
      else machine_elements events'
  | ElementEnd _ _ :: events' => machine_elements events'
  end.

(** The text of an attribute, empty when the attribute is absent. *)
Definition attribute_text (attributes : Attributes) (name : string) : string :=
  default EmptyString (get_string attributes name).

(** [~0] as a [std::uint32_t]: "no such machine". *)
Definition NOT_FOUND : Z := 2 ^ 32 - 1.

End builder_vocabulary.

(** *** std::sort *)

Section sort_vocabulary.
Context `{info.Declarations}.

(** [comp] is a strict weak ordering, as [std::sort] requires. *)
Record strict_weak_ordering {A} (comp : A -> A -> bool) : Prop := {
  swo_irreflexive : forall a, comp a a = false;
  swo_transitive : forall a b c, comp a b = true -> comp b c = true -> comp a c = true;
  swo_incomparable : forall a b c,
    comp a b = false -> comp b a = false -> comp b c = false -> comp c b = false ->
    comp a c = false /\ comp c a = false
}.

(** What the C++ library promises of [std::sort]: the result is a
    permutation of the range, and no element is less than its predecessor. *)
Class StdSort : Prop := {
  std_sort_permutation : forall A (comp : A -> A -> bool) (v : list A),
    info.std_sort A comp v ≡ₚ v;
  std_sort_sorted : forall A (comp : A -> A -> bool) (v : list A),
    strict_weak_ordering comp ->
    Sorted (fun a b => comp b a = false) (info.std_sort A comp v)
}.

End sort_vocabulary.

(** *** What a callback does to the machines and their child tables *)

Section effects.
Context `{info.Declarations}.
Import info info.binaries info.database_builder.

(** The references a machine record holds to its name and to the names of
    the machines it is a clone of and takes its ROMs of. *)
Definition links (m : machine.t) : Z * Z * Z :=
  (machine.m_name_strindex m, machine.m_clone_of_machindex m, machine.m_rom_of_machindex m).

(** The builder's string table is kept consistent and only extended. *)
Definition strings_grow (st st' : captures) : Prop :=
  consistent (m_strings (this st)) ->
  consistent (m_strings (this st')) /\ extends (m_strings (this st)) (m_strings (this st')).

(** The callback of a machine element: one machine more, with the sizes of
    the child tables as its indexes, all counts zero, and the references of
    its three attributes. *)
Definition begins (attributes : Attributes) (st st' : captures) : Prop :=
  (forall k, table_size k (this st') = table_size k (this st) /\
             Z.of_nat (table_size k (this st)) < 2 ^ 32) /\
  exists m,
    m_machines (this st') = m_machines (this st) ++ [m] /\
    (forall k, child_index k m = Z.of_nat (table_size k (this st)) /\ child_count k m = 0) /\
    reference_of (m_strings (this st')) (attribute_text attributes "name")
      (machine.m_name_strindex m) /\
    reference_of (m_strings (this st')) (attribute_text attributes "cloneof")
      (machine.m_clone_of_machindex m) /\
    reference_of (m_strings (this st')) (attribute_text attributes "romof")
      (machine.m_rom_of_machindex m).

(** Any other callback: the machines keep their links and indexes; when the
    callback appends to the child table [appended], that table grows by one
    record and the count of the last machine for it grows by one (as a
    [std::uint32_t]); nothing else changes in the sizes and the counts. *)
Definition updates (appended : option child) (st st' : captures) : Prop :=
  (appended <> None -> m_machines (this st) <> []) /\
  (forall k, table_size k (this st') =
             if decide (appended = Some k) then S (table_size k (this st))
             else table_size k (this st)) /\
  length (m_machines (this st')) = length (m_machines (this st)) /\
  (forall j m, m_machines (this st) !! j = Some m ->
     exists m', m_machines (this st') !! j = Some m' /\
       links m' = links m /\
       forall k, child_index k m' = child_index k m /\
                 child_count k m' =
                   if decide (appended = Some k /\ S j = length (m_machines (this st)))
                   then incr (child_count k m) else child_count k m).

(** What an event does, by the element it is for. *)
Definition event_effect (event : xml_event) (st st' : captures) : Prop :=
  match event with
  | ElementBegin path attributes =>
      (path = machine_path -> begins attributes st st') /\
      (forall k, path ∈ child_paths k -> updates (Some k) st st') /\
      (path <> machine_path -> (forall k, path ∉ child_paths k) -> updates None st st')
  | ElementEnd _ _ => updates None st st'
  end.

(** The machine record [m] holds the references of the three attributes of
    its element. *)
Definition links_of (strings : string_table.t) (attributes : Attributes) (m : machine.t) : Prop :=
  reference_of strings (attribute_text attributes "name") (machine.m_name_strindex m) /\
  reference_of strings (attribute_text attributes "cloneof") (machine.m_clone_of_machindex m) /\
  reference_of strings (attribute_text attributes "romof") (machine.m_rom_of_machindex m).

(** The ranges of the machines in the child table [k] of [size] records are
    the positions whose records the machines own, [owned] giving the owner
    of each position; the range of the last machine ends where the table
    ends. *)
Definition ranges_agree (k : child) (owned : list nat) (machines : list machine.t)
  (size : nat) : Prop :=
  forall j m, machines !! j = Some m ->
    0 <= child_index k m /\ 0 <= child_count k m /\
    child_index k m + child_count k m <= Z.of_nat size /\
    (S j = length machines -> child_index k m + child_count k m = Z.of_nat size) /\
    forall p, owned !! p = Some j <-> in_range k m p.

(** The builder after the callbacks of a run of events: [elements] are the
    machine elements met, [owned k] the owners of the records of table [k]. *)
Record parsed (elements : list Attributes) (owned : child -> list nat)
  (b : database_builder.t) : Prop := {
  parsed_consistent : consistent (m_strings b);
  parsed_links : Forall2 (links_of (m_strings b)) elements (m_machines b);
  parsed_owned_length : forall k, length (owned k) = table_size k b;
  parsed_owned_bound : forall k p j, owned k !! p = Some j -> (j < length (m_machines b))%nat;
  parsed_ranges : forall k,
    Z.of_nat (table_size k b) < 2 ^ 32 ->
    ranges_agree k (owned k) (m_machines b) (table_size k b)
}.

(** The change of [clone_of] and [rom_of] at the end of [process_xml]. *)
Definition resolve_links (machineIndexMap : gmap Z Z) (m : machine.t) : machine.t :=
  (m <| machine.m_clone_of_machindex ::= machineIndexFromStringIndex machineIndexMap |>)
    <| machine.m_rom_of_machindex ::= machineIndexFromStringIndex machineIndexMap |>.

End effects.

(** *** The database that process_xml builds *)

Section built_vocabulary.
Context `{info.Declarations}.
Import info info.binaries info.database_builder.

(** A row of the machine table: the number of the machine element in the
    document, its attributes, the name [lookup] returns for the record, and
    the record as it is before its references to other machines are resolved. *)
Record row : Type := Row {
  row_ordinal : nat;
  row_element : Attributes;
  row_name : string;
  row_machine : machine.t
}.

(** The database [db] built from [input], with the rows of its machine table
    in the order of the table; [empty] is the reference of the empty string. *)
Record built (input : xml_document) (db : database_builder.t) (rows : list row) (empty : Z)
  : Prop := {
  built_ordinals :
    row_ordinal <$> rows ≡ₚ seq 0 (length (machine_elements (xml_events input)));
  built_rows :
    Forall (fun r =>
      machine_elements (xml_events input) !! row_ordinal r = Some (row_element r) /\
      links_of (m_strings db) (row_element r) (row_machine r) /\
      string_table.lookup (machine.m_name_strindex (row_machine r)) (m_strings db)
        = Ok (row_name r) /\
      forall k p, owners k 0 (xml_events input) !! p = Some (row_ordinal r)
                  <-> in_range k (row_machine r) p) rows;
  built_sorted : StronglySorted (fun a b => strcmp a b <= 0) (row_name <$> rows);
  built_machines :
    m_machines db =
      resolve_links
        (emplace_machines (row_machine <$> rows) 0 (emplace empty NOT_FOUND ∅))
      <$> (row_machine <$> rows);
  built_empty : reference_of (m_strings db) EmptyString empty;
  built_consistent : consistent (m_strings db);
  built_sizes : forall k,
    length (owners k 0 (xml_events input)) = table_size k db /\
    Z.of_nat (table_size k db) < 2 ^ 32;
  built_more_sizes :
    size (m_machines db) < 2 ^ 32 /\
    size (m_slot_options db) < 2 ^ 32 /\
    size (m_configuration_settings db) < 2 ^ 32 /\
    size (m_configuration_conditions db) < 2 ^ 32
}.

(** The index that a reference to the machine named [target] resolves to,
    [elements] being the machine elements in the order of the table: none for
    the empty name, else the first machine of that name, if there is one. *)
Definition resolve (elements : list Attributes) (target : string) : Z :=
  if decide (target = EmptyString) then NOT_FOUND
  else
    match list_find (fun a => attribute_text a "name" = target) elements with
    | Some (i, _) => Z.of_nat i
    | None => NOT_FOUND
    end.

End built_vocabulary.

(** *** Words of a text *)

Section words_vocabulary.
Context {Char : Type}.

(** The words of [rest] between delimiters, the first one continuing [word];
    an empty word is no word. *)
Fixpoint words_of (is_delim : Char -> bool) (word rest : list Char) : list (list Char) :=
  match rest with
  | [] => match word with [] => [] | _ => [word] end
  | ch :: rest' =>
      if is_delim ch
      then match word with [] => [] | _ => [word] end ++ words_of is_delim [] rest'
      else words_of is_delim (word ++ [ch]) rest'
  end.

(** A word as [string_split] returns them: not empty, and free of delimiters. *)
Definition is_word (is_delim : Char -> bool) (word : list Char) : Prop :=
  word <> [] /\ Forall (fun ch => is_delim ch = false) word.

End words_vocabulary.

(** *** Commands of the worker protocol *)

(** An argument as [buildCommand] writes it: between quotes when it is empty
    or holds a space. *)
Definition quoted (arg : string) : string :=
  if decide (arg = EmptyString \/ " "%char ∈ list_ascii_of_string arg)
  then String RunMachineTask.QUOTE EmptyString +:+ arg +:+ String RunMachineTask.QUOTE EmptyString
  else arg.

(** The end of a line: carriage return, line feed. *)
Definition CRLF : string := String RunMachineTask.CR (String RunMachineTask.LF EmptyString).

(** [ch] is a line ending character. *)
Definition line_ending (ch : ascii) : Prop :=
  ch = RunMachineTask.CR \/ ch = RunMachineTask.LF.

(** *** Devices *)

(** The names with a comma after each, as the builder collects the
    extensions of a device. *)
Fixpoint listed (names : list string) : string :=
  match names with
  | [] => EmptyString
  | name :: names' => name +:+ "," +:+ listed names'
  end.

(** *** Tables that a step leaves alone *)

Section frame_vocabulary.
Import info info.binaries info.database_builder.

(** [b'] has the tables of [b], but for the machines. *)
Definition same_tables (b b' : database_builder.t) : Prop :=
  m_biossets b' = m_biossets b /\
  m_roms b' = m_roms b /\
  m_disks b' = m_disks b /\
  m_devices b' = m_devices b /\
  m_slots b' = m_slots b /\
  m_slot_options b' = m_slot_options b /\
  m_features b' = m_features b /\
  m_chips b' = m_chips b /\
  m_displays b' = m_displays b /\
  m_samples b' = m_samples b /\
  m_configurations b' = m_configurations b /\
  m_configuration_settings b' = m_configuration_settings b /\
  m_configuration_conditions b' = m_configuration_conditions b /\
  m_software_lists b' = m_software_lists b /\
  m_ram_options b' = m_ram_options b.

End frame_vocabulary.

(** *** Ranges that tile a table *)

(** The ranges, each an index and a count, lie one after the other from the
    position [start] to the position [size]: the first begins at [start],
    each begins where the one before it ends, and the last ends at [size]. *)
Fixpoint tiles (start : Z) (ranges : list (Z * Z)) (size : Z) : Prop :=
  match ranges with
  | [] => start = size
  | (index, count) :: ranges' =>
      index = start /\ 0 <= count /\ tiles (start + count) ranges' size
  end.

Section nested_vocabulary.
Import info info.binaries info.database_builder.

(** The range of settings that a configuration records, and the range of
    options that a slot records. *)
Definition settings_range (c : configuration.t) : Z * Z :=
  (configuration.m_configuration_settings_index c,
   configuration.m_configuration_settings_count c).

Definition options_range (s : slot.t) : Z * Z :=
  (slot.m_slot_options_index s, slot.m_slot_options_count s).

(** The tables under the configurations and the slots, as the callbacks keep
    them: while a table of records has fewer than 2^32 of them, the ranges
    of their owners tile it; and the index of conditions that a setting
    records is not less than that of the setting before it and not more
    than the number of conditions. *)
Definition nested (b : database_builder.t) : Prop :=
  (size (m_configuration_settings b) < 2 ^ 32 ->
   tiles 0 (settings_range <$> m_configurations b) (size (m_configuration_settings b))) /\
  (size (m_slot_options b) < 2 ^ 32 ->
   tiles 0 (options_range <$> m_slots b) (size (m_slot_options b))) /\
  StronglySorted Z.le
    ((configuration_setting.m_conditions_index <$> m_configuration_settings b)
     ++ [size (m_configuration_conditions b)]) /\
  Forall (fun s => 0 <= configuration_setting.m_conditions_index s)
    (m_configuration_settings b).

End nested_vocabulary.

(** *** The records of the child tables *)

Section records_vocabulary.
Context `{info.Declarations}.
Import info info.binaries info.database_builder.

(** The attributes of the elements whose begin appends a record to the child
    table [k], in the order of the elements: the position [p] of this list
    and of [owners k] is the same child, the [p]-th that is appended. *)
Fixpoint child_elements (k : child) (events : list xml_event) : list Attributes :=
  match events with
  | [] => []
  | ElementBegin path attributes :: events' =>
      if decide (path = machine_path) then child_elements k events'
      else if decide (path ∈ child_paths k) then attributes :: child_elements k events'
      else child_elements k events'
  | ElementEnd _ _ :: events' => child_elements k events'
  end.

(** [r] is the reference of the attribute [name] of the element, the empty
    string when it is absent. *)
Definition refers (strings : string_table.t) (a : Attributes) (name : string) (r : Z) : Prop :=
  reference_of strings (attribute_text a name) r.

(** The flag of a boolean attribute that is [false] when absent. *)
Definition flag (a : Attributes) (name : string) : Z :=
  encodeBool (Some (default false (get_with as_bool a name))) 0xFF.

(** [bytes] is a checksum of [size] bytes as [binaryFromHex] leaves it for
    the attribute [name]. *)
Definition decodes (size : nat) (a : Attributes) (name : string) (bytes : list Z) : Prop :=
  exists ok, binaryFromHex (replicate size 0) (get_string a name) = Ok (bytes, ok).

(** A 32-bit attribute that is all bits set when absent. *)
Definition uint32_or_ones (a : Attributes) (name : string) : Z :=
  default (2 ^ 32 - 1) (get_with as_uint32 a name).

(** The record of a child table is the record of the element with the
    attributes [a]: each field that the callback of the element assigns,
    and that no later callback changes, is what the callback makes of the
    attributes, a string being held by its reference in [strings]. *)
Definition biosset_of (strings : string_table.t) (a : Attributes) (r : biosset.t) : Prop :=
  refers strings a "name" (biosset.m_name_strindex r) /\
  refers strings a "description" (biosset.m_description_strindex r) /\
  biosset.m_default r = flag a "default".

Definition rom_of (strings : string_table.t) (a : Attributes) (r : rom.t) : Prop :=
  refers strings a "name" (rom.m_name_strindex r) /\
  refers strings a "bios" (rom.m_bios_strindex r) /\
  rom.m_size r = default 0 (get_with as_uint32 a "size") /\
  decodes crc_size a "crc" (rom.m_crc r) /\
  decodes sha1_size a "sha1" (rom.m_sha1 r) /\
  refers strings a "merge" (rom.m_merge_strindex r) /\
  refers strings a "region" (rom.m_region_strindex r) /\
  rom.m_offset r = default 0 (get_with (as_uint64 16) a "offset") /\
  rom.m_status r
  = encodeEnum dump_status_value (get_with (enum_parse s_dump_status_parser) a "status") 0 /\
  rom.m_optional r = flag a "optional".

Definition disk_of (strings : string_table.t) (a : Attributes) (r : disk.t) : Prop :=
  refers strings a "name" (disk.m_name_strindex r) /\
  decodes sha1_size a "sha1" (disk.m_sha1 r) /\
  refers strings a "merge" (disk.m_merge_strindex r) /\
  refers strings a "region" (disk.m_region_strindex r) /\
  disk.m_index r = default 0 (get_with as_uint32 a "index") /\
  disk.m_writable r = flag a "writable" /\
  disk.m_status r
  = encodeEnum dump_status_value (get_with (enum_parse s_dump_status_parser) a "status") 0 /\
  disk.m_optional r = flag a "optional".

Definition feature_of (a : Attributes) (r : feature.t) : Prop :=
  feature.m_type r
  = encodeEnum feature_type_value (get_with (enum_parse s_feature_type_parser) a "type") 0 /\
  feature.m_status r
  = encodeEnum feature_quality_value
      (get_with (enum_parse s_feature_quality_parser) a "status") 0 /\
  feature.m_overall r
  = encodeEnum feature_quality_value
      (get_with (enum_parse s_feature_quality_parser) a "overall") 0.

Definition chip_of (strings : string_table.t) (a : Attributes) (r : chip.t) : Prop :=
  chip.m_type r
  = encodeEnum chip_type_value (get_with (enum_parse s_chip_type_parser) a "type") 0 /\
  refers strings a "name" (chip.m_name_strindex r) /\
  refers strings a "tag" (chip.m_tag_strindex r) /\
  chip.m_clock r = default 0 (get_with (as_uint64 10) a "clock").

Definition display_of (strings : string_table.t) (a : Attributes) (r : display.t) : Prop :=
  refers strings a "tag" (display.m_tag_strindex r) /\
  display.m_width r = uint32_or_ones a "width" /\
  display.m_height r = uint32_or_ones a "height" /\
  display.m_refresh r = default NAN (get_with as_float a "refresh") /\
  display.m_pixclock r = default (2 ^ 64 - 1) (get_with (as_uint64 10) a "pixclock") /\
  display.m_htotal r = uint32_or_ones a "htotal" /\
  display.m_hbend r = uint32_or_ones a "hbend" /\
  display.m_hbstart r = uint32_or_ones a "hbstart" /\
  display.m_vtotal r = uint32_or_ones a "vtotal" /\
  display.m_vbend r = uint32_or_ones a "vbend" /\
  display.m_vbstart r = uint32_or_ones a "vbstart" /\
  display.m_type r
  = encodeEnum display_type_value (get_with (enum_parse s_display_type_parser) a "type") 0 /\
  display.m_rotate r
  = encodeEnum display_rotation_value
      (get_with (enum_parse s_display_rotation_parser) a "rotate") 0 /\
  display.m_flipx r = encodeBool (get_with as_bool a "flipx") 0xFF.

Definition sample_of (strings : string_table.t) (a : Attributes) (r : sample.t) : Prop :=
  refers strings a "name" (sample.m_name_strindex r).

(** The count of settings of a configuration grows with its settings. *)
Definition configuration_of (strings : string_table.t) (a : Attributes)
  (r : configuration.t) : Prop :=
  refers strings a "name" (configuration.m_name_strindex r) /\
  refers strings a "tag" (configuration.m_tag_strindex r) /\
  configuration.m_mask r = default 0 (get_with as_uint32 a "mask").

(** The instance name and the extensions of a device come from the elements
    inside it. *)
Definition device_of (strings : string_table.t) (a : Attributes) (r : device.t) : Prop :=
  refers strings a "type" (device.m_type_strindex r) /\
  refers strings a "tag" (device.m_tag_strindex r) /\
  refers strings a "interface" (device.m_interface_strindex r) /\
  device.m_mandatory r = flag a "mandatory".

(** The count of options of a slot grows with its options. *)
Definition slot_of (strings : string_table.t) (a : Attributes) (r : slot.t) : Prop :=
  refers strings a "name" (slot.m_name_strindex r).

Definition software_list_of (strings : string_table.t) (a : Attributes)
  (r : software_list.t) : Prop :=
  refers strings a "name" (software_list.m_name_strindex r) /\
  refers strings a "filter" (software_list.m_filter_strindex r) /\
  software_list.m_status r
  = encodeEnum status_type_value (get_with (enum_parse s_status_parser) a "status") 0.

(** The value of a RAM option is the content of its element. *)
Definition ram_option_of (strings : string_table.t) (a : Attributes) (r : ram_option.t)
  : Prop :=
  refers strings a "name" (ram_option.m_name_strindex r) /\
  ram_option.m_is_default r = flag a "default".

(** The child table [k] of [b] holds, record for record and in their order,
    the records of the [elements]. *)
Definition records_of (k : child) (strings : string_table.t) (b : database_builder.t)
  (elements : list Attributes) : Prop :=
  match k with
  | Biosset => Forall2 (biosset_of strings) elements (m_biossets b)
  | Rom => Forall2 (rom_of strings) elements (m_roms b)
  | Disk => Forall2 (disk_of strings) elements (m_disks b)
  | Feature => Forall2 feature_of elements (m_features b)
  | Chip => Forall2 (chip_of strings) elements (m_chips b)
  | Display => Forall2 (display_of strings) elements (m_displays b)
  | Sample => Forall2 (sample_of strings) elements (m_samples b)
  | Configuration => Forall2 (configuration_of strings) elements (m_configurations b)
  | Device => Forall2 (device_of strings) elements (m_devices b)
  | Slot => Forall2 (slot_of strings) elements (m_slots b)
  | SoftwareList => Forall2 (software_list_of strings) elements (m_software_lists b)
  | RamOption => Forall2 (ram_option_of strings) elements (m_ram_options b)
  end.

(** The builder after the callbacks of a run of events, [elements k] being
    the elements that appended to the table [k]. *)
Definition recorded (elements : child -> list Attributes) (b : database_builder.t) : Prop :=
  consistent (m_strings b) /\
  forall k, records_of k (m_strings b) b (elements k).

End records_vocabulary.

(** * Properties *)

(** ** Outcomes *)

Lemma bind_Ok {A B} (m : outcome A) (f : A -> outcome B) (b : B) :
  m ≫= f = Ok b <-> exists a, m = Ok a /\ f a = Ok b.
Proof.
  destruct m as [a| |]; simpl; split; try (intros [a' [? ?]]); try discriminate; eauto.
  by simplify_eq.
Qed.

(** ** utility.h: salt *)

Lemma lxor_twice (b s : Z) : Z.lxor (Z.lxor b s) s = b.
Proof. by rewrite Z.lxor_assoc, Z.lxor_nilpotent, Z.lxor_0_r. Qed.

Lemma salt_loop_twice (original salt_value : list Z) (i : nat) :
  salt_value <> [] ->
  exists salted,
    util.salt_loop original salt_value i = Ok salted /\
    util.salt_loop salted salt_value i = Ok original.
Proof.
  intros Hsalt. revert i.
  induction original as [|b original IH]; intros i; simpl.
  - by exists [].
  - assert (Hlen : (0 < length salt_value)%nat) by (destruct salt_value; simpl; [done | lia]).
    destruct (Nat.eqb_spec (length salt_value) 0) as [Hz|_]; [lia|].
    destruct (lookup_lt_is_Some_2 salt_value (i mod length salt_value)%nat) as [s Hs].
    { apply Nat.mod_upper_bound. lia. }
    rewrite Hs. destruct (IH (S i)) as (salted & H1 & H2).
    rewrite H1. simpl. exists (Z.lxor b s :: salted). split; [done|].
    simpl. destruct (Nat.eqb_spec (length salt_value) 0) as [Hz|_]; [lia|].
    rewrite Hs, H2. simpl. by rewrite lxor_twice.
Qed.

(** C6. Salting is an involution: for every header (as its bytes) and every
    salt value (of a type of at least one byte), salting the salted header
    again with the same salt gives the header back. *)
Theorem salt_unsalt (header salt_value : list Z) :
  salt_value <> [] ->
  (salted ← util.salt header salt_value; util.salt salted salt_value) = Ok header.
Proof.
  intros Hsalt. unfold util.salt.
  destruct (salt_loop_twice header salt_value 0 Hsalt) as (salted & H1 & H2).
  by rewrite H1.
Qed.

Lemma salt_unsalt_witness :
  [0xDE; 0xAD] <> [] /\
  (salted ← util.salt [0x4D; 0x41; 0x4D; 0x45; 0x00] [0xDE; 0xAD]; util.salt salted [0xDE; 0xAD])
    = Ok [0x4D; 0x41; 0x4D; 0x45; 0x00].
Proof. split; [discriminate | apply salt_unsalt; discriminate]. Defined.

(** ** utility.cpp: binaryFromHex *)

(** The fuel given by [util.binaryFromHex] is enough: more changes nothing. *)
Lemma binaryFromHex_loop_fuel (fuel : nat) (dest : list Z) (hex : string) (pos : nat) :
  (length dest - pos <= fuel)%nat ->
  util.binaryFromHex_loop fuel dest hex pos
  = util.binaryFromHex_loop (length dest - pos) dest hex pos.
Proof.
  revert dest pos. induction fuel as [|fuel IH]; intros dest pos Hfuel.
  - by replace (length dest - pos)%nat with 0%nat by lia.
  - destruct (decide (pos < length dest)%nat) as [Hlt|Hge].
    + replace (length dest - pos)%nat with (S (length dest - S pos)) by lia.
      simpl. destruct (_ && _); [|done].
      destruct (util.string_view_at hex (pos * 2 + 0)) as [chHi| |]; simpl; try done.
      destruct (util.hexDigit chHi); [|done].
      destruct (util.string_view_at hex (pos * 2 + 1)) as [chLo| |]; simpl; try done.
      destruct (util.hexDigit chLo); [|done].
      rewrite IH by (rewrite length_insert; lia).
      by rewrite length_insert.
    + replace (length dest - pos)%nat with 0%nat by lia. simpl.
      destruct (Nat.ltb_spec pos (length dest)); [lia|done].
Qed.

(** When the loop returns, it has stored the bytes of the pairs from where it
    started to where it stopped, and nothing else. *)
Lemma binaryFromHex_loop_returns (fuel : nat) (dest : list Z) (hex : string) (pos : nat)
  (dest' : list Z) (pos' : nat) :
  util.binaryFromHex_loop fuel dest hex pos = Ok (dest', pos') ->
  (pos <= length dest)%nat ->
  (pos <= pos' <= length dest)%nat /\
  length dest' = length dest /\
  (forall i, (i < pos \/ pos' <= i)%nat -> dest' !! i = dest !! i) /\
  (forall i, (pos <= i < pos')%nat -> dest' !! i = hex_pair hex i /\ is_Some (hex_pair hex i)).
Proof.
  revert dest pos. induction fuel as [|fuel IH]; intros dest pos Hrun Hpos; simpl in Hrun.
  - simplify_eq. repeat split; auto; lia.
  - destruct (Nat.ltb_spec pos (length dest)) as [Hlt|Hge]; simpl in Hrun;
      [|simplify_eq; repeat split; auto; lia].
    destruct (_ <? _)%nat; [|simplify_eq; repeat split; auto; lia].
    unfold util.string_view_at in Hrun.
    destruct (String.get (pos * 2 + 0) hex) as [chHi|] eqn:Hhi; simpl in Hrun; [|done].
    destruct (util.hexDigit chHi) as [hiDigit|] eqn:Hhd;
      [|simplify_eq; repeat split; auto; lia].
    destruct (String.get (pos * 2 + 1) hex) as [chLo|] eqn:Hlo; simpl in Hrun; [|done].
    destruct (util.hexDigit chLo) as [loDigit|] eqn:Hld;
      [|simplify_eq; repeat split; auto; lia].
    apply IH in Hrun; [|rewrite length_insert; lia].
    rewrite length_insert in Hrun. destruct Hrun as (Hle & Hlen & Hout & Hin).
    repeat split; try lia.
    + intros i Hi. rewrite Hout by lia. apply list_lookup_insert_ne. lia.
    + destruct (decide (i = pos)) as [->|Hne].
      * rewrite Hout by lia. rewrite list_lookup_insert_eq by lia.
        unfold hex_pair. rewrite Hhi. simpl. rewrite Hhd. simpl. rewrite Hlo. simpl.
        by rewrite Hld.
      * apply Hin. lia.
    + destruct (decide (i = pos)) as [->|Hne].
      * unfold hex_pair. rewrite Hhi. simpl. rewrite Hhd. simpl. rewrite Hlo. simpl.
        rewrite Hld. simpl. eauto.
      * apply Hin. lia.
Qed.

(** What the claim about the decoder says, whenever the decoder returns: the
    bytes of the pairs decoded are at the front, every other byte is zero, and
    the flag tells whether all [N] bytes were decoded. *)
Lemma binaryFromHex_returns (dest : list Z) (hex : option string) (dest' : list Z) (ok : bool) :
  info.binaryFromHex dest hex = Ok (dest', ok) ->
  exists pos,
    (pos <= length dest)%nat /\
    length dest' = length dest /\
    (forall i, (i < pos)%nat ->
       exists h, hex = Some h /\ dest' !! i = hex_pair h i /\ is_Some (hex_pair h i)) /\
    (forall i, (pos <= i < length dest)%nat -> dest' !! i = Some 0) /\
    (ok = true <-> pos = length dest).
Proof.
  unfold info.binaryFromHex. intros Hrun.
  apply bind_Ok in Hrun as ([dest1 pos] & Hloop & Hrun). simplify_eq.
  assert (Hspec : (pos <= length dest)%nat /\ length dest1 = length dest /\
            (forall i, (i < pos)%nat ->
               exists h, hex = Some h /\ dest1 !! i = hex_pair h i /\ is_Some (hex_pair h i))).
  { destruct hex as [h|].
    - apply binaryFromHex_loop_returns in Hloop as (? & ? & ? & Hin); [|lia].
      repeat split; try lia. intros i Hi. exists h. split; [done|]. apply Hin. lia.
    - simplify_eq. repeat split; auto; intros; lia. }
  destruct Hspec as (Hle & Hlen & Hin).
  exists pos. repeat split.
  - done.
  - rewrite length_app, length_take, length_replicate. lia.
  - intros i Hi. destruct (Hin i Hi) as (h & -> & Hd & Hs). exists h.
    rewrite lookup_app_l by (rewrite length_take; lia).
    by rewrite lookup_take_lt.
  - intros i Hi. rewrite lookup_app_r by (rewrite length_take; lia).
    rewrite length_take. apply lookup_replicate_2. lia.
  - intros Hok. apply bool_decide_eq_true in Hok. lia.
  - intros ->. apply bool_decide_eq_true. lia.
Qed.

Lemma get_lookup (s : string) (i : nat) :
  String.get i s = list_ascii_of_string s !! i.
Proof.
  revert i. induction s as [|ch s IH]; intros i; [by destruct i|].
  destruct i; simpl; [done|apply IH].
Qed.

Lemma length_list_ascii_of_string (s : string) :
  length (list_ascii_of_string s) = String.length s.
Proof. induction s; simpl; congruence. Qed.

Lemma string_view_at_inside (hex : string) (i : nat) :
  (i < String.length hex)%nat -> exists ch, String.get i hex = Some ch /\ util.string_view_at hex i = Ok ch.
Proof.
  intros Hi. unfold util.string_view_at. rewrite get_lookup.
  destruct (lookup_lt_is_Some_2 (list_ascii_of_string hex) i) as [ch Hch].
  { by rewrite length_list_ascii_of_string. }
  rewrite Hch. eauto.
Qed.

Lemma string_view_at_outside (hex : string) (i : nat) :
  (String.length hex <= i)%nat ->
  util.string_view_at hex i = Fault (OutOfRange i (String.length hex)).
Proof.
  intros Hi. unfold util.string_view_at. rewrite get_lookup.
  rewrite lookup_ge_None_2; [done|]. by rewrite length_list_ascii_of_string.
Qed.

(** The loop of the decoder, on a text of hexadecimal digits that ends before
    the destination is full, reaches the character after the last one. *)
Lemma binaryFromHex_loop_past_end (fuel : nat) (dest : list Z) (hex : string) (pos : nat) :
  (forall i ch, String.get i hex = Some ch -> is_Some (util.hexDigit ch)) ->
  (0 < String.length hex < 2 * length dest)%nat ->
  (pos * 2 <= String.length hex)%nat ->
  (length dest - pos <= fuel)%nat ->
  util.binaryFromHex_loop fuel dest hex pos
  = Fault (OutOfRange (String.length hex) (String.length hex)).
Proof.
  intros Hdigits Hlen. revert dest pos Hlen.
  induction fuel as [|fuel IH]; intros dest pos Hlen Hpos Hfuel; [lia|].
  simpl.
  destruct (Nat.ltb_spec pos (length dest)); [|lia].
  destruct (Nat.ltb_spec pos (String.length hex * 2)); [|lia]. simpl.
  destruct (decide (pos * 2 + 0 = String.length hex)%nat) as [Heq|Hne].
  { rewrite (string_view_at_outside hex (pos * 2 + 0)) by lia. by rewrite Heq. }
  destruct (string_view_at_inside hex (pos * 2 + 0)) as (chHi & Hget & ->); [lia|]. simpl.
  destruct (Hdigits _ _ Hget) as [hiDigit ->].
  destruct (decide (pos * 2 + 1 = String.length hex)%nat) as [Heq|Hne'].
  { rewrite string_view_at_outside by lia. by rewrite Heq. }
  destruct (string_view_at_inside hex (pos * 2 + 1)) as (chLo & Hget' & ->); [lia|]. simpl.
  destruct (Hdigits _ _ Hget') as [loDigit ->].
  apply IH; rewrite ?length_insert; lia.
Qed.

Lemma binaryFromHex_past_end (dest : list Z) (hex : string) :
  (forall i ch, String.get i hex = Some ch -> is_Some (util.hexDigit ch)) ->
  (0 < String.length hex < 2 * length dest)%nat ->
  util.binaryFromHex dest hex = Fault (OutOfRange (String.length hex) (String.length hex)).
Proof. intros. apply binaryFromHex_loop_past_end; auto; lia. Qed.

(** C9. The code at the input that contradicts the claim: with a destination
    of four bytes and the two-character text "ab", the second iteration
    passes the test [pos < hex.size() * 2] and reads [hex[2]], one past the
    last character. *)
Theorem binaryFromHex_reads_past_the_text :
  util.binaryFromHex [0; 0; 0; 0] "ab" = Fault (OutOfRange 2 2).
Proof. reflexivity. Qed.

(** ** runmachinetask.cpp *)

(** On a session whose inaugural response is [Ok], no path of [process]
    assigns [success]: the event that is posted carries a value never set. *)
Lemma process_ok_never_assigns (number : Z -> string) (s : RunMachineTask.session)
  (event : RunMachineTask.RunMachineCompletedEvent) :
  RunMachineTask.Response.m_type (RunMachineTask.inaugural s) = RunMachineTask.Response.Ok ->
  RunMachineTask.process number s = RunMachineTask.Posted event ->
  RunMachineTask.m_success event = None.
Proof.
  unfold RunMachineTask.process. intros -> Hrun. simpl in Hrun.
  destruct (RunMachineTask.await_termination _) as [[status|]|[]]; [|done|done].
  by simplify_eq.
Qed.

(** C10. The code at the input that contradicts the claim: the inaugural
    response is [Ok] and the queue then delivers the termination of the
    child with status [NONE]; the completion event is built from [success],
    which was declared without a value and assigned on no path taken. *)
Theorem process_ok_session_success_unassigned :
  RunMachineTask.process (fun _ => EmptyString)
    {| RunMachineTask.inaugural :=
         RunMachineTask.Response.Build RunMachineTask.Response.Ok EmptyString;
       RunMachineTask.scraped := EmptyString;
       RunMachineTask.messages :=
         [RunMachineTask.Message.Build RunMachineTask.Message.TERMINATED EmptyString
            RunMachineTask.NONE];
       RunMachineTask.standard_error := EmptyString |}
  = RunMachineTask.Posted (RunMachineTask.Build_event None EmptyString).
Proof. reflexivity. Qed.

(** ** listxmltask.cpp *)

Section ListXmlTask_properties.
Context `{info.Declarations}.
Variable m_outputFilename : string.

Import ListXmlTask.

(** C8, as amended. Whenever [process_xml] returns: if [hasAborted()] holds,
    the result event carries [ABORTED] (whether or not the parse succeeded);
    a parse failure without a pending abort gives [ERROR] with the message built from
    the parser's; a parse failure gives [ERROR] only without a pending
    abort; and [ERROR] is never the result while an abort is pending: it
    comes from a parse failure, with that message, or else from the output
    file that cannot be opened. In none of these cases is a file written. *)
Theorem process_aborted_before_error (env : environment)
  (processed : info.database_builder.processed) :
  info.database_builder.process_xml (listxml_output env) info.database_builder.ctor
    = Ok processed ->
  (hasAborted env = true ->
     process m_outputFilename env
     = Ok (ListXmlResultEvent.Build ListXmlResultEvent.ABORTED EmptyString, None)) /\
  (forall error_message,
     hasAborted env = false ->
     processed = info.database_builder.Failed error_message ->
     process m_outputFilename env
     = Ok (ListXmlResultEvent.Build ListXmlResultEvent.ERROR
             ("Error parsing XML from MAME -listxml: " +:+ error_message), None)) /\
  (forall error_message event file,
     processed = info.database_builder.Failed error_message ->
     process m_outputFilename env = Ok (event, file) ->
     (ListXmlResultEvent.status event = ListXmlResultEvent.ERROR <-> hasAborted env = false)) /\
  (forall event file,
     process m_outputFilename env = Ok (event, file) ->
     ListXmlResultEvent.status event = ListXmlResultEvent.ERROR ->
     hasAborted env = false /\ file = None /\
     ((exists error_message,
         processed = info.database_builder.Failed error_message /\
         ListXmlResultEvent.errorMessage event
         = "Error parsing XML from MAME -listxml: " +:+ error_message) \/
      (exists builder,
         processed = info.database_builder.Built builder /\
         file_opens env = false /\
         ListXmlResultEvent.errorMessage event
         = "Could not open file: " +:+ m_outputFilename))).
Proof.
  intros Hxml. unfold process, internalProcess. rewrite Hxml. simpl.
  split_and!.
  - by intros ->.
  - by intros error_message -> ->.
  - intros error_message event file ->.
    destruct (hasAborted env) eqn:Habort; intros; simplify_eq/=; split; done.
  - intros event file. destruct (hasAborted env) eqn:Habort; simpl.
    { intros; simplify_eq/=. }
    destruct processed as [builder|error_message]; simpl.
    + destruct (file_opens env) eqn:Hopens; intros; simplify_eq/=.
      split_and!; [done..|]. right. by exists builder.
    + intros; simplify_eq/=. split_and!; [done..|]. left. by eexists.
Qed.

End ListXmlTask_properties.

(** ** info_builder.cpp: to_uint32 *)

Lemma to_uint32_Ok (value r : Z) :
  info.to_uint32 value = Ok r <-> r = value /\ 0 <= value < 2 ^ 32.
Proof.
  unfold info.to_uint32. destruct (decide _) as [Hne|Heq]; split.
  - discriminate.
  - intros [-> Hr]. destruct Hne. by apply Z.mod_small.
  - apply dec_stable in Heq. intros. simplify_eq. split; [done|].
    rewrite <- Heq. apply Z.mod_pos_bound. lia.
  - intros [-> ?]. apply dec_stable in Heq. by rewrite Heq.
Qed.

Lemma to_uint32_Throw (value : Z) (what : string) :
  info.to_uint32 value = Throw what ->
  what = "Array size cannot fit in 32 bits"%string /\ ~ (0 <= value < 2 ^ 32).
Proof.
  unfold info.to_uint32. destruct (decide _) as [Hne|Heq]; [|discriminate].
  intros. simplify_eq. split; [done|]. intros Hr. destruct Hne. by apply Z.mod_small.
Qed.

Lemma to_uint32_not_Fault (value : Z) (f : fault) : info.to_uint32 value <> Fault f.
Proof. unfold info.to_uint32. by destruct (decide _). Qed.

(** ** The string table *)

Section string_table_properties.
Context `{info.Declarations}.
Import info.

Lemma c_str_stored (s : string) (after : list ascii) :
  no_NUL s -> c_str (list_ascii_of_string s ++ NUL :: after) = Ok s.
Proof.
  unfold no_NUL. induction s as [|ch s IH]; simpl; intros Hs.
  - done.
  - apply not_elem_of_cons in Hs as [Hch Hs].
    destruct (decide (ch = NUL)); [done|]. by rewrite IH.
Qed.

Lemma c_str_no_NUL (chars : list ascii) (s : string) : c_str chars = Ok s -> no_NUL s.
Proof.
  unfold no_NUL. revert s. induction chars as [|ch chars IH]; intros s; simpl; [done|].
  destruct (decide (ch = NUL)) as [->|Hch].
  - intros. simplify_eq. apply not_elem_of_nil.
  - intros Hs. apply bind_Ok in Hs as (s' & Hs' & Hs). simplify_eq. simpl.
    apply not_elem_of_cons. split; [done|]. by apply IH.
Qed.

Lemma c_str_app (chars more : list ascii) (s : string) :
  c_str chars = Ok s -> c_str (chars ++ more) = Ok s.
Proof.
  revert s. induction chars as [|ch chars IH]; intros s; simpl; [done|].
  destruct (decide (ch = NUL)); [done|].
  intros Hs. apply bind_Ok in Hs as (s' & Hs' & Hs). simplify_eq.
  by rewrite (IH _ Hs').
Qed.

Lemma stored_at_app (data more : list ascii) (off : nat) (s : string) :
  stored_at data off s -> stored_at (data ++ more) off s.
Proof.
  intros (before & after & -> & Hoff). exists before, (after ++ more). split; [|done].
  by rewrite <- !app_assoc.
Qed.

Lemma stored_at_end (data : list ascii) (s : string) :
  stored_at (data ++ list_ascii_of_string s ++ [NUL]) (length data) s.
Proof. by exists data, []. Qed.

Lemma stored_at_inside (data : list ascii) (off : nat) (s : string) :
  stored_at data off s -> (off + String.length s < length data)%nat.
Proof.
  intros (before & after & -> & <-).
  rewrite !length_app, length_list_ascii_of_string. simpl. lia.
Qed.

Lemma extends_refl (table : string_table.t) : extends table table.
Proof. split; [exists []; by rewrite app_nil_r | done]. Qed.

Lemma extends_trans (t1 t2 t3 : string_table.t) :
  extends t1 t2 -> extends t2 t3 -> extends t1 t3.
Proof.
  intros [[m1 H1] Hm1] [[m2 H2] Hm2]. split.
  - exists (m1 ++ m2). by rewrite H2, H1, app_assoc.
  - by transitivity (string_table.m_map t2).
Qed.

Lemma extends_length (t1 t2 : string_table.t) :
  extends t1 t2 -> (length (string_table.m_data t1) <= length (string_table.m_data t2))%nat.
Proof. intros [[more ->] _]. rewrite length_app. lia. Qed.

Lemma consistent_ctor : consistent string_table.ctor.
Proof. split; intros ?; simpl; intros; simplify_map_eq. Qed.

Lemma consistent_embed_value (value : list ascii) (table : string_table.t) :
  consistent table -> consistent (string_table.embed_value value table).
Proof.
  intros [Hstored Hinj]. split; simpl; [|done].
  intros s r Hs. destruct (Hstored s r Hs) as (off & -> & Hoff).
  exists off. split; [done|]. by apply stored_at_app.
Qed.

Lemma extends_embed_value (value : list ascii) (table : string_table.t) :
  extends table (string_table.embed_value value table).
Proof. split; simpl; [by exists value | done]. Qed.

(** A call of [get] that returns keeps the table consistent, only extends it,
    and returns the reference of the string. *)
Lemma get_returns (s : string) (table table' : string_table.t) (r : Z) :
  consistent table ->
  string_table.get s table = Ok (r, table') ->
  consistent table' /\ extends table table' /\ reference_of table' s r.
Proof.
  intros Hc. unfold string_table.get, reference_of.
  destruct (tryEncodeAsSmallString s) as [sso|] eqn:Hsso.
  { intros. simplify_eq. auto using extends_refl. }
  destruct (string_table.m_map table !! s) as [second|] eqn:Hfind.
  { intros. simplify_eq. auto using extends_refl. }
  intros Hget. apply bind_Ok in Hget as (result & Hresult & Hget). simplify_eq/=.
  apply to_uint32_Ok in Hresult as [-> Hrange].
  destruct Hc as [Hstored Hinj]. split; [split|split]; simpl.
  - intros s' r' Hs'. apply lookup_insert_Some in Hs' as [[<- <-]|[Hne Hs']].
    + exists (length (string_table.m_data table)). split; [done|]. apply stored_at_end.
    + destruct (Hstored s' r' Hs') as (off & -> & Hoff).
      exists off. split; [done|]. by apply stored_at_app.
  - intros s1 s2 r' H1 H2.
    apply lookup_insert_Some in H1 as [[<- <-]|[Hne1 H1]];
      apply lookup_insert_Some in H2 as [[<- Heq]|[Hne2 H2]]; try done.
    + destruct (Hstored s2 _ H2) as (off & Hr & Hoff%stored_at_inside). lia.
    + destruct (Hstored s1 _ H1) as (off & Hr & Hoff%stored_at_inside). lia.
    + by apply (Hinj s1 s2 r').
  - split; [by eexists | by apply insert_subseteq].
  - right. split; [done|]. apply lookup_insert_eq.
Qed.

(** A second call of [get] for a string that has its reference returns that
    reference and leaves the table as it is. *)
Lemma get_again (s : string) (table : string_table.t) (r : Z) :
  reference_of table s r -> string_table.get s table = Ok (r, table).
Proof.
  unfold string_table.get. intros [Hsmall|[Hsmall Hfind]]; rewrite Hsmall; [done|].
  by rewrite Hfind.
Qed.

Lemma reference_of_extends (t1 t2 : string_table.t) (s : string) (r : Z) :
  extends t1 t2 -> reference_of t1 s r -> reference_of t2 s r.
Proof.
  intros [_ Hmap] [Hsmall|[Hsmall Hfind]]; [by left|right].
  split; [done|]. by eapply lookup_weaken.
Qed.

Lemma reference_of_unique (table : string_table.t) (s : string) (r1 r2 : Z) :
  reference_of table s r1 -> reference_of table s r2 -> r1 = r2.
Proof. intros [?|[? ?]] [?|[? ?]]; congruence. Qed.

(** The reference of a string in the map is an offset inside the data. *)
Lemma reference_of_offset (table : string_table.t) (s : string) (r : Z) :
  consistent table ->
  tryEncodeAsSmallString s = None ->
  reference_of table s r ->
  exists off, r = Z.of_nat off /\ stored_at (string_table.m_data table) off s /\
              (off < length (string_table.m_data table))%nat.
Proof.
  intros [Hstored _] Hsmall [?|[_ Hfind]]; [congruence|].
  destruct (Hstored s r Hfind) as (off & -> & Hoff).
  exists off. repeat split; [done|]. apply stored_at_inside in Hoff. lia.
Qed.

(** [lookup] of the reference of a string without NUL is the string. *)
Lemma lookup_reference (table : string_table.t) (s : string) (r : Z) :
  SmallStrings ->
  consistent table ->
  offsets_below (length (string_table.m_data table)) ->
  no_NUL s ->
  reference_of table s r ->
  string_table.lookup r table = Ok s.
Proof.
  intros Hcodec Hc Hbelow Hs Hr. unfold string_table.lookup.
  destruct (tryEncodeAsSmallString s) as [sso|] eqn:Hsmall.
  - destruct Hr as [Hr|[? _]]; [|congruence].
    destruct (small_string_decodes s r Hr) as (buf & -> & Hbuf). done.
  - destruct (reference_of_offset _ _ _ Hc Hsmall Hr) as (off & -> & Hoff & Hlt).
    rewrite (Hbelow off Hlt). rewrite decide_True by lia.
    rewrite Nat2Z.id. destruct Hoff as (before & after & -> & <-).
    rewrite drop_app_length. by apply c_str_stored.
Qed.

(** Two strings with the same reference are the same string. *)
Lemma reference_of_injective (table : string_table.t) (s1 s2 : string) (r : Z) :
  SmallStrings ->
  consistent table ->
  offsets_below (length (string_table.m_data table)) ->
  reference_of table s1 r -> reference_of table s2 r -> s1 = s2.
Proof.
  intros Hcodec Hc Hbelow H1 H2.
  destruct (tryEncodeAsSmallString s1) as [r1|] eqn:Hs1;
    destruct (tryEncodeAsSmallString s2) as [r2|] eqn:Hs2.
  - destruct H1 as [H1|[? _]], H2 as [H2|[? _]]; try congruence.
    destruct (small_string_decodes _ _ H1) as (b1 & Hd1 & Hb1).
    destruct (small_string_decodes _ _ H2) as (b2 & Hd2 & Hb2). congruence.
  - destruct H1 as [H1|[? _]]; [|congruence].
    destruct (reference_of_offset _ _ _ Hc Hs2 H2) as (off & -> & _ & Hlt).
    destruct (small_string_decodes _ _ H1) as (b1 & Hd1 & _).
    rewrite (Hbelow off Hlt) in Hd1. done.
  - destruct H2 as [H2|[? _]]; [|congruence].
    destruct (reference_of_offset _ _ _ Hc Hs1 H1) as (off & -> & _ & Hlt).
    destruct (small_string_decodes _ _ H2) as (b2 & Hd2 & _).
    rewrite (Hbelow off Hlt) in Hd2. done.
  - destruct H1 as [?|[_ H1]], H2 as [?|[_ H2]]; try congruence.
    destruct Hc as [_ Hinj]. by apply (Hinj s1 s2 r).
Qed.

(** What [lookup] returns does not change when the table is extended. *)
Lemma lookup_extends (t1 t2 : string_table.t) (r : Z) (s : string) :
  extends t1 t2 -> string_table.lookup r t1 = Ok s -> string_table.lookup r t2 = Ok s.
Proof.
  intros Hext. pose proof (extends_length _ _ Hext) as Hlen.
  destruct Hext as [[more Hdata] _]. unfold string_table.lookup.
  destruct (tryDecodeAsSmallString r); [done|].
  destruct (decide (r < _)) as [Hlt|]; [|done].
  rewrite decide_True by lia. rewrite Hdata.
  destruct (decide (0 <= r)) as [Hr|Hr].
  - rewrite drop_app_le by lia. apply c_str_app.
  - replace (Z.to_nat r) with 0%nat by lia. rewrite !drop_0. apply c_str_app.
Qed.

(** [lookup] never returns a string with a NUL character in it. *)
Lemma lookup_no_NUL (table : string_table.t) (r : Z) (s : string) :
  string_table.lookup r table = Ok s -> no_NUL s.
Proof.
  unfold string_table.lookup. destruct (tryDecodeAsSmallString r).
  - apply c_str_no_NUL.
  - destruct (decide _); [apply c_str_no_NUL | done].
Qed.

(** The reference that [get] returns is the reference of the string in the
    table it leaves, whatever the table was. *)
Lemma get_reference (s : string) (table table' : string_table.t) (r : Z) :
  string_table.get s table = Ok (r, table') -> reference_of table' s r.
Proof.
  unfold string_table.get, reference_of.
  destruct (tryEncodeAsSmallString s) as [sso|] eqn:Hsso.
  { intros. simplify_eq. by left. }
  destruct (string_table.m_map table !! s) as [second|] eqn:Hfind.
  { intros. simplify_eq. by right. }
  intros Hget. apply bind_Ok in Hget as (result & Hresult & Hget). simplify_eq/=.
  right. split; [done|]. apply lookup_insert_eq.
Qed.

(** C5, as amended. For every string [s], when [get(s)] returns a reference,
    a second [get(s)] returns the same reference and leaves the table
    unchanged; and if [s] holds no NUL character, [lookup] of the reference
    is [s]: here the table is one the builder can hold (consistent), the
    small strings decode to what they encode, and no offset into the table
    is the encoding of a small string. *)
Theorem get_twice_and_lookup (s : string) (table table' : string_table.t) (r : Z) :
  string_table.get s table = Ok (r, table') ->
  string_table.get s table' = Ok (r, table') /\
  (SmallStrings ->
   consistent table ->
   offsets_below (length (string_table.m_data table')) ->
   no_NUL s ->
   string_table.lookup r table' = Ok s).
Proof.
  intros Hget. split; [by apply get_again, (get_reference _ table)|].
  intros Hcodec Hc Hbelow Hs.
  destruct (get_returns _ _ _ _ Hc Hget) as (Hc' & _ & Hr).
  by apply lookup_reference.
Qed.

End string_table_properties.

(** ** The callbacks of process_xml *)

Section callbacks_properties.
Context `{info.Declarations}.
Import info info.binaries info.database_builder.

Lemma M_bind_Ok {A B} (m : M A) (f : A -> M B) (st st' : captures) (b : B) :
  (m ≫= f) st = Ok (b, st') <-> exists a st1, m st = Ok (a, st1) /\ f a st1 = Ok (b, st').
Proof.
  unfold mbind, M_bind. split.
  - destruct (m st) as [[a st1]| |]; try discriminate. eauto.
  - intros (a & st1 & -> & Hf). done.
Qed.

Lemma M_ret_Ok {A} (a b : A) (st st' : captures) :
  (mret a : M A) st = Ok (b, st') <-> b = a /\ st' = st.
Proof. unfold mret, M_ret. split; [by intros; simplify_eq | by intros [-> ->]]. Qed.

Lemma lift_Ok {A} (o : outcome A) (st st' : captures) (a : A) :
  lift o st = Ok (a, st') <-> o = Ok a /\ st' = st.
Proof.
  unfold lift. destruct o; simpl; split; try (intros [? ?]); try discriminate.
  - by intros; simplify_eq.
  - by simplify_eq.
Qed.

Lemma read_Ok {A} (f : t -> A) (st st' : captures) (a : A) :
  read f st = Ok (a, st') <-> a = f (this st) /\ st' = st.
Proof. unfold read. split; [by intros; simplify_eq | by intros [-> ->]]. Qed.

Lemma update_Ok (f : t -> t) (st st' : captures) (u : unit) :
  update f st = Ok (u, st') <-> st' = st <| this ::= f |>.
Proof. unfold update. destruct u. split; [by intros; simplify_eq | by intros ->]. Qed.

Lemma update_header_Ok (f : header.t -> header.t) (st st' : captures) (u : unit) :
  update_header f st = Ok (u, st') <-> st' = st <| header ::= f |>.
Proof. unfold update_header. destruct u. split; [by intros; simplify_eq | by intros ->]. Qed.

Lemma update_extensions_Ok (f : string -> string) (st st' : captures) (u : unit) :
  update_extensions f st = Ok (u, st') <-> st' = st <| current_device_extensions ::= f |>.
Proof. unfold update_extensions. destruct u. split; [by intros; simplify_eq | by intros ->]. Qed.

Lemma read_extensions_Ok (st st' : captures) (s : string) :
  read_extensions st = Ok (s, st') <-> s = current_device_extensions st /\ st' = st.
Proof. unfold read_extensions. split; [by intros; simplify_eq | by intros [-> ->]]. Qed.

Lemma size_uint32_Ok {A} (table : t -> list A) (st st' : captures) (n : Z) :
  size_uint32 table st = Ok (n, st') <->
  n = size (table (this st)) /\ size (table (this st)) < 2 ^ 32 /\ st' = st.
Proof.
  unfold size_uint32. rewrite M_bind_Ok. split.
  - intros (v & st1 & [-> ->]%read_Ok & [Hn ->]%lift_Ok).
    apply to_uint32_Ok in Hn as [-> Hn]. repeat split; lia.
  - intros (-> & Hn & ->). eexists _, _. split; [by apply read_Ok|].
    apply lift_Ok. split; [|done]. apply to_uint32_Ok. unfold size in *. lia.
Qed.

Lemma update_last_Ok {A} (f : A -> A) (v v' : list A) :
  update_last f v = Ok v' <-> v <> [] /\ v' = alter f (Nat.pred (length v)) v.
Proof.
  unfold update_last, util.last. destruct (list.last v) eqn:Hlast; simpl.
  - split; [|by intros [_ ->]]. intros. simplify_eq. split; [|done]. by intros ->.
  - apply last_None in Hlast as ->. split; [done|]. by intros [? _].
Qed.

Lemma update_last_in_Ok {A} (table : t -> list A) (store : list A -> t -> t) (f : A -> A)
  (st st' : captures) (u : unit) :
  update_last_in table store f st = Ok (u, st') <->
  table (this st) <> [] /\
  st' = st <| this ::= store (alter f (Nat.pred (length (table (this st)))) (table (this st))) |>.
Proof.
  unfold update_last_in. destruct u. rewrite bind_Ok. split.
  - intros (v & [Hne ->]%update_last_Ok & ?). by simplify_eq.
  - intros [Hne ->]. eexists. split; [by apply update_last_Ok|done].
Qed.

Lemma strings_get_Ok (s : string) (st st' : captures) (r : Z) :
  strings_get s st = Ok (r, st') <->
  exists strings, string_table.get s (m_strings (this st)) = Ok (r, strings) /\
                  st' = st <| this ::= (fun b => b <| m_strings := strings |>) |>.
Proof.
  unfold strings_get. rewrite bind_Ok. split.
  - intros ([r' strings] & Hget & ?). simplify_eq. eauto.
  - intros (strings & Hget & ->). by exists (r, strings).
Qed.

Lemma strings_get_attribute_Ok (attributes : Attributes) (name : string)
  (st st' : captures) (r : Z) :
  strings_get_attribute attributes name st = Ok (r, st') <->
  exists strings,
    string_table.get (attribute_text attributes name) (m_strings (this st)) = Ok (r, strings) /\
    st' = st <| this ::= (fun b => b <| m_strings := strings |>) |>.
Proof.
  unfold strings_get_attribute, string_table.get_attribute. rewrite bind_Ok. split.
  - intros ([r' strings] & Hget & ?). simplify_eq. eauto.
  - intros (strings & Hget & ->). by exists (r, strings).
Qed.

End callbacks_properties.

(** The fields of a state written as updates of another state. *)
Ltac simpl_state H :=
  cbn [
    set info.database_builder.this info.database_builder.header
    info.database_builder.current_device_extensions info.database_builder.set_this
    info.database_builder.set_header
    info.database_builder.set_current_device_extensions
    info.database_builder.m_salted_header info.database_builder.set_m_salted_header
    info.database_builder.m_machines info.database_builder.set_m_machines
    info.database_builder.m_biossets info.database_builder.set_m_biossets
    info.database_builder.m_roms info.database_builder.set_m_roms
    info.database_builder.m_disks info.database_builder.set_m_disks
    info.database_builder.m_devices info.database_builder.set_m_devices
    info.database_builder.m_slots info.database_builder.set_m_slots
    info.database_builder.m_slot_options info.database_builder.set_m_slot_options
    info.database_builder.m_features info.database_builder.set_m_features
    info.database_builder.m_chips info.database_builder.set_m_chips
    info.database_builder.m_displays info.database_builder.set_m_displays
    info.database_builder.m_samples info.database_builder.set_m_samples
    info.database_builder.m_configurations info.database_builder.set_m_configurations
    info.database_builder.m_configuration_settings
    info.database_builder.set_m_configuration_settings
    info.database_builder.m_configuration_conditions
    info.database_builder.set_m_configuration_conditions
    info.database_builder.m_software_lists info.database_builder.set_m_software_lists
    info.database_builder.m_ram_options info.database_builder.set_m_ram_options
    info.database_builder.m_strings info.database_builder.set_m_strings
  ] in H.

(** Symbolic execution of a callback that returned. *)
Ltac run_callback H :=
  repeat
    (match type of H with
     | (_ ≫= _) _ = Ok _ =>
         let Hm := fresh "Hstep" in
         apply M_bind_Ok in H as (? & ? & Hm & H);
         run_callback Hm
     | (let '(_, _) := ?x in _) _ = Ok _ => destruct x
     | info.database_builder.strings_get_attribute _ _ _ = Ok _ =>
         apply strings_get_attribute_Ok in H as (? & H & ->)
     | info.database_builder.strings_get _ _ = Ok _ =>
         apply strings_get_Ok in H as (? & H & ->)
     | info.database_builder.size_uint32 _ _ = Ok _ =>
         apply size_uint32_Ok in H as (-> & H & ->)
     | info.database_builder.update _ _ = Ok _ =>
         apply update_Ok in H as ->
     | info.database_builder.update_header _ _ = Ok _ =>
         apply update_header_Ok in H as ->
     | info.database_builder.update_extensions _ _ = Ok _ =>
         apply update_extensions_Ok in H as ->
     | info.database_builder.read_extensions _ = Ok _ =>
         apply read_extensions_Ok in H as (-> & ->)
     | info.database_builder.update_last_machine _ _ = Ok _ =>
         apply update_last_in_Ok in H as (H & ->)
     | info.database_builder.update_last_in _ _ _ _ = Ok _ =>
         apply update_last_in_Ok in H as (H & ->)
     | info.database_builder.lift _ _ = Ok _ =>
         apply lift_Ok in H as (H & ->)
     | info.database_builder.read _ _ = Ok _ =>
         apply read_Ok in H as (-> & ->)
     | mret _ _ = Ok _ =>
         apply M_ret_Ok in H as (-> & ->)
     end;
     try simpl_state H).

(** The facts on the string table that a run of [get]s gives. *)
Ltac strings_facts :=
  repeat
    match goal with
    | Hc : consistent ?table, Hg : info.string_table.get _ ?table = Ok (_, _) |- _ =>
        let Hc' := fresh "Hc" in
        let He := fresh "He" in
        let Hr := fresh "Hr" in
        destruct (get_returns _ _ _ _ Hc Hg) as (Hc' & He & Hr); clear Hg
    end.

Section effects_properties.
Context `{info.Declarations}.
Import info info.binaries info.database_builder.

(** A change of the last machine that keeps the links and the indexes. *)
Lemma alter_last_updates (appended : option child) (g : machine.t -> machine.t)
  (machines : list machine.t) (j : nat) (m : machine.t) :
  (forall m, links (g m) = links m /\
     forall k, child_index k (g m) = child_index k m /\
               child_count k (g m) =
                 if decide (appended = Some k) then incr (child_count k m)
                 else child_count k m) ->
  machines !! j = Some m ->
  exists m', alter g (Nat.pred (length machines)) machines !! j = Some m' /\
    links m' = links m /\
    forall k, child_index k m' = child_index k m /\
              child_count k m' =
                if decide (appended = Some k /\ S j = length machines)
                then incr (child_count k m) else child_count k m.
Proof.
  intros Hg Hj. pose proof (lookup_lt_Some _ _ _ Hj) as Hlt.
  destruct (decide (S j = length machines)) as [Hlast|Hlast].
  - exists (g m). replace (Nat.pred (length machines)) with j by lia.
    rewrite list_lookup_alter_eq, Hj. split; [done|].
    destruct (Hg m) as [Hl Hk]. split; [done|]. intros k.
    destruct (Hk k) as [Hi Hc]. split; [done|]. rewrite Hc.
    destruct (decide (appended = Some k)).
    + by rewrite decide_True.
    + rewrite decide_False; [done|]. by intros [? _].
  - exists m. rewrite list_lookup_alter_ne by lia. split; [done|]. split; [done|].
    intros k. split; [done|]. rewrite decide_False; [done|]. by intros [_ ?].
Qed.

Lemma same_machines_updates (machines : list machine.t) (j : nat) (m : machine.t) :
  machines !! j = Some m ->
  exists m', machines !! j = Some m' /\
    links m' = links m /\
    forall k, child_index k m' = child_index k m /\
              child_count k m' =
                if decide (None = Some k /\ S j = length machines)
                then incr (child_count k m) else child_count k m.
Proof.
  intros Hj. exists m. repeat split; try done.
  all: rewrite decide_False; [done|]; by intros [? _].
Qed.

End effects_properties.

(** The effect of a callback whose run [H] was executed symbolically. *)
Ltac solve_strings_grow :=
  unfold strings_grow; intros ?; cbn in *; strings_facts; split; [done | eauto 10 using extends_refl, extends_trans].

Ltac solve_updates :=
  unfold updates; cbn in *;
  split; [|split; [|split]];
  [ first [ by intros ? | intros _; assumption ]
  | intros k; destruct k; cbn; rewrite ?length_app, ?length_alter; cbn;
    case_decide; simplify_eq; lia
  | rewrite ?length_alter; done
  | intros j m Hj;
    first
      [ by apply same_machines_updates
      | apply alter_last_updates; [|done];
        clear; intros m; split; [done|]; intros k; destruct k; cbn;
        case_decide; simplify_eq; done ] ].

Section callbacks_effects.
Context `{info.Declarations}.
Import info info.binaries info.database_builder.

Lemma on_biosset_effect (attributes : Attributes) (st st' : captures) (u : unit) :
  on_biosset attributes st = Ok (u, st') -> strings_grow st st' /\ updates (Some Biosset) st st'.
Proof.
  intros Hrun. unfold on_biosset in Hrun. run_callback Hrun.
  split; [solve_strings_grow | solve_updates].
Qed.

Lemma on_rom_effect (attributes : Attributes) (st st' : captures) (u : unit) :
  on_rom attributes st = Ok (u, st') -> strings_grow st st' /\ updates (Some Rom) st st'.
Proof.
  intros Hrun. unfold on_rom in Hrun. run_callback Hrun.
  split; [solve_strings_grow | solve_updates].
Qed.

Lemma on_disk_effect (attributes : Attributes) (st st' : captures) (u : unit) :
  on_disk attributes st = Ok (u, st') -> strings_grow st st' /\ updates (Some Disk) st st'.
Proof.
  intros Hrun. unfold on_disk in Hrun. run_callback Hrun.
  split; [solve_strings_grow | solve_updates].
Qed.

Lemma on_feature_effect (attributes : Attributes) (st st' : captures) (u : unit) :
  on_feature attributes st = Ok (u, st') -> strings_grow st st' /\ updates (Some Feature) st st'.
Proof.
  intros Hrun. unfold on_feature in Hrun. run_callback Hrun.
  split; [solve_strings_grow | solve_updates].
Qed.

Lemma on_chip_effect (attributes : Attributes) (st st' : captures) (u : unit) :
  on_chip attributes st = Ok (u, st') -> strings_grow st st' /\ updates (Some Chip) st st'.
Proof.
  intros Hrun. unfold on_chip in Hrun. run_callback Hrun.
  split; [solve_strings_grow | solve_updates].
Qed.

Lemma on_display_effect (attributes : Attributes) (st st' : captures) (u : unit) :
  on_display attributes st = Ok (u, st') -> strings_grow st st' /\ updates (Some Display) st st'.
Proof.
  intros Hrun. unfold on_display in Hrun. run_callback Hrun.
  split; [solve_strings_grow | solve_updates].
Qed.

Lemma on_sample_effect (attributes : Attributes) (st st' : captures) (u : unit) :
  on_sample attributes st = Ok (u, st') -> strings_grow st st' /\ updates (Some Sample) st st'.
Proof.
  intros Hrun. unfold on_sample in Hrun. run_callback Hrun.
  split; [solve_strings_grow | solve_updates].
Qed.

Lemma on_configuration_effect (attributes : Attributes) (st st' : captures) (u : unit) :
  on_configuration attributes st = Ok (u, st') -> strings_grow st st' /\ updates (Some Configuration) st st'.
Proof.
  intros Hrun. unfold on_configuration in Hrun. run_callback Hrun.
  split; [solve_strings_grow | solve_updates].
Qed.

Lemma on_device_effect (attributes : Attributes) (st st' : captures) (u : unit) :
  on_device attributes st = Ok (u, st') -> strings_grow st st' /\ updates (Some Device) st st'.
Proof.
  intros Hrun. unfold on_device in Hrun. run_callback Hrun.
  split; [solve_strings_grow | solve_updates].
Qed.

Lemma on_slot_effect (attributes : Attributes) (st st' : captures) (u : unit) :
  on_slot attributes st = Ok (u, st') -> strings_grow st st' /\ updates (Some Slot) st st'.
Proof.
  intros Hrun. unfold on_slot in Hrun. run_callback Hrun.
  split; [solve_strings_grow | solve_updates].
Qed.

Lemma on_software_list_effect (attributes : Attributes) (st st' : captures) (u : unit) :
  on_software_list attributes st = Ok (u, st') -> strings_grow st st' /\ updates (Some SoftwareList) st st'.
Proof.
  intros Hrun. unfold on_software_list in Hrun. run_callback Hrun.
  split; [solve_strings_grow | solve_updates].
Qed.

Lemma on_ram_option_effect (attributes : Attributes) (st st' : captures) (u : unit) :
  on_ram_option attributes st = Ok (u, st') -> strings_grow st st' /\ updates (Some RamOption) st st'.
Proof.
  intros Hrun. unfold on_ram_option in Hrun. run_callback Hrun.
  split; [solve_strings_grow | solve_updates].
Qed.

Lemma on_mame_effect (attributes : Attributes) (st st' : captures) (u : unit) :
  on_mame attributes st = Ok (u, st') -> strings_grow st st' /\ updates None st st'.
Proof.
  intros Hrun. unfold on_mame in Hrun. run_callback Hrun.
  split; [solve_strings_grow | solve_updates].
Qed.

Lemma on_configuration_setting_effect (attributes : Attributes) (st st' : captures) (u : unit) :
  on_configuration_setting attributes st = Ok (u, st') -> strings_grow st st' /\ updates None st st'.
Proof.
  intros Hrun. unfold on_configuration_setting in Hrun. run_callback Hrun.
  split; [solve_strings_grow | solve_updates].
Qed.

Lemma on_configuration_condition_effect (attributes : Attributes) (st st' : captures) (u : unit) :
  on_configuration_condition attributes st = Ok (u, st') -> strings_grow st st' /\ updates None st st'.
Proof.
  intros Hrun. unfold on_configuration_condition in Hrun. run_callback Hrun.
  split; [solve_strings_grow | solve_updates].
Qed.

Lemma on_device_instance_effect (attributes : Attributes) (st st' : captures) (u : unit) :
  on_device_instance attributes st = Ok (u, st') -> strings_grow st st' /\ updates None st st'.
Proof.
  intros Hrun. unfold on_device_instance in Hrun. run_callback Hrun.
  split; [solve_strings_grow | solve_updates].
Qed.

Lemma on_driver_effect (attributes : Attributes) (st st' : captures) (u : unit) :
  on_driver attributes st = Ok (u, st') -> strings_grow st st' /\ updates None st st'.
Proof.
  intros Hrun. unfold on_driver in Hrun. run_callback Hrun.
  split; [solve_strings_grow | solve_updates].
Qed.

Lemma on_slot_option_effect (attributes : Attributes) (st st' : captures) (u : unit) :
  on_slot_option attributes st = Ok (u, st') -> strings_grow st st' /\ updates None st st'.
Proof.
  intros Hrun. unfold on_slot_option in Hrun. run_callback Hrun.
  split; [solve_strings_grow | solve_updates].
Qed.

Lemma on_sound_effect (attributes : Attributes) (st st' : captures) (u : unit) :
  on_sound attributes st = Ok (u, st') -> strings_grow st st' /\ updates None st st'.
Proof.
  intros Hrun. unfold on_sound in Hrun. run_callback Hrun.
  split; [solve_strings_grow | solve_updates].
Qed.

Lemma on_device_extension_effect (attributes : Attributes) (st st' : captures) (u : unit) :
  on_device_extension attributes st = Ok (u, st') -> strings_grow st st' /\ updates None st st'.
Proof.
  intros Hrun. unfold on_device_extension in Hrun.
  destruct (get_string attributes "name"); run_callback Hrun;
    (split; [solve_strings_grow | solve_updates]).
Qed.

Lemma on_description_end_effect (content : string) (st st' : captures) (u : unit) :
  on_description_end content st = Ok (u, st') -> strings_grow st st' /\ updates None st st'.
Proof.
  intros Hrun. unfold on_description_end in Hrun. run_callback Hrun.
  split; [solve_strings_grow | solve_updates].
Qed.

Lemma on_year_end_effect (content : string) (st st' : captures) (u : unit) :
  on_year_end content st = Ok (u, st') -> strings_grow st st' /\ updates None st st'.
Proof.
  intros Hrun. unfold on_year_end in Hrun. run_callback Hrun.
  split; [solve_strings_grow | solve_updates].
Qed.

Lemma on_manufacturer_end_effect (content : string) (st st' : captures) (u : unit) :
  on_manufacturer_end content st = Ok (u, st') -> strings_grow st st' /\ updates None st st'.
Proof.
  intros Hrun. unfold on_manufacturer_end in Hrun. run_callback Hrun.
  split; [solve_strings_grow | solve_updates].
Qed.

Lemma on_ram_option_end_effect (content : string) (st st' : captures) (u : unit) :
  on_ram_option_end content st = Ok (u, st') -> strings_grow st st' /\ updates None st st'.
Proof.
  intros Hrun. unfold on_ram_option_end in Hrun. run_callback Hrun.
  split; [solve_strings_grow | solve_updates].
Qed.

Lemma on_device_end_effect (content : string) (st st' : captures) (u : unit) :
  on_device_end content st = Ok (u, st') -> strings_grow st st' /\ updates None st st'.
Proof.
  intros Hrun. unfold on_device_end in Hrun. run_callback Hrun.
  destruct (decide _); run_callback Hrun;
    (split; [solve_strings_grow | solve_updates]).
Qed.

Lemma on_machine_effect (attributes : Attributes) (st st' : captures) (u : unit) :
  consistent (m_strings (this st)) ->
  on_machine attributes st = Ok (u, st') -> strings_grow st st' /\ begins attributes st st'.
Proof.
  intros Hc Hrun. unfold on_machine in Hrun. run_callback Hrun. split.
  - solve_strings_grow.
  - unfold begins. cbn in *. strings_facts. split.
    + intros k. destruct k; cbn; unfold size in *; split; try done; lia.
    + eexists. split; [done|]. split.
      * intros k. destruct k; done.
      * cbn. eauto 10 using reference_of_extends.
Qed.

End callbacks_effects.

Section dispatch_properties.
Context `{info.Declarations}.
Import info info.binaries info.database_builder.

Lemma updates_refl (st : captures) : updates None st st.
Proof.
  unfold updates. split; [done|]. split; [|split; [done|]].
  - intros k. by rewrite decide_False.
  - intros j m Hj. by apply same_machines_updates.
Qed.

Lemma strings_grow_refl (st : captures) : strings_grow st st.
Proof. intros Hc. split; [done | apply extends_refl]. Qed.

End dispatch_properties.

(** [path] is one of a list of given paths: the cases. *)
Ltac path_cases H :=
  repeat (apply elem_of_cons in H as [H|H]); [..|by apply elem_of_nil in H].

Ltac solve_path_elem :=
  cbn; solve [eauto 4 using list_elem_of_here, list_elem_of_further].

Ltac solve_begin_effect Heffect :=
  destruct Heffect as [Hgrow Heffect];
  split; [exact Hgrow|];
  split; [|split];
  [ first [ intros _; exact Heffect | intros Heq; discriminate Heq ]
  | intros k Hk; destruct k; cbn in Hk; path_cases Hk;
    first [ exact Heffect | discriminate Hk ]
  | first
      [ intros _ _; exact Heffect
      | intros Hm _; by destruct Hm
      | intros _ Hk; exfalso;
        first
          [ apply (Hk Biosset); solve_path_elem | apply (Hk Rom); solve_path_elem
          | apply (Hk Disk); solve_path_elem | apply (Hk Feature); solve_path_elem
          | apply (Hk Chip); solve_path_elem | apply (Hk Display); solve_path_elem
          | apply (Hk Sample); solve_path_elem | apply (Hk Configuration); solve_path_elem
          | apply (Hk Device); solve_path_elem | apply (Hk Slot); solve_path_elem
          | apply (Hk SoftwareList); solve_path_elem | apply (Hk RamOption); solve_path_elem ] ] ].

(** A path that is in none of the registered lists is not one of them. *)
Ltac absurd_path :=
  exfalso;
  repeat
    match goal with
    | Hn : ?path ∉ _ |- _ => first [ by destruct Hn; solve_path_elem | clear Hn ]
    end.

Section dispatch_effects.
Context `{info.Declarations}.
Import info info.binaries info.database_builder.

Lemma dispatch_begin_effect (path : list string) (attributes : Attributes)
  (st st' : captures) (u : unit) :
  consistent (m_strings (this st)) ->
  dispatch (ElementBegin path attributes) st = Ok (u, st') ->
  strings_grow st st' /\ event_effect (ElementBegin path attributes) st st'.
Proof.
  intros Hc Hrun. unfold dispatch, begin_callbacks in Hrun. cbn [find_callback] in Hrun.
  unfold event_effect.
  repeat
    match type of Hrun with
    | context [decide (path ∈ ?paths)] =>
        destruct (decide (path ∈ paths)) as [Hin|?];
        [ path_cases Hin; subst path;
          lazymatch type of Hrun with
          | on_machine _ _ = _ => apply (on_machine_effect _ _ _ _ Hc) in Hrun
          | on_mame _ _ = _ => apply on_mame_effect in Hrun
          | on_biosset _ _ = _ => apply on_biosset_effect in Hrun
          | on_rom _ _ = _ => apply on_rom_effect in Hrun
          | on_disk _ _ = _ => apply on_disk_effect in Hrun
          | on_feature _ _ = _ => apply on_feature_effect in Hrun
          | on_chip _ _ = _ => apply on_chip_effect in Hrun
          | on_display _ _ = _ => apply on_display_effect in Hrun
          | on_sample _ _ = _ => apply on_sample_effect in Hrun
          | on_configuration _ _ = _ => apply on_configuration_effect in Hrun
          | on_configuration_setting _ _ = _ => apply on_configuration_setting_effect in Hrun
          | on_configuration_condition _ _ = _ => apply on_configuration_condition_effect in Hrun
          | on_device _ _ = _ => apply on_device_effect in Hrun
          | on_device_instance _ _ = _ => apply on_device_instance_effect in Hrun
          | on_device_extension _ _ = _ => apply on_device_extension_effect in Hrun
          | on_driver _ _ = _ => apply on_driver_effect in Hrun
          | on_slot _ _ = _ => apply on_slot_effect in Hrun
          | on_slot_option _ _ = _ => apply on_slot_option_effect in Hrun
          | on_software_list _ _ = _ => apply on_software_list_effect in Hrun
          | on_ram_option _ _ = _ => apply on_ram_option_effect in Hrun
          | on_sound _ _ = _ => apply on_sound_effect in Hrun
          end;
          solve_begin_effect Hrun
        | ]
    end.
  apply M_ret_Ok in Hrun as [_ ->].
  split; [apply strings_grow_refl|]. split; [|split].
  - intros ->. unfold machine_path in *. absurd_path.
  - intros k Hk. destruct k; cbn in Hk; path_cases Hk; subst path; absurd_path.
  - intros _ _. apply updates_refl.
Qed.

Lemma dispatch_end_effect (path : list string) (content : string)
  (st st' : captures) (u : unit) :
  dispatch (ElementEnd path content) st = Ok (u, st') ->
  strings_grow st st' /\ event_effect (ElementEnd path content) st st'.
Proof.
  intros Hrun. unfold dispatch, end_callbacks in Hrun. cbn [find_callback] in Hrun.
  unfold event_effect.
  repeat
    match type of Hrun with
    | context [decide (path ∈ ?paths)] =>
        destruct (decide (path ∈ paths)) as [Hin|?];
        [ lazymatch type of Hrun with
          | on_description_end _ _ = _ => by apply on_description_end_effect in Hrun
          | on_year_end _ _ = _ => by apply on_year_end_effect in Hrun
          | on_manufacturer_end _ _ = _ => by apply on_manufacturer_end_effect in Hrun
          | on_device_end _ _ = _ => by apply on_device_end_effect in Hrun
          | on_ram_option_end _ _ = _ => by apply on_ram_option_end_effect in Hrun
          end
        | ]
    end.
  apply M_ret_Ok in Hrun as [_ ->].
  split; [apply strings_grow_refl | apply updates_refl].
Qed.

Lemma dispatch_effect (event : xml_event) (st st' : captures) (u : unit) :
  consistent (m_strings (this st)) ->
  dispatch event st = Ok (u, st') ->
  strings_grow st st' /\ event_effect event st st'.
Proof.
  destruct event; [apply dispatch_begin_effect | intros _; apply dispatch_end_effect].
Qed.

End dispatch_effects.

(** ** The builder after a run of events *)

Section parsed_properties.
Context `{info.Declarations}.
Import info info.binaries info.database_builder.

Lemma links_of_extends (t1 t2 : string_table.t) (attributes : Attributes) (m : machine.t) :
  extends t1 t2 -> links_of t1 attributes m -> links_of t2 attributes m.
Proof. intros He (? & ? & ?). repeat split; by eapply reference_of_extends. Qed.

Lemma parsed_ext (elements : list Attributes) (owned owned' : child -> list nat)
  (b : database_builder.t) :
  (forall k, owned' k = owned k) -> parsed elements owned b -> parsed elements owned' b.
Proof.
  intros Heq [Hc Hl Ho Hb Hr]. split; try done.
  - intros k. by rewrite Heq.
  - intros k p j. rewrite Heq. apply Hb.
  - intros k. rewrite Heq. apply Hr.
Qed.

(** A machine element begins. *)
Lemma parsed_begins (elements : list Attributes) (owned : child -> list nat)
  (attributes : Attributes) (st st' : captures) :
  parsed elements owned (this st) ->
  strings_grow st st' ->
  begins attributes st st' ->
  parsed (elements ++ [attributes]) owned (this st').
Proof.
  intros [Hc Hl Ho Hb Hr] Hgrow [Hsizes (m & Hm & Hnew & Hlinks)].
  destruct (Hgrow Hc) as [Hc' He].
  split.
  - done.
  - rewrite Hm. apply Forall2_app.
    + eapply Forall2_impl; [done|]. intros ? ?. by apply links_of_extends.
    + apply Forall2_cons_2; [exact Hlinks | apply Forall2_nil_2].
  - intros k. rewrite Ho. by destruct (Hsizes k) as [-> _].
  - intros k p j Hp. rewrite Hm, length_app. simpl. apply Hb in Hp. lia.
  - intros k Hsize. destruct (Hsizes k) as [Hsame Hlt]. rewrite Hsame in *.
    specialize (Hr k Hlt). rewrite Hm. intros j m' Hj.
    rewrite length_app. simpl.
    apply lookup_app_Some in Hj as [Hj|[Hge Hj]].
    + destruct (Hr j m' Hj) as (? & ? & ? & ? & ?).
      pose proof (lookup_lt_Some _ _ _ Hj). split_and!; try done; lia.
    + apply list_lookup_singleton_Some in Hj as [Hj <-].
      destruct (Hnew k) as [Hi Hcnt]. unfold in_range. rewrite Hi, Hcnt.
      split_and!; try lia. intros p. split.
      * intros Hp. apply Hb in Hp. lia.
      * lia.
Qed.

(** Any other callback runs. *)
Lemma parsed_updates (elements : list Attributes) (owned : child -> list nat)
  (appended : option child) (st st' : captures) :
  parsed elements owned (this st) ->
  strings_grow st st' ->
  updates appended st st' ->
  parsed elements
    (fun k => owned k ++
              if decide (appended = Some k) then [Nat.pred (length (m_machines (this st)))]
              else [])
    (this st').
Proof.
  intros [Hc Hl Ho Hb Hr] Hgrow (Hne & Hsizes & Hlen & Hup).
  destruct (Hgrow Hc) as [Hc' He].
  split.
  - done.
  - apply Forall2_same_length_lookup. split.
    { rewrite Hlen. by eapply Forall2_length. }
    intros j attributes m' Ha Hm'.
    destruct (lookup_lt_is_Some_2 (m_machines (this st)) j) as [m Hm].
    { rewrite <- Hlen. by eapply lookup_lt_Some. }
    destruct (Hup j m Hm) as (m'' & Hm'' & Hlinks & _).
    rewrite Hm' in Hm''. injection Hm'' as <-.
    pose proof (Forall2_lookup_lr _ _ _ _ _ _ Hl Ha Hm) as (Hn & Hcl & Hro).
    unfold links in Hlinks. injection Hlinks as Hname Hclone Hrom.
    unfold links_of. rewrite Hname, Hclone, Hrom.
    split_and!; by eapply reference_of_extends.
  - intros k. rewrite length_app, Ho, Hsizes. destruct (decide _); simpl; lia.
  - intros k p j Hp. rewrite Hlen. apply lookup_app_Some in Hp as [Hp|[_ Hp]]; [by eapply Hb|].
    destruct (decide (appended = Some k)) as [Hk|]; [|done].
    apply list_lookup_singleton_Some in Hp as [_ <-].
    assert (m_machines (this st) <> []) as Hnil by (apply Hne; congruence).
    destruct (m_machines (this st)); [done|]. simpl. lia.
  - intros k Hsize. rewrite Hsizes in *. unfold ranges_agree. rewrite Hlen.
    assert (Hold : Z.of_nat (table_size k (this st)) < 2 ^ 32)
      by (destruct (decide (appended = Some k)); lia).
    specialize (Hr k Hold). intros j m' Hm'.
    destruct (lookup_lt_is_Some_2 (m_machines (this st)) j) as [m Hm].
    { rewrite <- Hlen. by eapply lookup_lt_Some. }
    destruct (Hup j m Hm) as (m'' & Hm'' & _ & Hk).
    rewrite Hm' in Hm''. injection Hm'' as <-.
    destruct (Hk k) as [Hi Hcnt]. clear Hk.
    destruct (Hr j m Hm) as (Hi0 & Hc0 & Hle & Hlast & Hiff).
    pose proof (lookup_lt_Some _ _ _ Hm) as Hj.
    unfold in_range in *. rewrite Hi. rewrite Hcnt. clear Hcnt Hi.
    destruct (decide (appended = Some k)) as [Hk|Hk].
    + destruct (decide (S j = length (m_machines (this st)))) as [Hj'|Hj'].
      * rewrite decide_True by done. specialize (Hlast Hj').
        unfold incr. rewrite Z.mod_small by lia.
        split_and!; try lia. intros p. split.
        -- intros Hp. apply lookup_app_Some in Hp as [Hp|[Hge Hp]].
           ++ pose proof (lookup_lt_Some _ _ _ Hp) as Hlt. apply Hiff in Hp.
              rewrite Ho in Hlt. lia.
           ++ apply list_lookup_singleton_Some in Hp as [Hp _]. rewrite Ho in *. lia.
        -- intros [Hp1 Hp2]. destruct (decide (p < table_size k (this st))%nat) as [Hp|Hp].
           ++ rewrite lookup_app_l by (rewrite Ho; lia). apply Hiff. lia.
           ++ rewrite lookup_app_r by (rewrite Ho; lia). rewrite Ho.
              replace (p - table_size k (this st))%nat with 0%nat by lia. simpl.
              f_equal. lia.
      * rewrite decide_False by (by intros [_ ?]).
        split_and!; try lia. intros p. split.
        -- intros Hp. apply lookup_app_Some in Hp as [Hp|[Hge Hp]]; [by apply Hiff in Hp|].
           apply list_lookup_singleton_Some in Hp as [_ Hp]. lia.
        -- intros Hp. rewrite lookup_app_l; [by apply Hiff|].
           rewrite Ho. lia.
    + rewrite decide_False by (by intros [? _]). rewrite app_nil_r.
      split_and!; try lia; apply Hiff.
Qed.

End parsed_properties.

Section parse_properties.
Context `{info.Declarations}.
Import info info.binaries info.database_builder.

Lemma child_paths_not_machine (k : child) (path : list string) :
  path ∈ child_paths k -> path <> machine_path.
Proof. intros Hk ->. destruct k; cbn in Hk; path_cases Hk; discriminate Hk. Qed.

Lemma child_paths_disjoint (k k' : child) (path : list string) :
  path ∈ child_paths k -> path ∈ child_paths k' -> k = k'.
Proof.
  intros Hk Hk'. destruct k; cbn in Hk; path_cases Hk; subst path;
    destruct k'; cbn in Hk'; path_cases Hk'; first [done | discriminate Hk'].
Qed.

(** The event either begins a machine, or feeds one child table, or neither. *)
Lemma path_cases_of (path : list string) :
  path = machine_path \/
  (exists k, path ∈ child_paths k) \/
  (path <> machine_path /\ forall k, path ∉ child_paths k).
Proof.
  destruct (decide (path = machine_path)) as [|Hm]; [by left|right].
  destruct (decide (path ∈ child_paths Biosset)); [left; by eexists|].
  destruct (decide (path ∈ child_paths Rom)); [left; by eexists|].
  destruct (decide (path ∈ child_paths Disk)); [left; by eexists|].
  destruct (decide (path ∈ child_paths Feature)); [left; by eexists|].
  destruct (decide (path ∈ child_paths Chip)); [left; by eexists|].
  destruct (decide (path ∈ child_paths Display)); [left; by eexists|].
  destruct (decide (path ∈ child_paths Sample)); [left; by eexists|].
  destruct (decide (path ∈ child_paths Configuration)); [left; by eexists|].
  destruct (decide (path ∈ child_paths Device)); [left; by eexists|].
  destruct (decide (path ∈ child_paths Slot)); [left; by eexists|].
  destruct (decide (path ∈ child_paths SoftwareList)); [left; by eexists|].
  destruct (decide (path ∈ child_paths RamOption)); [left; by eexists|].
  right. split; [done|]. by intros [].
Qed.

(** One event more. *)
Lemma dispatch_parsed (elements : list Attributes) (owned : child -> list nat)
  (event : xml_event) (st st' : captures) (u : unit) :
  parsed elements owned (this st) ->
  dispatch event st = Ok (u, st') ->
  parsed (elements ++ machine_elements [event])
    (fun k => owned k ++ owners k (length (m_machines (this st))) [event]) (this st') /\
  length (m_machines (this st')) =
    (length (m_machines (this st)) + length (machine_elements [event]))%nat.
Proof.
  intros Hp Hrun.
  destruct (dispatch_effect _ _ _ _ (parsed_consistent _ _ _ Hp) Hrun) as [Hgrow Heffect].
  destruct event as [path attributes|path content]; simpl in *.
  - destruct Heffect as (Hmachine & Hchild & Hother).
    destruct (path_cases_of path) as [->|[[k0 Hk0]|[Hm Hk]]].
    + rewrite decide_True by done. specialize (Hmachine eq_refl). split.
      * eapply parsed_ext; [|by eapply parsed_begins].
        intros k. rewrite decide_True by done. by rewrite app_nil_r.
      * destruct Hmachine as (_ & m & -> & _). by rewrite length_app.
    + pose proof (child_paths_not_machine _ _ Hk0) as Hm.
      rewrite decide_False by done. specialize (Hchild k0 Hk0). split.
      * rewrite app_nil_r. eapply parsed_ext; [|by eapply parsed_updates].
        intros k. simpl. rewrite decide_False by done.
        destruct (decide (path ∈ child_paths k)) as [Hk|Hk].
        -- rewrite decide_True; [done|]. f_equal. by eapply child_paths_disjoint.
        -- rewrite decide_False; [done|]. intros ?. by simplify_eq.
      * destruct Hchild as (_ & _ & -> & _). simpl. lia.
    + rewrite decide_False by done. specialize (Hother Hm Hk). split.
      * rewrite app_nil_r. eapply parsed_ext; [|by eapply parsed_updates].
        intros k. simpl. rewrite (decide_False (P := path = machine_path)) by done.
        rewrite (decide_False (P := path ∈ child_paths k)) by apply Hk.
        first [done | by rewrite decide_False].
      * destruct Hother as (_ & _ & -> & _). simpl. lia.
  - split.
    + rewrite app_nil_r. eapply parsed_ext; [|by eapply parsed_updates].
      intros k. simpl. by rewrite app_nil_r.
    + destruct Heffect as (_ & _ & -> & _). lia.
Qed.

Lemma owners_cons (k : child) (begun : nat) (event : xml_event) (events : list xml_event) :
  owners k begun (event :: events)
  = owners k begun [event] ++ owners k (begun + length (machine_elements [event])) events.
Proof.
  destruct event as [path attributes|path content]; simpl.
  - destruct (decide (path = machine_path)); simpl.
    + by replace (begun + 1)%nat with (S begun) by lia.
    + rewrite Nat.add_0_r. by destruct (decide (path ∈ child_paths k)).
  - by rewrite Nat.add_0_r.
Qed.

Lemma machine_elements_cons (event : xml_event) (events : list xml_event) :
  machine_elements (event :: events) = machine_elements [event] ++ machine_elements events.
Proof.
  destruct event as [path attributes|path content]; simpl; [|done].
  by destruct (decide (path = machine_path)).
Qed.

(** The callbacks of a whole run of events. *)
Lemma parse_parsed (events : list xml_event) (elements : list Attributes)
  (owned : child -> list nat) (st st' : captures) (u : unit) :
  parsed elements owned (this st) ->
  parse events st = Ok (u, st') ->
  parsed (elements ++ machine_elements events)
    (fun k => owned k ++ owners k (length (m_machines (this st))) events) (this st').
Proof.
  revert elements owned st. induction events as [|event events IH];
    intros elements owned st Hp Hrun; simpl in Hrun.
  - apply M_ret_Ok in Hrun as [_ ->]. rewrite app_nil_r.
    eapply parsed_ext; [|done]. intros k. simpl. by rewrite app_nil_r.
  - apply M_bind_Ok in Hrun as (u1 & st1 & Hstep & Hrun).
    destruct (dispatch_parsed _ _ _ _ _ _ Hp Hstep) as [Hp1 Hlen].
    specialize (IH _ _ _ Hp1 Hrun).
    rewrite machine_elements_cons, app_assoc.
    eapply parsed_ext; [|done]. intros k. cbv beta.
    by rewrite (owners_cons k _ event), Hlen, app_assoc.
Qed.

(** The builder as its constructor leaves it is the builder after no event. *)
Lemma parsed_ctor : parsed [] (fun _ => []) database_builder.ctor.
Proof.
  split; simpl.
  - apply consistent_embed_value. split; intros ?; simpl; intros; simplify_map_eq.
  - constructor.
  - by intros [].
  - intros k p j Hp. by rewrite lookup_nil in Hp.
  - intros k _ j m Hj. by rewrite lookup_nil in Hj.
Qed.

End parse_properties.

(** ** The finalization *)

Lemma mapM_outcome_Ok {A B} (f : A -> outcome B) (l : list A) (k : list B) :
  mapM (M := outcome) f l = Ok k <-> Forall2 (fun x y => f x = Ok y) l k.
Proof.
  revert k. induction l as [|x l IH]; intros k; simpl.
  - split; [intros Hk; injection Hk as <-; constructor | by inversion 1].
  - split.
    + intros Hk. apply bind_Ok in Hk as (y & Hy & Hk).
      apply bind_Ok in Hk as (k' & Hk' & Hk). injection Hk as <-.
      constructor; [done | by apply IH].
    + inversion 1 as [|? y ? k' Hy Hk']; subst. rewrite Hy. simpl.
      apply IH in Hk'. by rewrite Hk'.
Qed.

Section finalize_properties.
Context `{info.Declarations}.
Import info info.binaries info.database_builder.

(** What a finalization that returns has done. *)
Lemma finalize_returns (st st' : captures) (u : unit) :
  finalize st = Ok (u, st') ->
  let ended := string_table.embed_value MAGIC_STRINGTABLE_END (m_strings (this st)) in
  exists named empty,
    Forall2 (fun m nm => string_table.lookup (machine.m_name_strindex m) ended = Ok nm.1
                         /\ nm.2 = m)
      (m_machines (this st)) named /\
    string_table.get EmptyString ended = Ok (empty, m_strings (this st')) /\
    m_machines (this st') =
      resolve_links
        (emplace_machines (std_sort _ name_less named).*2 0 (emplace empty (2 ^ 32 - 1) ∅))
      <$> (std_sort _ name_less named).*2 /\
    (forall k, table_size k (this st') = table_size k (this st)) /\
    (forall k, Z.of_nat (table_size k (this st)) < 2 ^ 32) /\
    size (m_machines (this st)) < 2 ^ 32 /\
    size (m_slot_options (this st')) < 2 ^ 32 /\
    size (m_configuration_settings (this st')) < 2 ^ 32 /\
    size (m_configuration_conditions (this st')) < 2 ^ 32.
Proof.
  intros Hrun. unfold finalize, finalize_header in Hrun.
  run_callback Hrun.
  match goal with
  | Hsalt : salt_header _ = Ok _ |- _ =>
      unfold salt_header in Hsalt; apply bind_Ok in Hsalt as (salted & _ & Hsalt);
      injection Hsalt as _ <-
  end.
  match goal with
  | Hsort : sort_machines _ = Ok _ |- _ =>
      unfold sort_machines in Hsort; apply bind_Ok in Hsort as (named & Hnamed & Hsort);
      injection Hsort as _ <-
  end.
  unfold resolve_machine_indexes in Hrun. run_callback Hrun.
  cbn in *. apply mapM_outcome_Ok in Hnamed.
  exists named. eexists. split_and!.
  - eapply Forall2_impl; [done|]. intros m [nm m']. simpl. intros Hnm.
    apply bind_Ok in Hnm as (aText & Hlookup & Hnm). by simplify_eq.
  - done.
  - done.
  - by intros [].
  - intros []; simpl; unfold size in *; lia.
  - done.
  - done.
  - done.
  - done.
Qed.

End finalize_properties.

(** ** The order of strcmp *)

Section strcmp_properties.
Import info.

Lemma strcmp_lt (a b : string) : strcmp a b < 0 <-> String.compare a b = Lt.
Proof. unfold strcmp. destruct (String.compare a b); split; (done || lia). Qed.

Lemma strcmp_le (a b : string) : strcmp a b <= 0 <-> String.compare a b <> Gt.
Proof. unfold strcmp. destruct (String.compare a b); split; (done || lia). Qed.

Lemma compare_refl (a : string) : String.compare a a = Eq.
Proof.
  induction a as [|ch a IH]; simpl; [done|].
  unfold Ascii.compare. by rewrite N.compare_refl.
Qed.

Lemma compare_Lt_trans (a b c : string) :
  String.compare a b = Lt -> String.compare b c = Lt -> String.compare a c = Lt.
Proof.
  revert b c. induction a as [|x a IH]; intros [|y b] [|z c]; simpl; try done.
  destruct (Ascii.compare x y) eqn:Hxy; try done;
    destruct (Ascii.compare y z) eqn:Hyz; try done.
  - apply Ascii.compare_eq_iff in Hxy, Hyz. subst.
    unfold Ascii.compare. rewrite N.compare_refl. apply IH.
  - apply Ascii.compare_eq_iff in Hxy. subst. by rewrite Hyz.
  - apply Ascii.compare_eq_iff in Hyz. subst. by rewrite Hxy.
  - unfold Ascii.compare in *. rewrite N.compare_lt_iff in *.
    assert (N_of_ascii x < N_of_ascii z)%N as Hxz by lia.
    apply N.compare_lt_iff in Hxz. by rewrite Hxz.
Qed.

Lemma compare_Gt_Lt (a b : string) : String.compare a b = Gt <-> String.compare b a = Lt.
Proof. rewrite (String.compare_antisym b a). destruct (String.compare a b); simpl; split; done. Qed.

Lemma strcmp_refl (a : string) : strcmp a a = 0.
Proof. unfold strcmp. by rewrite compare_refl. Qed.

Lemma strcmp_eq (a b : string) : strcmp a b = 0 <-> a = b.
Proof.
  split; [|intros ->; apply strcmp_refl]. unfold strcmp.
  destruct (String.compare a b) eqn:Hab; try done. intros _. by apply String.compare_eq_iff.
Qed.

Lemma strcmp_lt_trans (a b c : string) : strcmp a b < 0 -> strcmp b c < 0 -> strcmp a c < 0.
Proof. rewrite !strcmp_lt. apply compare_Lt_trans. Qed.

Lemma strcmp_le_lt_trans (a b c : string) :
  strcmp a b <= 0 -> strcmp b c < 0 -> strcmp a c < 0.
Proof.
  rewrite strcmp_le, !strcmp_lt. intros Hab Hbc.
  destruct (String.compare a b) eqn:Hc; try done.
  - apply String.compare_eq_iff in Hc. by subst.
  - by eapply compare_Lt_trans.
Qed.

Lemma strcmp_lt_le_trans (a b c : string) :
  strcmp a b < 0 -> strcmp b c <= 0 -> strcmp a c < 0.
Proof.
  rewrite strcmp_le, !strcmp_lt. intros Hab Hbc.
  destruct (String.compare b c) eqn:Hc; try done.
  - apply String.compare_eq_iff in Hc. by subst.
  - by eapply compare_Lt_trans.
Qed.

Lemma strcmp_not_lt (a b : string) : ~ strcmp a b < 0 <-> strcmp b a <= 0.
Proof.
  rewrite strcmp_lt, strcmp_le, compare_Gt_Lt. done.
Qed.

Lemma strcmp_le_trans (a b c : string) :
  strcmp a b <= 0 -> strcmp b c <= 0 -> strcmp a c <= 0.
Proof.
  intros Hab Hbc. apply strcmp_not_lt. intros Hca.
  apply strcmp_not_lt in Hbc. apply Hbc. by eapply strcmp_lt_le_trans.
Qed.

Lemma strcmp_le_antisym (a b : string) : strcmp a b <= 0 -> strcmp b a <= 0 -> a = b.
Proof.
  rewrite !strcmp_le. intros Hab Hba.
  rewrite (compare_Gt_Lt b a) in Hba.
  destruct (String.compare a b) eqn:Hc; try done. by apply String.compare_eq_iff.
Qed.

Lemma strcmp_le_transitive : Transitive (fun a b => strcmp a b <= 0).
Proof. intros a b c. apply strcmp_le_trans. Qed.

End strcmp_properties.

Section sort_properties.
Context `{info.Declarations}.
Import info info.binaries info.database_builder.

Lemma name_less_lt (a b : string * machine.t) : name_less a b = true <-> strcmp a.1 b.1 < 0.
Proof. unfold name_less. apply bool_decide_eq_true. Qed.

Lemma name_less_not (a b : string * machine.t) : name_less a b = false <-> strcmp b.1 a.1 <= 0.
Proof.
  unfold name_less. rewrite bool_decide_eq_false. apply strcmp_not_lt.
Qed.

(** The comparison [process_xml] gives to [std::sort] is a strict weak ordering. *)
Lemma name_less_strict_weak_ordering : strict_weak_ordering name_less.
Proof.
  split.
  - intros a. apply name_less_not. by rewrite strcmp_refl.
  - intros a b c. rewrite !name_less_lt. apply strcmp_lt_trans.
  - intros a b c. rewrite !name_less_not. intros Hba Hab Hcb Hbc.
    split; by eapply strcmp_le_trans.
Qed.

(** After [std::sort], the names are in the order of [strcmp]. *)
Lemma sorted_names (named : list (string * machine.t)) :
  StdSort ->
  StronglySorted (fun a b => strcmp a b <= 0) (std_sort _ name_less named).*1.
Proof.
  intros Hsort. apply (@Sorted_StronglySorted _ _ strcmp_le_transitive).
  pose proof (std_sort_sorted _ name_less named name_less_strict_weak_ordering) as Hs.
  induction Hs as [|x l Hl IH Hhd]; simpl; constructor; [done|].
  destruct Hhd as [|y l Hxy]; simpl; constructor. by apply name_less_not.
Qed.

End sort_properties.

(** ** The binary search of the loader *)

Section lower_bound_properties.
Import info.

Lemma StronglySorted_lookup_le (names : list string) (i j : nat) (a b : string) :
  StronglySorted (fun a b => strcmp a b <= 0) names ->
  (i <= j)%nat -> names !! i = Some a -> names !! j = Some b -> strcmp a b <= 0.
Proof.
  intros Hs. revert i j. induction Hs as [|x l Hl IH Hx]; intros i j Hij Hi Hj; [done|].
  destruct i as [|i], j as [|j]; simpl in *; simplify_eq.
  - by rewrite strcmp_refl.
  - rewrite Forall_forall in Hx. apply Hx. by eapply list_elem_of_lookup_2.
  - lia.
  - apply (IH i j); [lia|done..].
Qed.

Lemma lower_bound_S (fuel : nat) (names : list string) (target : string) (first count : nat) :
  database.lower_bound (S fuel) names target first count
  = if (count =? 0)%nat then first
    else
      match names !! (first + count / 2)%nat with
      | Some name =>
          if bool_decide (strcmp name target < 0)
          then database.lower_bound fuel names target (first + count / 2 + 1)
                 (count - (count / 2 + 1))
          else database.lower_bound fuel names target first (count / 2)
      | None => first
      end.
Proof. reflexivity. Qed.

Lemma lower_bound_returns (fuel : nat) (names : list string) (target : string)
  (first count : nat) :
  StronglySorted (fun a b => strcmp a b <= 0) names ->
  (count <= fuel)%nat ->
  (first + count <= length names)%nat ->
  (forall i name, (i < first)%nat -> names !! i = Some name -> strcmp name target < 0) ->
  (forall i name, (first + count <= i)%nat -> names !! i = Some name ->
     ~ strcmp name target < 0) ->
  let r := database.lower_bound fuel names target first count in
  (first <= r <= first + count)%nat /\
  (forall i name, (i < r)%nat -> names !! i = Some name -> strcmp name target < 0) /\
  (forall i name, (r <= i)%nat -> names !! i = Some name -> ~ strcmp name target < 0).
Proof.
  intros Hs. revert first count.
  induction fuel as [|fuel IH]; intros first count Hfuel Hlen Hbelow Habove; cbv zeta.
  { replace count with 0%nat in * by lia. simpl. split_and!; [lia|lia|done|].
    intros i name Hi. apply Habove. lia. }
  rewrite lower_bound_S.
  destruct (Nat.eqb_spec count 0) as [->|Hcount].
  { split_and!; [lia|lia|done|]. intros i name Hi. apply Habove. lia. }
  assert (Hstep : (count / 2 < count)%nat) by (apply Nat.div_lt; lia).
  destruct (lookup_lt_is_Some_2 names (first + count / 2)) as [name Hname]; [lia|].
  rewrite Hname. destruct (bool_decide_reflect (strcmp name target < 0)) as [Hlt|Hge].
  - specialize (IH (first + count / 2 + 1)%nat (count - (count / 2 + 1))%nat).
    destruct IH as (Hr & Hb & Ha); [lia|lia| | |].
    + intros i name' Hi Hname'. eapply strcmp_le_lt_trans; [|exact Hlt].
      eapply (StronglySorted_lookup_le names i (first + count / 2)); [done|lia|done..].
    + intros i name' Hi. apply Habove. lia.
    + split_and!; [lia|lia|done..].
  - specialize (IH first (count / 2)%nat).
    destruct IH as (Hr & Hb & Ha); [lia|lia|done| |].
    + intros i name' Hi Hname' Hlt. apply Hge.
      eapply strcmp_le_lt_trans; [|exact Hlt].
      eapply (StronglySorted_lookup_le names (first + count / 2) i); [done|lia|done..].
    + split_and!; [lia|lia|done..].
Qed.

End lower_bound_properties.

(** ** The database that process_xml builds *)

Lemma map_fmap {A B} (f : A -> B) (l : list A) : map f l = f <$> l.
Proof. induction l as [|x l IH]; [done|]. simpl. by rewrite IH. Qed.

Section built_properties.
Context `{info.Declarations}.
Import info info.binaries info.database_builder.

Lemma resolve_links_name (map : gmap Z Z) (m : machine.t) :
  machine.m_name_strindex (resolve_links map m) = machine.m_name_strindex m.
Proof. done. Qed.

Lemma resolve_links_child (map : gmap Z Z) (m : machine.t) (k : child) :
  child_index k (resolve_links map m) = child_index k m /\
  child_count k (resolve_links map m) = child_count k m.
Proof. by destruct k. Qed.

Lemma process_xml_Built (input : xml_document) (db : t) :
  process_xml input ctor = Ok (Built db) ->
  exists st st' u u',
    parse (xml_events input) (Captures ctor initial_header EmptyString) = Ok (u, st) /\
    finalize st = Ok (u', st') /\ db = this st'.
Proof.
  unfold process_xml. rewrite decide_True by done.
  destruct (parse _ _) as [[u st]|what|f]; [|done..].
  destruct (xml_parsed input); [|done].
  intros Hfin. apply bind_Ok in Hfin as ([u' st'] & Hfin & Hdb). simplify_eq.
  by exists st, st', u, u'.
Qed.

(** A database that [process_xml] returns is built from the document. *)
Lemma process_xml_built (input : xml_document) (db : t) :
  StdSort ->
  process_xml input ctor = Ok (Built db) ->
  exists rows empty, built input db rows empty.
Proof.
  intros Hsort Hrun.
  apply process_xml_Built in Hrun as (st & st' & u & u' & Hparse & Hfin & ->).
  pose proof (parse_parsed _ [] (fun _ => []) (Captures ctor initial_header EmptyString)
                _ _ parsed_ctor Hparse) as Hp.
  simpl in Hp.
  destruct Hp as [Hc Hl Ho Hb Hr].
  apply finalize_returns in Hfin. cbv zeta in Hfin.
  destruct Hfin as (named & empty & Hnamed & Hempty & Hmachines & Hsame & Hsizes & Hmore).
  set (ended := string_table.embed_value MAGIC_STRINGTABLE_END (m_strings (this st))) in *.
  assert (Hcended : consistent ended) by by apply consistent_embed_value.
  destruct (get_returns _ _ _ _ Hcended Hempty) as (Hc' & He' & Hrempty).
  assert (Hext : extends (m_strings (this st)) (m_strings (this st'))).
  { eapply extends_trans; [apply extends_embed_value|done]. }
  set (elements0 := machine_elements (xml_events input)) in *.
  set (rows0 := imap (fun j nm => Row j (elements0 !!! j) nm.1 nm.2) named).
  assert (Hnamed0 : named = (fun r => (row_name r, row_machine r)) <$> rows0).
  { apply list_eq. intros i. rewrite list_lookup_fmap. unfold rows0.
    rewrite list_lookup_imap. by destruct (named !! i) as [[??]|]. }
  pose proof (std_sort_permutation _ name_less named) as Hperm.
  rewrite Hnamed0 in Hperm at 2. rewrite <- map_fmap in Hperm.
  apply Permutation_map_inv in Hperm as (rows & Hsorted & Hrows).
  rewrite map_fmap in Hsorted.
  assert (Hlen0 : length elements0 = length named).
  { rewrite (Forall2_length _ _ _ Hl). by eapply Forall2_length. }
  exists rows, empty. split.
  - fold elements0. rewrite <- Hrows. unfold rows0. rewrite Hlen0.
    match goal with |- ?l ≡ₚ ?k => replace l with k; [done|] end.
    symmetry. apply list_eq. intros i. rewrite list_lookup_fmap, list_lookup_imap.
    destruct (named !! i) as [nm|] eqn:Hi; simpl.
    + symmetry. apply lookup_seq. split; [done|]. by eapply lookup_lt_Some.
    + symmetry. apply lookup_ge_None. rewrite length_seq. by apply lookup_ge_None.
  - fold elements0. rewrite <- Hrows. apply Forall_lookup. intros i r Hi. unfold rows0 in Hi.
    rewrite list_lookup_imap in Hi. destruct (named !! i) as [nm|] eqn:Hnm; [|done].
    simpl in Hi. simplify_eq. simpl.
    destruct (Forall2_lookup_r _ _ _ _ _ Hnamed Hnm) as (m & Hm & Hlookup & Hnm2).
    destruct (Forall2_lookup_r _ _ _ _ _ Hl Hm) as (a & Ha & Hlinks).
    rewrite (list_lookup_total_correct _ _ _ Ha). split_and!.
    + done.
    + rewrite Hnm2. by apply (links_of_extends _ _ _ _ Hext).
    + rewrite Hnm2. by apply (lookup_extends _ _ _ _ He').
    + intros k p. specialize (Hr k (Hsizes k)).
      destruct (Hr i m Hm) as (_ & _ & _ & _ & Hiff). rewrite Hnm2. apply Hiff.
  - replace (row_name <$> rows) with (std_sort _ name_less named).*1.
    + by apply sorted_names.
    + rewrite Hsorted, <- list_fmap_compose. done.
  - rewrite Hmachines. rewrite Hsorted, <- !list_fmap_compose. done.
  - done.
  - done.
  - intros k. rewrite Hsame. split; [|apply Hsizes]. by rewrite <- Ho.
  - destruct Hmore as (Hm1 & Hm2 & Hm3 & Hm4). split_and!; try done.
    rewrite Hmachines. unfold size in *. rewrite !length_fmap.
    rewrite (Permutation_length (std_sort_permutation _ name_less named)).
    by rewrite <- (Forall2_length _ _ _ Hnamed).
Qed.

End built_properties.

Section resolve_properties.
Context `{info.Declarations}.
Import info info.binaries info.database_builder.

Lemma emplace_lookup (key value : Z) (map : gmap Z Z) (r : Z) :
  emplace key value map !! r =
    match map !! r with
    | Some v => Some v
    | None => if decide (key = r) then Some value else None
    end.
Proof.
  unfold emplace. destruct (map !! key) eqn:Hkey.
  - destruct (map !! r) eqn:Hr; [done|]. rewrite decide_False; [done|]. congruence.
  - rewrite lookup_insert. destruct (decide (key = r)) as [->|]; [by rewrite Hkey|].
    by destruct (map !! r).
Qed.

(** The map that [process_xml] fills: an entry put first stays, and a name
    is given the position of the first machine that has it. *)
Lemma emplace_machines_lookup (machines : list machine.t) (i0 : nat) (map : gmap Z Z) (r : Z) :
  emplace_machines machines i0 map !! r =
    match map !! r with
    | Some v => Some v
    | None =>
        match list_find (fun m => machine.m_name_strindex m = r) machines with
        | Some (i, _) => Some (Z.of_nat (i0 + i) mod 2 ^ 32)
        | None => None
        end
    end.
Proof.
  revert i0 map. induction machines as [|m machines IH]; intros i0 map; simpl.
  - by destruct (map !! r).
  - rewrite IH, emplace_lookup. destruct (map !! r) eqn:Hr; [done|].
    destruct (decide (machine.m_name_strindex m = r)) as [Hm|Hm]; simpl.
    + by rewrite Nat.add_0_r.
    + destruct (list_find _ machines) as [[i m']|]; simpl; [|done].
      by replace (i0 + S i)%nat with (S (i0 + i)) by lia.
Qed.

(** Two tests that agree on the elements of two lists, position by position,
    are first met at the same position. *)
Lemma list_find_agree {A B} (P : A -> Prop) (Q : B -> Prop)
  `{!forall x, Decision (P x)} `{!forall y, Decision (Q y)} (l : list A) (k : list B) :
  Forall2 (fun x y => P x <-> Q y) l k ->
  fst <$> list_find P l = fst <$> list_find Q k.
Proof.
  induction 1 as [|x y l k Hxy Hlk IH]; simpl; [done|].
  destruct (decide (P x)) as [HP|HP], (decide (Q y)) as [HQ|HQ]; simpl; try tauto.
  destruct (list_find P l) as [[i x']|], (list_find Q k) as [[j y']|]; simpl in *;
    by simplify_eq.
Qed.

(** C2, as amended. After a successful [process_xml] the records of the
    machine table are, in the order of the table, the records of the machine
    elements of the document, each once; the name of a record is the
    reference of the name of its element; and [clone_of] (and likewise
    [rom_of]) of a record is: the sentinel when the [cloneof] attribute of
    its element is absent or empty; else the position in the table of the
    first record whose element has that name, wherever the element is in the
    document; the sentinel when no element has that name. The small strings
    decode to what they encode, and no offset into the string table is the
    encoding of a small string. *)
Theorem references_resolved (input : xml_document) (db : t) :
  SmallStrings ->
  StdSort ->
  process_xml input ctor = Ok (Built db) ->
  offsets_below (length (string_table.m_data (m_strings db))) ->
  exists elements : list Attributes,
    elements ≡ₚ machine_elements (xml_events input) /\
    Forall2 (fun a m =>
               reference_of (m_strings db) (attribute_text a "name")
                 (machine.m_name_strindex m) /\
               machine.m_clone_of_machindex m = resolve elements (attribute_text a "cloneof") /\
               machine.m_rom_of_machindex m = resolve elements (attribute_text a "romof"))
      elements (m_machines db).
Proof.
  intros Hcodec Hsort Hrun Hbelow.
  destruct (process_xml_built _ _ Hsort Hrun) as (rows & empty & Hb).
  destruct Hb as [Hord Hrows _ Hmachines Hempty Hc _ [Hsize _]].
  set (elements0 := machine_elements (xml_events input)) in *.
  assert (Helements : row_element <$> rows ≡ₚ elements0).
  { transitivity ((fun j => elements0 !!! j) <$> (row_ordinal <$> rows)).
    - match goal with |- ?l ≡ₚ ?k => replace l with k; [done|] end.
      rewrite <- list_fmap_compose. apply Forall_fmap_ext_1.
      eapply Forall_impl; [exact Hrows|]. intros r (Ha & _). simpl.
      by apply list_lookup_total_correct.
    - rewrite Hord. match goal with |- ?l ≡ₚ ?k => replace l with k; [done|] end.
      apply list_eq. intros i. rewrite list_lookup_fmap.
      destruct (elements0 !! i) as [a|] eqn:Ha.
      + rewrite (lookup_seq_lt _ _ _ (lookup_lt_Some _ _ _ Ha)). simpl.
        by rewrite (list_lookup_total_correct _ _ _ Ha).
      + rewrite lookup_seq_ge; [done|]. by apply lookup_ge_None. }
  exists (row_element <$> rows). split; [done|].
  set (map := emplace_machines (row_machine <$> rows) 0 (emplace empty NOT_FOUND ∅)) in *.
  (* what the map answers for the reference of a name *)
  assert (Hresolve : forall target r,
    reference_of (m_strings db) target r ->
    machineIndexFromStringIndex map r = resolve (row_element <$> rows) target).
  { intros target r Hr. unfold machineIndexFromStringIndex, resolve, map.
    rewrite emplace_machines_lookup, emplace_lookup, lookup_empty.
    destruct (decide (empty = r)) as [<-|Hne].
    { rewrite decide_True; [done|].
      by apply (reference_of_injective (m_strings db) _ _ empty). }
    rewrite decide_False.
    2:{ intros ->. destruct Hne. by eapply reference_of_unique. }
    pose proof (list_find_agree
      (fun m => machine.m_name_strindex m = r)
      (fun a => attribute_text a "name" = target)
      (row_machine <$> rows) (row_element <$> rows)) as Hfind.
    assert (Hlen : Z.of_nat (length rows) < 2 ^ 32).
    { rewrite Hmachines in Hsize. unfold size in Hsize. rewrite !length_fmap in Hsize. lia. }
    lapply Hfind; clear Hfind.
    2:{ apply Forall2_fmap, Forall_Forall2_diag.
        eapply Forall_impl; [exact Hrows|]. intros row (_ & (Hname & _) & _). simpl. split.
        - intros <-. by apply (reference_of_injective (m_strings db) _ _ _ Hcodec Hc Hbelow Hname).
        - intros <-. by eapply reference_of_unique. }
    intros Hfind.
    destruct (list_find _ (row_machine <$> rows)) as [[i m]|] eqn:Hi;
      destruct (list_find _ (row_element <$> rows)) as [[j a]|] eqn:Hj;
      simpl in Hfind; try done.
    injection Hfind as ->.
    apply list_find_Some in Hj as (Hj%lookup_lt_Some & _).
    rewrite length_fmap in Hj. simpl. rewrite Z.mod_small; [done|lia]. }
  rewrite Hmachines. apply Forall2_fmap_r, Forall2_fmap, Forall_Forall2_diag.
  eapply Forall_impl; [exact Hrows|]. intros row (_ & (Hname & Hclone & Hrom) & _). simpl.
  split_and!; [done|by apply Hresolve..].
Qed.

End resolve_properties.

(** ** The overflow guard *)

Section overflow_properties.
Context `{info.Declarations}.
Import info info.binaries info.database_builder.

Lemma to_uint32_run (n : Z) :
  0 <= n ->
  to_uint32 n = if decide (n < 2 ^ 32) then Ok n
                else Throw "Array size cannot fit in 32 bits".
Proof.
  intros Hn. unfold to_uint32. destruct (decide (n < 2 ^ 32)) as [Hlt|Hge].
  - rewrite Z.mod_small by lia. by rewrite decide_False by (intros Hne; by destruct Hne).
  - rewrite decide_True; [done|]. intros Heq.
    pose proof (Z.mod_pos_bound n (2 ^ 32)). lia.
Qed.

Lemma size_uint32_run {A} (table : t -> list A) (st : captures) :
  size_uint32 table st =
    if decide (size (table (this st)) < 2 ^ 32) then Ok (size (table (this st)), st)
    else Throw "Array size cannot fit in 32 bits".
Proof.
  unfold size_uint32, read, lift, mbind, M_bind. simpl.
  rewrite to_uint32_run by (unfold size; lia). by destruct (decide _).
Qed.

(** A callback that goes on after [m_strings.get] throws the overflow error
    if what follows does, on every state with the same tables. *)
Lemma strings_get_attribute_throws {B} (attributes : Attributes) (attribute : string)
  (k : Z -> M B) (st : captures) :
  (forall r st', (forall c, table_size c (this st') = table_size c (this st)) ->
                 k r st' = Throw "Array size cannot fit in 32 bits") ->
  (strings_get_attribute attributes attribute ≫= k) st
    = Throw "Array size cannot fit in 32 bits".
Proof.
  intros Hk. unfold mbind, M_bind, strings_get_attribute, string_table.get_attribute,
    string_table.get.
  destruct (tryEncodeAsSmallString _) as [sso|]; simpl.
  { apply Hk. by intros []. }
  destruct (string_table.m_map _ !! _) as [second|]; simpl.
  { apply Hk. by intros []. }
  rewrite to_uint32_run by lia. destruct (decide _); simpl; [|done].
  apply Hk. by intros [].
Qed.

Lemma size_uint32_throws {A B} (table : t -> list A) (k : Z -> M B) (st : captures) :
  (size (table (this st)) < 2 ^ 32 ->
   k (size (table (this st))) st = Throw "Array size cannot fit in 32 bits") ->
  (size_uint32 table ≫= k) st = Throw "Array size cannot fit in 32 bits".
Proof.
  intros Hk. unfold mbind, M_bind. rewrite size_uint32_run.
  destruct (decide _); [by apply Hk | done].
Qed.

(** The machine callback throws when a table of children of machines has
    2^32 records or more. *)
Lemma on_machine_overflow (attributes : Attributes) (st : captures) (c : child) :
  2 ^ 32 <= Z.of_nat (table_size c (this st)) ->
  on_machine attributes st = Throw "Array size cannot fit in 32 bits".
Proof.
  intros Hc. unfold on_machine.
  apply strings_get_attribute_throws. intros r1 st1 H1.
  apply strings_get_attribute_throws. intros r2 st2 H2.
  apply strings_get_attribute_throws. intros r3 st3 H3.
  apply strings_get_attribute_throws. intros r4 st4 H4.
  assert (Hsame : forall c, table_size c (this st4) = table_size c (this st)).
  { intros c'. by rewrite H4, H3, H2, H1. }
  rewrite <- Hsame in Hc. clear H1 H2 H3 H4 Hsame.
  repeat (apply size_uint32_throws; intros ?).
  exfalso. unfold size in *. destruct c; simpl in Hc; lia.
Qed.

Lemma parse_app (events events' : list xml_event) (st : captures) :
  parse (events ++ events') st =
    match parse events st with
    | Ok (_, st') => parse events' st'
    | Throw what => Throw what
    | Fault f => Fault f
    end.
Proof.
  revert st. induction events as [|event events IH]; intros st; simpl; [done|].
  unfold mbind, M_bind. destruct (dispatch event st) as [[[] st1]| |]; [|done..].
  apply IH.
Qed.

(** What the rom callback stores as the size. *)
Lemma on_rom_size (attributes : Attributes) (st st' : captures) (u : unit) :
  on_rom attributes st = Ok (u, st') ->
  exists r, last (m_roms (this st')) = Some r /\
            rom.m_size r = default 0 (get_with as_uint32 attributes "size").
Proof.
  intros Hrun. unfold on_rom in Hrun. run_callback Hrun.
  simpl. eexists. rewrite last_snoc. done.
Qed.

End overflow_properties.

(** ** The sample declarations *)

Section sample_properties.
Import info info.binaries info.database_builder.

Lemma sample_small_strings : SmallStrings (H := sample.declarations).
Proof.
  constructor. intros s r. simpl. unfold sample.encode_small, sample.decode_small.
  destruct s as [|ch [|ch' s]]; [| |done].
  - intros [= <-]. rewrite decide_True by (unfold sample.SMALL; lia).
    eexists. split; [done|]. by rewrite Z.sub_diag.
  - destruct (decide (ch = NUL)) as [|Hch]; [done|]. intros [= <-].
    assert (Hcode : 0 <= char_code ch < 256).
    { unfold char_code. pose proof (N_ascii_bounded ch). lia. }
    rewrite decide_True by lia. eexists. split; [done|].
    replace (sample.SMALL + char_code ch - sample.SMALL) with (char_code ch) by lia.
    unfold char_code. rewrite N2Z.id, ascii_N_embedding. simpl.
    by rewrite decide_False.
Qed.

Lemma sample_std_sort : StdSort (H := sample.declarations).
Proof.
  constructor; simpl.
  - intros A comp v. apply merge_sort_Permutation.
  - intros A comp v [Hirr Htrans _].
    assert (Htotal : Total (sample.not_after comp)).
    { intros a b. unfold sample.not_after.
      destruct (comp b a) eqn:Hba; [|by left]. right.
      destruct (comp a b) eqn:Hab; [|done].
      by rewrite <- (Hirr a), (Htrans a b a). }
    apply (Sorted_merge_sort (sample.not_after comp)).
Qed.

Lemma sample_offsets_below (limit : nat) :
  Z.of_nat limit <= sample.SMALL -> offsets_below (H := sample.declarations) limit.
Proof.
  intros Hlimit off Hoff. simpl. unfold sample.decode_small.
  rewrite decide_False; [done|lia].
Qed.

End sample_properties.

Section overflow_is_fatal.
Context `{info.Declarations}.
Variable m_outputFilename : string.
Import info info.binaries info.database_builder.

(** C4, as amended. The size of a table (a [std::size_t]) is checked when it
    is stored in a 32-bit field: [to_uint32] returns a size below 2^32 as it
    is and throws "Array size cannot fit in 32 bits" for any other; a machine
    element that begins when a table of children holds 2^32 records or more
    makes [process_xml] fail with that message; every table of a database
    that [process_xml] builds has fewer than 2^32 records; and unless
    [process_xml] builds a database the task writes no file and its result
    is not [SUCCESS]. The [size] attribute of a rom does not go through this
    check: the record holds what the conversion of the attribute to a
    [std::uint32_t] gives, and 0 if it gives nothing. *)
Theorem table_size_overflow_is_fatal (env : ListXmlTask.environment) :
  StdSort ->
  (forall n : Z, 0 <= n ->
     to_uint32 n = if decide (n < 2 ^ 32) then Ok n
                   else Throw "Array size cannot fit in 32 bits") /\
  (forall before attributes after st u c,
     xml_events (ListXmlTask.listxml_output env)
       = before ++ ElementBegin ["mame"; "machine"]%string attributes :: after ->
     parse before (Captures ctor initial_header EmptyString) = Ok (u, st) ->
     2 ^ 32 <= Z.of_nat (table_size c (this st)) ->
     process_xml (ListXmlTask.listxml_output env) ctor
       = Ok (Failed "Array size cannot fit in 32 bits")) /\
  (forall db,
     process_xml (ListXmlTask.listxml_output env) ctor = Ok (Built db) ->
     (forall c, Z.of_nat (table_size c db) < 2 ^ 32) /\
     size (m_machines db) < 2 ^ 32 /\
     size (m_slot_options db) < 2 ^ 32 /\
     size (m_configuration_settings db) < 2 ^ 32 /\
     size (m_configuration_conditions db) < 2 ^ 32) /\
  ((forall db, process_xml (ListXmlTask.listxml_output env) ctor <> Ok (Built db)) ->
   forall event file,
     ListXmlTask.process m_outputFilename env = Ok (event, file) ->
     file = None /\ ListXmlResultEvent.status event <> ListXmlResultEvent.SUCCESS) /\
  (forall attributes st st' u,
     on_rom attributes st = Ok (u, st') ->
     exists r, last (m_roms (this st')) = Some r /\
               rom.m_size r = default 0 (get_with as_uint32 attributes "size")).
Proof.
  intros Hsort. split_and!.
  - apply to_uint32_run.
  - intros before attributes after st u c Hevents Hparse Hc.
    unfold process_xml. rewrite decide_True by done.
    rewrite Hevents, parse_app, Hparse. simpl.
    unfold mbind, M_bind.
    change (dispatch (ElementBegin ["mame"; "machine"]%string attributes) st)
      with (on_machine attributes st).
    by rewrite (on_machine_overflow attributes st c Hc).
  - intros db Hrun.
    destruct (process_xml_built _ _ Hsort Hrun) as (rows & empty & Hb).
    destruct Hb as [_ _ _ _ _ _ Hsizes Hmore]. split; [apply Hsizes | apply Hmore].
  - intros Hnot event file. unfold ListXmlTask.process, ListXmlTask.internalProcess.
    destruct (process_xml _ ctor) as [[db|error_message]|what|f]; simpl; [|  |done..].
    + by destruct (Hnot db).
    + destruct (ListXmlTask.hasAborted env); simpl; intros; by simplify_eq.
  - apply on_rom_size.
Qed.

End overflow_is_fatal.

(** ** The properties on the sample documents *)

Section sample_runs.
Import info info.binaries info.database_builder.

#[local] Existing Instance sample.declarations.

Lemma references_resolved_witness :
  SmallStrings /\
  StdSort /\
  process_xml sample.document ctor = Ok (Built (sample.database sample.document)) /\
  offsets_below (length (string_table.m_data (m_strings (sample.database sample.document)))) /\
  exists elements : list Attributes,
    elements ≡ₚ machine_elements (xml_events sample.document) /\
    Forall2 (fun a m =>
               reference_of (m_strings (sample.database sample.document))
                 (attribute_text a "name") (machine.m_name_strindex m) /\
               machine.m_clone_of_machindex m = resolve elements (attribute_text a "cloneof") /\
               machine.m_rom_of_machindex m = resolve elements (attribute_text a "romof"))
      elements (m_machines (sample.database sample.document)).
Proof.
  assert (Hbelow : offsets_below
            (length (string_table.m_data (m_strings (sample.database sample.document))))).
  { apply sample_offsets_below. vm_compute. discriminate. }
  split; [exact sample_small_strings|]. split; [exact sample_std_sort|].
  split; [vm_compute; reflexivity|]. split; [exact Hbelow|].
  apply (references_resolved sample.document (sample.database sample.document));
    [exact sample_small_strings | exact sample_std_sort | vm_compute; reflexivity | exact Hbelow].
Defined.

(** C2, the claim as it is written, at [sample.unnamed_document]: the
    table holds the machine named by the empty string at index 0 and "bbb"
    at index 1; the [cloneof] attribute of "bbb" is the empty string, the
    name of the machine at index 0; and [clone_of] of "bbb" is the sentinel,
    not 0. *)
Lemma cloneof_the_unnamed_machine :
  exists db,
    process_xml sample.unnamed_document ctor = Ok (Built db) /\
    database.machine_names db = Ok [EmptyString; "bbb"%string] /\
    (fun a => (attribute_text a "name", get_string a "cloneof"))
      <$> machine_elements (xml_events sample.unnamed_document)
      = [(EmptyString, None); ("bbb"%string, Some EmptyString)] /\
    machine.m_clone_of_machindex <$> m_machines db = [2 ^ 32 - 1; 2 ^ 32 - 1] /\
    2 ^ 32 - 1 <> 0.
Proof.
  exists (sample.database sample.unnamed_document).
  split_and!; [vm_compute; reflexivity.. | done].
Defined.

(** C4, the claim as it is written, at [sample.oversized_document]: the
    [size] attribute of the rom is 2^32, the database is built, the rom has
    the size 0, and the task writes the file and reports [SUCCESS]. *)
Lemma oversized_rom_size_is_built :
  exists db,
    process_xml sample.oversized_document ctor = Ok (Built db) /\
    rom.m_size <$> m_roms db = [0] /\
    ListXmlTask.process "info.db"
      {| ListXmlTask.listxml_output := sample.oversized_document;
         ListXmlTask.hasAborted := false;
         ListXmlTask.file_opens := true |}
    = Ok (ListXmlResultEvent.Build ListXmlResultEvent.SUCCESS EmptyString,
          Some (emit_info db)).
Proof.
  exists (sample.database sample.oversized_document).
  split_and!; vm_compute; reflexivity.
Defined.

Lemma table_size_overflow_is_fatal_witness :
  StdSort /\
  to_uint32 (2 ^ 32) = Throw "Array size cannot fit in 32 bits" /\
  to_uint32 (2 ^ 32 - 1) = Ok (2 ^ 32 - 1) /\
  (forall c, Z.of_nat (table_size c (sample.database sample.document)) < 2 ^ 32) /\
  (forall st st' u,
     on_rom [("name", "a.bin"); ("size", "4294967296")]%string st = Ok (u, st') ->
     exists r, last (m_roms (this st')) = Some r /\ rom.m_size r = 0).
Proof.
  destruct (table_size_overflow_is_fatal "info.db"
              {| ListXmlTask.listxml_output := sample.document;
                 ListXmlTask.hasAborted := false;
                 ListXmlTask.file_opens := true |} sample_std_sort)
    as (Hguard & _ & Hbuilt & _ & Hrom).
  split; [exact sample_std_sort|]. split_and!.
  - exact (Hguard (2 ^ 32) ltac:(lia)).
  - exact (Hguard (2 ^ 32 - 1) ltac:(lia)).
  - apply (Hbuilt (sample.database sample.document)). vm_compute; reflexivity.
  - intros st st' u Hrun. exact (Hrom _ st st' u Hrun).
Defined.

(** C5, the claim as it is written, at [sample.split_name], a string with a
    NUL after its first character: [lookup] of the reference that [get]
    returns is "a", not the string. *)
Lemma lookup_of_split_name :
  ('(r, table) ← string_table.get sample.split_name string_table.ctor;
   string_table.lookup r table) = Ok "a"%string /\
  "a"%string <> sample.split_name.
Proof. split; [vm_compute; reflexivity | discriminate]. Defined.

Lemma get_twice_and_lookup_witness :
  let table' :=
    string_table.Build
      (list_ascii_of_string "<STRINGSmachine" ++ [NUL])
      {[ "machine"%string := 8 ]} in
  string_table.get "machine" string_table.ctor = Ok (8, table') /\
  string_table.get "machine" table' = Ok (8, table') /\
  string_table.lookup 8 table' = Ok "machine"%string.
Proof.
  intros table'.
  assert (Hget : string_table.get "machine" string_table.ctor = Ok (8, table')).
  { vm_compute. reflexivity. }
  destruct (get_twice_and_lookup "machine" string_table.ctor table' 8 Hget) as [Hagain Hlookup].
  split; [exact Hget|]. split; [exact Hagain|].
  apply Hlookup.
  - exact sample_small_strings.
  - exact consistent_ctor.
  - apply sample_offsets_below. vm_compute. discriminate.
  - apply (bool_decide_unpack _). vm_compute. exact I.
Defined.

Lemma process_aborted_before_error_witness :
  let env := {| ListXmlTask.listxml_output := sample.stopped_document;
                ListXmlTask.hasAborted := true;
                ListXmlTask.file_opens := true |} in
  process_xml (ListXmlTask.listxml_output env) ctor = Ok (Failed "parsing aborted") /\
  ListXmlTask.process "info.db" env
  = Ok (ListXmlResultEvent.Build ListXmlResultEvent.ABORTED EmptyString, None).
Proof.
  intros env.
  assert (Hrun : process_xml (ListXmlTask.listxml_output env) ctor
                 = Ok (Failed "parsing aborted")).
  { vm_compute. reflexivity. }
  split; [exact Hrun|].
  apply (process_aborted_before_error "info.db" env _ Hrun). reflexivity.
Defined.

End sample_runs.

(** ** utility.h: string_split and string_join *)

Section string_split_properties.
Context {Char : Type}.
Implicit Types (str word rest : list Char) (is_delim : Char -> bool).

Lemma word_at_prefix (pre rest : list Char) (first : nat) :
  (first <= length pre)%nat ->
  util.word_at (pre ++ rest) first (length pre - first) = drop first pre.
Proof.
  intros Hfirst. unfold util.word_at. rewrite drop_app_le by done.
  rewrite take_app_length'; [done|]. rewrite length_drop. lia.
Qed.

Lemma string_split_loop_words str is_delim (pre rest : list Char) (word_begin : nat)
  (results : list (list Char)) :
  str = pre ++ rest ->
  (word_begin <= length pre)%nat ->
  (let '(word_begin', results') :=
     util.string_split_loop str is_delim rest (length pre) word_begin results in
   if (word_begin' <? length str)%nat
   then results' ++ [util.word_at str word_begin' (length str - word_begin')]
   else results')
  = results ++ words_of is_delim (drop word_begin pre) rest.
Proof.
  revert pre word_begin results.
  induction rest as [|ch rest IH]; intros pre word_begin results -> Hbegin; simpl.
  - rewrite app_nil_r.
    destruct (Nat.ltb_spec word_begin (length pre)) as [Hlt|Hge].
    + rewrite <- (app_nil_r pre) at 1. rewrite word_at_prefix by done.
      destruct (drop word_begin pre) eqn:Hdrop; [|done].
      apply (f_equal length) in Hdrop. rewrite length_drop in Hdrop. simpl in Hdrop. lia.
    + rewrite drop_ge by lia. by rewrite app_nil_r.
  - specialize (IH (pre ++ [ch])). rewrite length_app in IH. simpl in IH.
    replace (length pre + 1)%nat with (S (length pre)) in IH by lia.
    destruct (is_delim ch) eqn:Hch.
    + rewrite (IH (S (length pre))); [|by rewrite <- app_assoc|lia].
      rewrite drop_ge by (rewrite length_app; simpl; lia).
      destruct (Nat.ltb_spec word_begin (length pre)) as [Hlt|Hge].
      * rewrite word_at_prefix by done.
        destruct (drop word_begin pre) eqn:Hdrop; [|by rewrite <- app_assoc].
        apply (f_equal length) in Hdrop. rewrite length_drop in Hdrop. simpl in Hdrop. lia.
      * rewrite drop_ge by lia. done.
    + rewrite (IH word_begin); [|by rewrite <- app_assoc|lia].
      by rewrite drop_app_le by done.
Qed.

(** [string_split] returns the words of the text. *)
Lemma string_split_words str is_delim :
  util.string_split str is_delim = words_of is_delim [] str.
Proof.
  unfold util.string_split.
  pose proof (string_split_loop_words str is_delim [] str 0 [] eq_refl (Nat.le_refl _)) as Hloop.
  simpl in Hloop. destruct (util.string_split_loop _ _ _ _ _ _). exact Hloop.
Qed.

Lemma words_of_are_words is_delim word rest :
  Forall (fun ch => is_delim ch = false) word ->
  Forall (is_word is_delim) (words_of is_delim word rest) /\
  concat (words_of is_delim word rest)
  = word ++ filter (fun ch => is_delim ch = false) rest.
Proof.
  revert word. induction rest as [|ch rest IH]; intros word Hword; simpl.
  - rewrite app_nil_r. destruct word; [done|].
    split; [by constructor|simpl; by rewrite app_nil_r].
  - destruct (is_delim ch) eqn:Hch.
    + rewrite filter_cons_False by congruence.
      destruct (IH [] (Forall_nil_2 _)) as [Hall Hconcat]. simpl in Hconcat.
      destruct word as [|c word]; [done|]. split.
      * constructor; [done|done].
      * simpl. rewrite Hconcat. done.
    + rewrite filter_cons_True by done.
      destruct (IH (word ++ [ch])) as [Hall Hconcat].
      { apply Forall_app. split; [done|by constructor]. }
      split; [done|]. by rewrite Hconcat, <- app_assoc.
Qed.

(** X1. No word that [string_split] returns is empty or holds a delimiter,
    and the words, one after the other, are the text without its
    delimiters: nothing else is lost, and the order is kept. *)
Theorem string_split_gives_words str is_delim :
  Forall (is_word is_delim) (util.string_split str is_delim) /\
  concat (util.string_split str is_delim) = filter (fun ch => is_delim ch = false) str.
Proof. rewrite string_split_words. by apply words_of_are_words. Qed.

Lemma string_split_is_words str is_delim :
  Forall (is_word is_delim) (util.string_split str is_delim).
Proof. rewrite string_split_words. by apply words_of_are_words. Qed.

Lemma string_join_loop_false (delim : list Char) (collection : list (list Char))
  (func : list Char -> list Char) (result : list Char) :
  util.string_join_loop delim collection func result false
  = result ++ concat ((fun member => delim ++ func member) <$> collection).
Proof.
  revert result. induction collection as [|member collection IH]; intros result; simpl.
  - by rewrite app_nil_r.
  - rewrite IH. by rewrite <- !app_assoc.
Qed.

(** [string_join] puts the delimiter between the members, not before the
    first and not after the last. *)
Lemma string_join_with_cons (delim : list Char) (member : list Char)
  (collection : list (list Char)) (func : list Char -> list Char) :
  util.string_join_with delim (member :: collection) func
  = func member ++ concat ((fun member => delim ++ func member) <$> collection).
Proof. unfold util.string_join_with. simpl. apply string_join_loop_false. Qed.

Lemma words_of_word is_delim word more rest :
  Forall (fun ch => is_delim ch = false) more ->
  words_of is_delim word (more ++ rest) = words_of is_delim (word ++ more) rest.
Proof.
  revert word. induction more as [|ch more IH]; intros word Hmore; simpl.
  - by rewrite app_nil_r.
  - apply Forall_cons in Hmore as [-> Hmore]. rewrite IH by done.
    by rewrite <- app_assoc.
Qed.

Lemma words_of_delimiters is_delim (delim rest : list Char) :
  Forall (fun ch => is_delim ch = true) delim ->
  words_of is_delim [] (delim ++ rest) = words_of is_delim [] rest.
Proof.
  induction delim as [|ch delim IH]; intros Hdelim; simpl; [done|].
  apply Forall_cons in Hdelim as [-> Hdelim]. by apply IH.
Qed.

Lemma words_of_joined is_delim (delim word : list Char) (collection : list (list Char)) :
  delim <> [] ->
  Forall (fun ch => is_delim ch = true) delim ->
  is_word is_delim word ->
  Forall (is_word is_delim) collection ->
  words_of is_delim word (concat ((fun member => delim ++ member) <$> collection))
  = word :: collection.
Proof.
  intros Hne Hdelim. revert word.
  induction collection as [|member collection IH]; intros word [Hword Hfree] Hall; simpl.
  - by destruct word.
  - apply Forall_cons in Hall as [Hmember Hall].
    destruct delim as [|d delim]; [done|]. simpl.
    apply Forall_cons in Hdelim as [Hd Hdelim']. rewrite Hd.
    rewrite <- app_assoc, words_of_delimiters by done.
    rewrite words_of_word by apply Hmember. simpl.
    rewrite IH; [|done|done]. by destruct word.
Qed.

Lemma split_of_joined_words is_delim (delim : list Char) (collection : list (list Char)) :
  delim <> [] ->
  Forall (fun ch => is_delim ch = true) delim ->
  Forall (is_word is_delim) collection ->
  util.string_split (util.string_join delim collection) is_delim = collection.
Proof.
  intros Hne Hdelim Hall. rewrite string_split_words.
  destruct collection as [|member collection]; [done|].
  apply Forall_cons in Hall as [Hmember Hall].
  unfold util.string_join. rewrite string_join_with_cons.
  rewrite words_of_word by apply Hmember. simpl.
  by apply words_of_joined.
Qed.

(** X2. Round trip of a list of paths: when every member is a word (not
    empty, without a delimiter) and the text put between them is made of
    delimiters, at least one, [string_split] of [string_join] is the list of
    the members. *)
Theorem string_split_string_join is_delim (delim : list Char) (collection : list (list Char)) :
  delim <> [] ->
  Forall (fun ch => is_delim ch = true) delim ->
  Forall (is_word is_delim) collection ->
  util.string_split (util.string_join delim collection) is_delim = collection.
Proof. apply split_of_joined_words. Qed.

(** X3. Splitting a text, joining the words with a delimiter and splitting
    again gives the same words: what [string_join] writes for the words of a
    text is read back as those words. *)
Theorem string_split_join_split str is_delim (delim : list Char) :
  delim <> [] ->
  Forall (fun ch => is_delim ch = true) delim ->
  util.string_split (util.string_join delim (util.string_split str is_delim)) is_delim
  = util.string_split str is_delim.
Proof.
  intros Hne Hdelim. apply split_of_joined_words; [done..|].
  apply string_split_is_words.
Qed.

End string_split_properties.

(** ** utility.h: safe_static_cast *)

Lemma to_int_small (sz : Z) : 0 <= sz < 2 ^ 31 -> util.to_int sz = sz.
Proof. intros Hsz. unfold util.to_int. rewrite Z.mod_small; lia. Qed.

Lemma to_int_range (sz : Z) : - 2 ^ 31 <= util.to_int sz < 2 ^ 31.
Proof. unfold util.to_int. pose proof (Z.mod_pos_bound (sz + 2 ^ 31) (2 ^ 32)). lia. Qed.

Lemma to_int_top (size_bits sz : Z) :
  32 <= size_bits -> 2 ^ size_bits - 2 ^ 31 <= sz < 2 ^ size_bits ->
  util.to_int sz = sz - 2 ^ size_bits.
Proof.
  intros Hbits Hsz. unfold util.to_int.
  replace (2 ^ size_bits) with (2 ^ (size_bits - 32) * 2 ^ 32) in *
    by (rewrite <- Z.pow_add_r by lia; f_equal; lia).
  replace (sz + 2 ^ 31)
    with (sz - 2 ^ (size_bits - 32) * 2 ^ 32 + 2 ^ 31 + 2 ^ (size_bits - 32) * 2 ^ 32) by lia.
  rewrite Z.mod_add by lia. rewrite Z.mod_small; lia.
Qed.

(** X4. [safe_static_cast<int>] on a [size_t] of 32 bits or more: a size
    below 2^31 is returned as it is; from 2^31 on it throws "Overflow", but
    not for the 2^31 largest values of [size_t], for which the comparison
    converts the negative [int] back to the size: these are returned as
    negative numbers. *)
Theorem safe_static_cast_ranges (size_bits sz : Z) :
  32 <= size_bits ->
  0 <= sz < 2 ^ size_bits ->
  util.safe_static_cast size_bits sz =
    if decide (sz < 2 ^ 31) then Ok sz
    else if decide (sz < 2 ^ size_bits - 2 ^ 31) then Throw "Overflow"
    else Ok (sz - 2 ^ size_bits).
Proof.
  intros Hbits Hsz. unfold util.safe_static_cast.
  assert (Hpow : 2 ^ 32 <= 2 ^ size_bits) by (apply Z.pow_le_mono_r; lia).
  destruct (decide (sz < 2 ^ 31)) as [Hsmall|Hlarge].
  { rewrite to_int_small by lia. rewrite Z.mod_small by lia.
    by rewrite decide_False by (intros Hne; by destruct Hne). }
  destruct (decide (sz < 2 ^ size_bits - 2 ^ 31)) as [Hmid|Htop].
  - rewrite decide_True; [done|]. intros Heq.
    pose proof (to_int_range sz) as Hrange.
    destruct (decide (0 <= util.to_int sz)) as [Hpos|Hneg].
    + rewrite Z.mod_small in Heq by lia. lia.
    + assert (Hmod : util.to_int sz mod 2 ^ size_bits = util.to_int sz + 2 ^ size_bits).
      { replace (util.to_int sz)
          with (util.to_int sz + 2 ^ size_bits + (-1) * 2 ^ size_bits) at 1 by lia.
        rewrite Z.mod_add by lia. apply Z.mod_small. lia. }
      lia.
  - rewrite (to_int_top size_bits) by lia.
    assert (Hmod : (sz - 2 ^ size_bits) mod 2 ^ size_bits = sz).
    { replace (sz - 2 ^ size_bits) with (sz + (-1) * 2 ^ size_bits) by lia.
      rewrite Z.mod_add by lia. apply Z.mod_small. lia. }
    rewrite Hmod. by rewrite decide_False by (intros Hne; by destruct Hne).
Qed.

Lemma safe_static_cast_ranges_witness :
  32 <= 64 /\ 0 <= 2 ^ 64 - 1 < 2 ^ 64 /\
  util.safe_static_cast 64 (2 ^ 64 - 1) =
    if decide (2 ^ 64 - 1 < 2 ^ 31) then Ok (2 ^ 64 - 1)
    else if decide (2 ^ 64 - 1 < 2 ^ 64 - 2 ^ 31) then Throw "Overflow"
    else Ok (2 ^ 64 - 1 - 2 ^ 64).
Proof. split; [lia|]. split; [lia|]. apply safe_static_cast_ranges; lia. Defined.

(** ** utility.h: enum_parser_bidirectional *)

Lemma enum_parse_key {T} (parser : info.enum_parser T) (text : string) (value : T) :
  info.enum_parse parser text = Some value -> text ∈ parser.*1.
Proof.
  induction parser as [|[key v] parser IH]; simpl; [done|].
  destruct (decide (key = text)) as [->|Hne]; [intros; left|intros; right; auto].
Qed.

(** X5. What [operator[]] of a bidirectional parser writes for a value is
    read back by [operator()] as that value: for a table without a repeated
    string, every value of the table has a name, and parsing the name gives
    the value. *)
Theorem enum_name_parsed_back {T} `{EqDecision T} (parser : info.enum_parser T) (val : T) :
  NoDup parser.*1 ->
  val ∈ parser.*2 ->
  exists str, info.enum_name parser val = Some str /\ info.enum_parse parser str = Some val.
Proof.
  induction parser as [|[key v] parser IH]; simpl; intros Hkeys Hval.
  { by apply elem_of_nil in Hval. }
  apply NoDup_cons in Hkeys as [Hkey Hkeys].
  destruct (decide (v = val)) as [->|Hne].
  { exists key. by rewrite decide_True. }
  apply elem_of_cons in Hval as [->|Hval]; [done|].
  destruct (IH Hkeys Hval) as (str & Hname & Hparse).
  exists str. split; [done|]. rewrite decide_False; [done|].
  intros ->. apply Hkey. by eapply enum_parse_key.
Qed.

Lemma enum_name_parsed_back_witness :
  NoDup Preferences.s_list_view_type_parser.*1 /\
  Preferences.SOFTWARELIST ∈ Preferences.s_list_view_type_parser.*2 /\
  exists str,
    info.enum_name Preferences.s_list_view_type_parser Preferences.SOFTWARELIST = Some str /\
    info.enum_parse Preferences.s_list_view_type_parser str = Some Preferences.SOFTWARELIST.
Proof.
  assert (Hkeys : NoDup Preferences.s_list_view_type_parser.*1).
  { apply (bool_decide_unpack _). vm_compute. exact I. }
  assert (Hval : Preferences.SOFTWARELIST ∈ Preferences.s_list_view_type_parser.*2).
  { apply (bool_decide_unpack _). vm_compute. exact I. }
  split; [exact Hkeys|]. split; [exact Hval|].
  exact (enum_name_parsed_back _ _ Hkeys Hval).
Defined.

(** ** Strings *)

Lemma append_cons (ch : ascii) (a b : string) : String ch a +:+ b = String ch (a +:+ b).
Proof. reflexivity. Qed.

Lemma append_assoc (a b c : string) : (a +:+ b) +:+ c = a +:+ b +:+ c.
Proof. induction a as [|ch a IH]; [done|]. by rewrite !append_cons, IH. Qed.

Lemma append_nil_r (a : string) : a +:+ EmptyString = a.
Proof. induction a as [|ch a IH]; [done|]. by rewrite append_cons, IH. Qed.

Lemma append_nil (a b : string) : a +:+ b = EmptyString -> a = EmptyString /\ b = EmptyString.
Proof. by destruct a. Qed.

Lemma list_ascii_of_append (a b : string) :
  list_ascii_of_string (a +:+ b) = list_ascii_of_string a ++ list_ascii_of_string b.
Proof. induction a as [|ch a IH]; [done|]. rewrite append_cons. simpl. by rewrite IH. Qed.

Lemma string_of_list_ascii_app (l k : list ascii) :
  string_of_list_ascii (l ++ k) = string_of_list_ascii l +:+ string_of_list_ascii k.
Proof. induction l as [|ch l IH]; simpl; [done|by rewrite append_cons, IH]. Qed.

Lemma length_append (a b : string) :
  String.length (a +:+ b) = (String.length a + String.length b)%nat.
Proof. induction a as [|ch a IH]; [done|]. rewrite append_cons. simpl. by rewrite IH. Qed.

(** The last character of a text that ends with [ch]. *)
Lemma get_last_snoc (a : string) (ch : ascii) :
  String.get (String.length (a +:+ String ch EmptyString) - 1) (a +:+ String ch EmptyString)
  = Some ch.
Proof.
  rewrite length_append. simpl.
  replace (String.length a + 1 - 1)%nat with (String.length a) by lia.
  induction a as [|c a IH]; [done|]. rewrite append_cons. simpl. exact IH.
Qed.

Lemma chop_snoc (a : string) (ch : ascii) :
  RunMachineTask.chop (a +:+ String ch EmptyString) = a.
Proof.
  unfold RunMachineTask.chop. rewrite length_append. simpl.
  replace (String.length a + 1 - 1)%nat with (String.length a) by lia.
  induction a as [|c a IH]; [done|]. rewrite append_cons. simpl. by rewrite IH.
Qed.

(** ** runmachinetask.cpp: buildCommand *)

Lemma indexOf_lower (ch : ascii) (str : string) : -1 <= RunMachineTask.indexOf ch str.
Proof.
  induction str as [|c str IH]; simpl; [lia|].
  destruct (decide (c = ch)); [lia|]. destruct (Z.ltb_spec (RunMachineTask.indexOf ch str) 0); lia.
Qed.

Lemma indexOf_found (ch : ascii) (str : string) :
  0 <= RunMachineTask.indexOf ch str <-> ch ∈ list_ascii_of_string str.
Proof.
  induction str as [|c str IH]; simpl.
  - split; [lia|by intros ?%elem_of_nil].
  - destruct (decide (c = ch)) as [->|Hne].
    + split; [intros; left|lia].
    + rewrite elem_of_cons, <- IH.
      destruct (Z.ltb_spec (RunMachineTask.indexOf ch str) 0); split.
      * lia.
      * intros [->|?]; [done|lia].
      * intros _. right. lia.
      * lia.
Qed.

Lemma needs_quotes_quoted (command arg : string) :
  let needs_quotes :=
    bool_decide (arg = EmptyString) || (0 <=? RunMachineTask.indexOf " " arg) in
  let command1 :=
    if needs_quotes then command +:+ String RunMachineTask.QUOTE EmptyString else command in
  let command2 := command1 +:+ arg in
  (if needs_quotes then command2 +:+ String RunMachineTask.QUOTE EmptyString else command2)
  = command +:+ quoted arg.
Proof.
  cbv zeta. unfold quoted.
  destruct (decide (arg = EmptyString \/ " "%char ∈ list_ascii_of_string arg)) as [Hq|Hq].
  - replace (bool_decide (arg = EmptyString) || (0 <=? RunMachineTask.indexOf " " arg))
      with true; [by rewrite !append_assoc|].
    symmetry. apply orb_true_iff. destruct Hq as [Hq|Hq].
    + left. by apply bool_decide_eq_true.
    + right. apply Z.leb_le. by apply indexOf_found.
  - replace (bool_decide (arg = EmptyString) || (0 <=? RunMachineTask.indexOf " " arg))
      with false; [done|].
    symmetry. apply orb_false_iff. split.
    + apply bool_decide_eq_false. tauto.
    + apply Z.leb_gt. destruct (decide (0 <= RunMachineTask.indexOf " " arg)) as [Hi|Hi]; [|lia].
      apply indexOf_found in Hi. tauto.
Qed.

Lemma quoted_not_empty (arg : string) : quoted arg <> EmptyString.
Proof.
  unfold quoted. destruct (decide _) as [Hq|Hq]; [done|]. tauto.
Qed.

Lemma buildCommand_loop_concat (args : list string) (command : string) :
  RunMachineTask.buildCommand_loop args command =
    match args with
    | [] => command
    | _ => (if decide (command ≠ EmptyString) then command +:+ " " else command)
           +:+ String.concat " " (quoted <$> args)
    end.
Proof.
  revert command. induction args as [|arg args IH]; intros command; [done|].
  simpl. rewrite needs_quotes_quoted, IH.
  destruct args as [|arg' args]; [done|].
  rewrite decide_True.
  2:{ intros [_ Hq]%append_nil. by apply quoted_not_empty in Hq. }
  by rewrite !append_assoc.
Qed.

(** X6. The command line that [buildCommand] writes is its arguments, each
    between quotes when it is empty or holds a space and as it is otherwise,
    with one space between two arguments, followed by the end of the line;
    no argument is written as nothing. *)
Theorem buildCommand_arguments (args : list string) :
  RunMachineTask.buildCommand args = String.concat " " (quoted <$> args) +:+ CRLF /\
  Forall (fun arg => quoted arg <> EmptyString) args.
Proof.
  split; [|apply Forall_forall; intros; apply quoted_not_empty].
  unfold RunMachineTask.buildCommand. rewrite buildCommand_loop_concat.
  by destruct args.
Qed.

(** ** runmachinetask.cpp: ChatterEvent *)

Lemma string_snoc_inv (s : string) :
  s <> EmptyString -> exists a ch, s = a +:+ String ch EmptyString.
Proof.
  intros Hs. rewrite <- (string_of_list_ascii_of_string s) in *.
  destruct (list_ascii_of_string s) as [|c l _] using rev_ind; [done|].
  exists (string_of_list_ascii l), c. by rewrite string_of_list_ascii_app.
Qed.

Lemma last_list_ascii_snoc (a : string) (ch : ascii) :
  last (list_ascii_of_string (a +:+ String ch EmptyString)) = Some ch.
Proof. rewrite list_ascii_of_append. simpl. apply last_snoc. Qed.

Lemma line_ending_decide (ch : ascii) :
  bool_decide (ch = RunMachineTask.CR) || bool_decide (ch = RunMachineTask.LF) = true
  <-> line_ending ch.
Proof.
  unfold line_ending. rewrite orb_true_iff, !bool_decide_eq_true. done.
Qed.

(** The loop stops at once on a text that does not end with a line ending. *)
Lemma remove_line_endings_stops (fuel : nat) (body : string) :
  (forall ch, last (list_ascii_of_string body) = Some ch -> ~ line_ending ch) ->
  RunMachineTask.remove_line_endings fuel body = body.
Proof.
  intros Hbody. destruct fuel as [|fuel]; [done|]. simpl.
  destruct (decide (body = EmptyString)) as [->|Hne]; [done|].
  destruct (string_snoc_inv body Hne) as (a & ch & ->).
  rewrite get_last_snoc.
  replace (bool_decide (ch = RunMachineTask.CR) || bool_decide (ch = RunMachineTask.LF))
    with false; [by rewrite andb_false_r|].
  symmetry. apply not_true_iff_false. rewrite line_ending_decide.
  apply Hbody, last_list_ascii_snoc.
Qed.

Lemma remove_line_endings_body (fuel : nat) (body : string) (endings : list ascii) :
  (forall ch, last (list_ascii_of_string body) = Some ch -> ~ line_ending ch) ->
  Forall line_ending endings ->
  (length endings <= fuel)%nat ->
  RunMachineTask.remove_line_endings fuel (body +:+ string_of_list_ascii endings) = body.
Proof.
  intros Hbody. revert fuel.
  induction endings as [|e endings IH] using rev_ind; intros fuel Hall Hfuel.
  - simpl. rewrite append_nil_r. by apply remove_line_endings_stops.
  - apply Forall_app in Hall as [Hall He]. apply Forall_inv in He.
    rewrite length_app in Hfuel. simpl in Hfuel.
    destruct fuel as [|fuel]; [lia|].
    rewrite string_of_list_ascii_app. simpl string_of_list_ascii at 2.
    rewrite <- append_assoc. simpl.
    rewrite get_last_snoc, chop_snoc.
    apply line_ending_decide in He. rewrite He.
    rewrite bool_decide_true.
    2:{ intros [_ Hnil]%append_nil. done. }
    simpl. apply IH; [done|lia].
Qed.

(** Every text is a body that does not end with a line ending, followed by
    line endings. *)
Lemma line_endings_split (l : list ascii) :
  exists body endings,
    l = body ++ endings /\ Forall line_ending endings /\
    (forall ch, last body = Some ch -> ~ line_ending ch).
Proof.
  induction l as [|c l IH] using rev_ind.
  - exists [], []. split; [done|]. split; [constructor|done].
  - destruct (decide (line_ending c)) as [Hc|Hc].
    + destruct IH as (body & endings & -> & Hall & Hbody).
      exists body, (endings ++ [c]). split; [by rewrite app_assoc|].
      split; [|done]. apply Forall_app. split; [done|by constructor].
    + exists (l ++ [c]), []. split; [by rewrite app_nil_r|].
      split; [constructor|]. intros ch. rewrite last_snoc. by intros [= <-].
Qed.

(** X7. The text of a [ChatterEvent] is the text given to the constructor
    without the carriage returns and line feeds at its end: all of them are
    removed, and nothing before them. *)
Theorem ChatterEvent_removes_line_endings (type : RunMachineTask.ChatterType) (text : string) :
  exists body endings : string,
    text = body +:+ endings /\
    Forall line_ending (list_ascii_of_string endings) /\
    (forall ch, last (list_ascii_of_string body) = Some ch -> ~ line_ending ch) /\
    RunMachineTask.ChatterEvent_ctor type text = RunMachineTask.Build_chatter type body.
Proof.
  destruct (line_endings_split (list_ascii_of_string text)) as (body & endings & Hl & Hall & Hbody).
  exists (string_of_list_ascii body), (string_of_list_ascii endings).
  assert (Htext : text = string_of_list_ascii body +:+ string_of_list_ascii endings).
  { by rewrite <- string_of_list_ascii_app, <- Hl, string_of_list_ascii_of_string. }
  rewrite !list_ascii_of_string_of_list_ascii. split_and!; [done..|].
  unfold RunMachineTask.ChatterEvent_ctor. f_equal.
  rewrite Htext at 2. apply remove_line_endings_body.
  - by rewrite list_ascii_of_string_of_list_ascii.
  - done.
  - rewrite Htext, length_append.
    rewrite <- (length_list_ascii_of_string (string_of_list_ascii endings)).
    rewrite list_ascii_of_string_of_list_ascii. lia.
Qed.

(** ** runmachinetask.cpp: the message queue *)

Lemma issue_all (argss : list (list string)) (queue : list RunMachineTask.Message.t) :
  foldl (fun queue args => RunMachineTask.issue args queue) queue argss
  = queue ++ ((fun args =>
                 RunMachineTask.Message.Build RunMachineTask.Message.COMMAND
                   (RunMachineTask.buildCommand args) RunMachineTask.INVALID) <$> argss).
Proof.
  revert queue. induction argss as [|args argss IH]; intros queue; simpl.
  - by rewrite app_nil_r.
  - rewrite IH. unfold RunMachineTask.issue, RunMachineTask.internalPost.
    by rewrite <- app_assoc.
Qed.

Lemma issued_commands_until (commands : list string) (status : Z)
  (later : list RunMachineTask.Message.t) :
  let queue :=
    ((fun command =>
        RunMachineTask.Message.Build RunMachineTask.Message.COMMAND command
          RunMachineTask.INVALID) <$> commands)
    ++ RunMachineTask.Message.Build RunMachineTask.Message.TERMINATED EmptyString status
    :: later in
  RunMachineTask.issued_commands queue = commands /\
  RunMachineTask.await_termination queue = inl (Some status).
Proof.
  induction commands as [|command commands [IH1 IH2]]; simpl; [done|].
  split; [by f_equal|done].
Qed.

Lemma error_running_not_empty (number : Z -> string) (status : Z) :
  RunMachineTask.error_running number status <> EmptyString.
Proof. done. Qed.

(** X8. No command is lost and none is sent after the end: when the
    inaugural response is OK and the queue received the commands of some
    calls of [issue] and then the termination of the child with a status,
    whatever is posted later, [process] gives the controller the command
    line of each call, in the order of the calls, and then posts the
    completion event, whose error message is empty exactly when the status
    is [NONE]. *)
Theorem commands_issued_in_order (number : Z -> string) (s : RunMachineTask.session)
  (argss : list (list string)) (status : Z) (later : list RunMachineTask.Message.t) :
  RunMachineTask.Response.m_type (RunMachineTask.inaugural s) = RunMachineTask.Response.Ok ->
  RunMachineTask.messages s
  = RunMachineTask.onChildProcessCompleted status
      (foldl (fun queue args => RunMachineTask.issue args queue) [] argss) ++ later ->
  RunMachineTask.issued_commands (RunMachineTask.messages s)
  = RunMachineTask.buildCommand <$> argss /\
  exists event,
    RunMachineTask.process number s = RunMachineTask.Posted event /\
    (RunMachineTask.m_errorMessage event = EmptyString <-> status = RunMachineTask.NONE).
Proof.
  intros Hok Hmessages.
  rewrite issue_all in Hmessages. simpl in Hmessages.
  unfold RunMachineTask.onChildProcessCompleted, RunMachineTask.internalPost in Hmessages.
  rewrite <- app_assoc in Hmessages. simpl in Hmessages.
  rewrite (list_fmap_compose RunMachineTask.buildCommand
             (fun command => RunMachineTask.Message.Build RunMachineTask.Message.COMMAND
                               command RunMachineTask.INVALID)) in Hmessages.
  destruct (issued_commands_until (RunMachineTask.buildCommand <$> argss) status later)
    as [Hissued Hawait].
  rewrite <- Hmessages in Hissued, Hawait. split; [done|].
  unfold RunMachineTask.process. rewrite Hok, Hawait. simpl.
  eexists. split; [done|]. simpl.
  destruct (decide (status ≠ RunMachineTask.NONE)) as [Hne|Heq].
  - split; [|done]. destruct (RunMachineTask.standard_error s); simpl; done.
  - apply dec_stable in Heq. done.
Qed.

Lemma commands_issued_in_order_witness :
  let s := {| RunMachineTask.inaugural :=
                RunMachineTask.Response.Build RunMachineTask.Response.Ok EmptyString;
              RunMachineTask.scraped := EmptyString;
              RunMachineTask.messages :=
                RunMachineTask.onChildProcessKilled
                  (RunMachineTask.abort
                     (RunMachineTask.issue ["load"; "flop1"; "my disk.dsk"]%string []));
              RunMachineTask.standard_error := EmptyString |} in
  RunMachineTask.Response.m_type (RunMachineTask.inaugural s) = RunMachineTask.Response.Ok /\
  RunMachineTask.issued_commands (RunMachineTask.messages s)
  = RunMachineTask.buildCommand <$> [["load"; "flop1"; "my disk.dsk"]; ["exit"]]%string /\
  exists event,
    RunMachineTask.process (fun _ => "1001"%string) s = RunMachineTask.Posted event /\
    (RunMachineTask.m_errorMessage event = EmptyString
     <-> RunMachineTask.KILLED = RunMachineTask.NONE).
Proof.
  intros s. split; [reflexivity|].
  apply (commands_issued_in_order _ s [["load"; "flop1"; "my disk.dsk"]; ["exit"]]%string
           RunMachineTask.KILLED []); reflexivity.
Defined.

(** ** listxmltask.cpp: the result of the task *)

Section ListXmlTask_result.
Context `{info.Declarations}.
Variable m_outputFilename : string.
Import ListXmlTask.

(** X9. The task reports [SUCCESS] exactly when it wrote the file; then no
    abort was pending, [process_xml] built a database, the file is what
    [emit_info] writes for it, and the message of the event is empty. *)
Theorem process_success_iff_file (env : environment) (event : ListXmlResultEvent.t)
  (file : option (list info.database_builder.written)) :
  process m_outputFilename env = Ok (event, file) ->
  (ListXmlResultEvent.status event = ListXmlResultEvent.SUCCESS <-> is_Some file) /\
  (forall written,
     file = Some written ->
     hasAborted env = false /\
     file_opens env = true /\
     ListXmlResultEvent.errorMessage event = EmptyString /\
     exists builder,
       info.database_builder.process_xml (listxml_output env) info.database_builder.ctor
       = Ok (info.database_builder.Built builder) /\
       written = info.database_builder.emit_info builder).
Proof.
  unfold process, internalProcess.
  destruct (info.database_builder.process_xml _ _) as [[builder|error_message]|what|f];
    simpl; [| |done..].
  - destruct (hasAborted env) eqn:Habort; simpl.
    { intros; simplify_eq/=. split; [split; [done|by intros []]|done]. }
    destruct (file_opens env) eqn:Hopens; simpl; intros; simplify_eq/=.
    + split; [split; eauto|]. intros written [= <-]. split_and!; [done..|]. by exists builder.
    + split; [split; [done|by intros []]|done].
  - destruct (hasAborted env); simpl; intros; simplify_eq/=;
      (split; [split; [done|by intros []]|done]).
Qed.

End ListXmlTask_result.

Lemma process_success_iff_file_witness :
  let env := {| ListXmlTask.listxml_output := sample.document;
                ListXmlTask.hasAborted := false;
                ListXmlTask.file_opens := true |} in
  let event := ListXmlResultEvent.Build ListXmlResultEvent.SUCCESS EmptyString in
  let file := Some (info.database_builder.emit_info (sample.database sample.document)) in
  ListXmlTask.process (H := sample.declarations) "info.db" env = Ok (event, file) /\
  (ListXmlResultEvent.status event = ListXmlResultEvent.SUCCESS <-> is_Some file).
Proof.
  intros env event file.
  assert (Hrun : ListXmlTask.process (H := sample.declarations) "info.db" env = Ok (event, file)).
  { vm_compute. reflexivity. }
  split; [exact Hrun|].
  exact (proj1 (process_success_iff_file (H := sample.declarations) "info.db" env event file Hrun)).
Defined.

(** ** info_builder.cpp: a checksum of full length *)






(** ** info_builder.cpp: references of the string table *)

Section string_references.
Context `{info.Declarations}.
Import info.

(** X11. References stay valid and tell strings apart: when [get] returned
    a reference for a string and then one for a second string, [lookup] in
    the table as it is then gives each string back for its reference, and
    the two references are equal exactly when the strings are. The strings
    hold no NUL, the table is one the builder can hold, the small strings
    decode to what they encode and no offset of the table is the encoding of
    a small string. *)
Theorem references_stay_valid (s1 s2 : string) (t0 t1 t2 : string_table.t) (r1 r2 : Z) :
  SmallStrings ->
  consistent t0 ->
  no_NUL s1 -> no_NUL s2 ->
  string_table.get s1 t0 = Ok (r1, t1) ->
  string_table.get s2 t1 = Ok (r2, t2) ->
  offsets_below (length (string_table.m_data t2)) ->
  string_table.lookup r1 t2 = Ok s1 /\
  string_table.lookup r2 t2 = Ok s2 /\
  (r1 = r2 <-> s1 = s2).
Proof.
  intros Hcodec Hc0 Hs1 Hs2 Hget1 Hget2 Hbelow.
  destruct (get_returns _ _ _ _ Hc0 Hget1) as (Hc1 & _ & Href1).
  destruct (get_returns _ _ _ _ Hc1 Hget2) as (Hc2 & Hext & Href2).
  pose proof (reference_of_extends _ _ _ _ Hext Href1) as Href1'.
  split_and!.
  - by apply lookup_reference.
  - by apply lookup_reference.
  - split.
    + intros <-. by apply (reference_of_injective t2 s1 s2 r1).
    + intros <-. by apply (reference_of_unique t2 s1).
Qed.

End string_references.

Lemma references_stay_valid_witness :
  let t1 := info.string_table.Build
              (list_ascii_of_string "<STRINGSmachine" ++ [NUL])
              {[ "machine"%string := 8 ]} in
  let t2 := info.string_table.Build
              (list_ascii_of_string "<STRINGSmachine" ++ [NUL]
               ++ list_ascii_of_string "device" ++ [NUL])
              (<[ "device"%string := 16 ]> {[ "machine"%string := 8 ]}) in
  info.string_table.get (H := sample.declarations) "machine" info.string_table.ctor = Ok (8, t1) /\
  info.string_table.get (H := sample.declarations) "device" t1 = Ok (16, t2) /\
  info.string_table.lookup (H := sample.declarations) 8 t2 = Ok "machine"%string /\
  info.string_table.lookup (H := sample.declarations) 16 t2 = Ok "device"%string /\
  (8 = 16 <-> "machine"%string = "device"%string).
Proof.
  intros t1 t2.
  assert (Hget1 : info.string_table.get (H := sample.declarations) "machine" info.string_table.ctor
                  = Ok (8, t1)) by (vm_compute; reflexivity).
  assert (Hget2 : info.string_table.get (H := sample.declarations) "device" t1 = Ok (16, t2))
    by (vm_compute; reflexivity).
  split; [exact Hget1|]. split; [exact Hget2|].
  apply (references_stay_valid (H := sample.declarations) "machine" "device"
           info.string_table.ctor t1 t2 8 16).
  - exact sample_small_strings.
  - exact consistent_ctor.
  - apply (bool_decide_unpack _). vm_compute. exact I.
  - apply (bool_decide_unpack _). vm_compute. exact I.
  - exact Hget1.
  - exact Hget2.
  - apply sample_offsets_below. vm_compute. discriminate.
Defined.

(** ** info_builder.cpp: the driver element *)

Lemma alter_last_snoc {A} (f : A -> A) (l : list A) (x : A) :
  alter f (Nat.pred (length (l ++ [x]))) (l ++ [x]) = l ++ [f x].
Proof.
  rewrite length_app. simpl. replace (Nat.pred (length l + 1)) with (length l + 0)%nat by lia.
  by rewrite alter_app_r.
Qed.

Section driver_properties.
Context `{info.Declarations}.
Import info info.binaries info.database_builder.


End driver_properties.


(** ** info_builder.cpp: the extensions of a device *)

Section device_properties.
Context `{info.Declarations}.
Import info info.binaries info.database_builder.

(** The extension elements of a device only add to the text collected. *)
Lemma parse_extensions (extensions : list Attributes) (st : captures) :
  exists st',
    parse (ElementBegin ["mame"; "machine"; "device"; "extension"]%string <$> extensions) st
    = Ok (tt, st') /\
    this st' = this st /\
    current_device_extensions st'
    = current_device_extensions st +:+ listed (omap (fun a => get_string a "name") extensions).
Proof.
  revert st. induction extensions as [|a extensions IH]; intros st.
  { exists st. simpl. by rewrite append_nil_r. }
  rewrite fmap_cons. cbn [parse]. unfold mbind at 1, M_bind.
  change (dispatch (ElementBegin ["mame"; "machine"; "device"; "extension"]%string a) st)
    with (on_device_extension a st).
  unfold on_device_extension. simpl omap.
  destruct (get_string a "name") as [name|] eqn:Hname.
  - unfold update_extensions. simpl.
    destruct (IH (st <| current_device_extensions ::=
                         (fun extensions => extensions +:+ name +:+ ",") |>))
      as (st' & Hrun & Hthis & Htext).
    exists st'. split; [exact Hrun|]. split; [done|].
    rewrite Htext. simpl. by rewrite !append_assoc.
  - simpl. apply IH.
Qed.

Lemma listed_empty (names : list string) : listed names = EmptyString <-> names = [].
Proof.
  destruct names as [|name names]; [done|]. split; [|done].
  simpl. intros [_ Hrest]%append_nil. done.
Qed.

(** X13. A device element with its extension elements: when the device
    ends, the record of the device refers to the names of the extensions
    that have one, in the order of the elements, each followed by a comma;
    without such an extension the reference stays 0. *)
Theorem device_extensions_collected (attributes : Attributes) (extensions : list Attributes)
  (content : string) (st st' : captures) (u : unit) :
  parse (ElementBegin ["mame"; "machine"; "device"]%string attributes
         :: (ElementBegin ["mame"; "machine"; "device"; "extension"]%string <$> extensions)
         ++ [ElementEnd ["mame"; "machine"; "device"]%string content]) st
  = Ok (u, st') ->
  let names := omap (fun a => get_string a "name") extensions in
  exists d,
    last (m_devices (this st')) = Some d /\
    length (m_devices (this st')) = S (length (m_devices (this st))) /\
    (names = [] -> device.m_extensions_strindex d = 0) /\
    (names <> [] ->
     reference_of (m_strings (this st')) (listed names) (device.m_extensions_strindex d)).
Proof.
  intros Hrun names. cbn [parse] in Hrun.
  apply M_bind_Ok in Hrun as ([] & st1 & Hbegin & Hrun).
  change (dispatch (ElementBegin ["mame"; "machine"; "device"]%string attributes) st)
    with (on_device attributes st) in Hbegin.
  rewrite parse_app in Hrun.
  destruct (parse_extensions extensions st1) as (st2 & Hexts & Hthis & Htext).
  rewrite Hexts in Hrun. cbn [parse] in Hrun. apply M_bind_Ok in Hrun as ([] & st3 & Hend & Hret).
  apply M_ret_Ok in Hret as [_ ->].
  change (dispatch (ElementEnd ["mame"; "machine"; "device"]%string content) st2)
    with (on_device_end content st2) in Hend.
  unfold on_device in Hbegin. run_callback Hbegin.
  cbn in Htext, Hthis. fold names in Htext.
  unfold on_device_end in Hend. run_callback Hend.
  rewrite Htext in Hend.
  change (EmptyString +:+ listed names) with (listed names) in Hend.
  destruct (decide (listed names ≠ EmptyString)) as [Hne|Heq].
  - run_callback Hend. cbn. rewrite !Hthis. cbn.
    rewrite alter_last_snoc. eexists. split; [apply last_snoc|].
    split; [rewrite !length_app; simpl; lia|]. split.
    + intros Hnames. destruct Hne. by apply listed_empty.
    + intros _. simpl. by eapply get_reference.
  - apply M_ret_Ok in Hend as [_ ->]. rewrite Hthis. cbn.
    eexists. split; [apply last_snoc|].
    split; [rewrite !length_app; simpl; lia|]. split; [done|].
    intros Hnames. destruct Heq. by rewrite listed_empty.
Qed.

End device_properties.

(** ** info_builder.cpp: the header *)

Lemma salt_loop_inverse (original salt_value salted : list Z) (i : nat) :
  util.salt_loop original salt_value i = Ok salted ->
  util.salt_loop salted salt_value i = Ok original.
Proof.
  revert salted i. induction original as [|b original IH]; intros salted i; simpl.
  { by intros [= <-]. }
  destruct (length salt_value =? 0)%nat eqn:Hlen; [done|].
  destruct (salt_value !! (i mod length salt_value)%nat) as [s|] eqn:Hs; [|done].
  intros Hrun. apply bind_Ok in Hrun as (rest & Hrest & Hrun). injection Hrun as <-.
  simpl. rewrite Hlen, Hs, (IH _ _ Hrest). simpl. by rewrite lxor_twice.
Qed.

Section header_properties.
Context `{info.Declarations}.
Import info info.binaries info.database_builder.

(** No callback changes the magic number or the hash of the sizes. *)
Lemma dispatch_header (event : xml_event) (st st' : captures) (u : unit) :
  dispatch event st = Ok (u, st') ->
  header.m_magic (header st') = header.m_magic (header st) /\
  header.m_sizes_hash (header st') = header.m_sizes_hash (header st).
Proof.
  intros Hrun. destruct event as [path attributes|path content];
    unfold dispatch, begin_callbacks, end_callbacks in Hrun; cbn [find_callback] in Hrun.
  - repeat
      match type of Hrun with
      | context [decide (path ∈ ?paths)] =>
          destruct (decide (path ∈ paths)) as [_|_];
          [ unfold on_mame, on_machine, on_biosset, on_rom, on_disk, on_feature, on_chip,
              on_display, on_sample, on_configuration, on_configuration_setting,
              on_configuration_condition, on_device, on_device_instance,
              on_device_extension, on_driver, on_slot, on_slot_option, on_software_list,
              on_ram_option, on_sound in Hrun;
            try (destruct (get_string attributes "name"));
            run_callback Hrun; done
          | ]
      end.
    by apply M_ret_Ok in Hrun as [_ ->].
  - repeat
      match type of Hrun with
      | context [decide (path ∈ ?paths)] =>
          destruct (decide (path ∈ paths)) as [_|_];
          [ unfold on_description_end, on_year_end, on_manufacturer_end, on_device_end,
              on_ram_option_end in Hrun;
            run_callback Hrun;
            try (destruct (decide _); run_callback Hrun); done
          | ]
      end.
    by apply M_ret_Ok in Hrun as [_ ->].
Qed.

Lemma parse_header (events : list xml_event) (st st' : captures) (u : unit) :
  parse events st = Ok (u, st') ->
  header.m_magic (header st') = header.m_magic (header st) /\
  header.m_sizes_hash (header st') = header.m_sizes_hash (header st).
Proof.
  revert st. induction events as [|event events IH]; intros st Hrun; simpl in Hrun.
  - by apply M_ret_Ok in Hrun as [_ ->].
  - apply M_bind_Ok in Hrun as (u1 & st1 & Hstep & Hrun).
    destruct (IH _ Hrun) as [-> ->]. by eapply dispatch_header.
Qed.

(** "finalize the header": the builder stays as it is, and the header gets
    the sizes of the tables as counts. *)
Lemma finalize_header_Ok (st st' : captures) (u : unit) :
  finalize_header st = Ok (u, st') ->
  this st' = this st /\
  header.m_magic (header st') = header.m_magic (header st) /\
  header.m_sizes_hash (header st') = header.m_sizes_hash (header st) /\
  header.m_machines_count (header st') = size (m_machines (this st)) /\
  header.m_biossets_count (header st') = size (m_biossets (this st)) /\
  header.m_roms_count (header st') = size (m_roms (this st)) /\
  header.m_disks_count (header st') = size (m_disks (this st)) /\
  header.m_devices_count (header st') = size (m_devices (this st)) /\
  header.m_slots_count (header st') = size (m_slots (this st)) /\
  header.m_slot_options_count (header st') = size (m_slot_options (this st)) /\
  header.m_features_count (header st') = size (m_features (this st)) /\
  header.m_chips_count (header st') = size (m_chips (this st)) /\
  header.m_displays_count (header st') = size (m_displays (this st)) /\
  header.m_samples_count (header st') = size (m_samples (this st)) /\
  header.m_configurations_count (header st') = size (m_configurations (this st)) /\
  header.m_configuration_settings_count (header st')
  = size (m_configuration_settings (this st)) /\
  header.m_configuration_conditions_count (header st')
  = size (m_configuration_conditions (this st)) /\
  header.m_software_lists_count (header st') = size (m_software_lists (this st)) /\
  header.m_ram_options_count (header st') = size (m_ram_options (this st)).
Proof.
  intros Hrun. unfold finalize_header in Hrun.
  destruct st as [b h extensions]. destruct h.
  run_callback Hrun. cbn. split_and!; reflexivity.
Qed.

Lemma same_tables_refl (b : t) : same_tables b b.
Proof. unfold same_tables. split_and!; reflexivity. Qed.

Lemma same_tables_trans (b1 b2 b3 : t) :
  same_tables b1 b2 -> same_tables b2 b3 -> same_tables b1 b3.
Proof.
  unfold same_tables. intros H12 H23. destruct_and!. split_and!; congruence.
Qed.

Lemma salt_header_Ok (st st' : captures) (u : unit) :
  salt_header st = Ok (u, st') ->
  util.salt (header_bytes (header st)) binaries_salt = Ok (m_salted_header (this st')) /\
  m_machines (this st') = m_machines (this st) /\
  same_tables (this st) (this st').
Proof.
  unfold salt_header. intros Hrun. apply bind_Ok in Hrun as (salted & Hsalted & Hrun).
  injection Hrun as _ <-. split; [done|]. destruct st as [b h extensions].
  destruct b. unfold same_tables. cbn. split_and!; reflexivity.
Qed.

Lemma sort_machines_Ok (st st' : captures) (u : unit) :
  sort_machines st = Ok (u, st') ->
  m_salted_header (this st') = m_salted_header (this st) /\
  same_tables (this st) (this st') /\
  (StdSort -> length (m_machines (this st')) = length (m_machines (this st))).
Proof.
  unfold sort_machines. intros Hrun.
  apply bind_Ok in Hrun as (named & Hnamed & Hrun). injection Hrun as _ <-.
  apply mapM_outcome_Ok in Hnamed.
  assert (Hlen : StdSort ->
            length (std_sort _ name_less named).*2 = length (m_machines (this st))).
  { intros Hsort.
    rewrite length_fmap, (Permutation_length (std_sort_permutation _ name_less named)).
    by rewrite (Forall2_length _ _ _ Hnamed). }
  destruct st as [b h extensions]. destruct b. unfold same_tables. cbn in *.
  split_and!; done.
Qed.

Lemma resolve_machine_indexes_Ok (st st' : captures) (u : unit) :
  resolve_machine_indexes st = Ok (u, st') ->
  m_salted_header (this st') = m_salted_header (this st) /\
  same_tables (this st) (this st') /\
  length (m_machines (this st')) = length (m_machines (this st)).
Proof.
  intros Hrun. unfold resolve_machine_indexes in Hrun. run_callback Hrun.
  destruct st as [b h extensions]. destruct b. unfold same_tables. cbn.
  rewrite length_fmap. split_and!; reflexivity.
Qed.

(** The steps of the finalization, one after the other. *)
Lemma finalize_steps (st st' : captures) (u : unit) :
  finalize st = Ok (u, st') ->
  exists st1 : captures,
    same_tables (this st) (this st1) /\
    m_machines (this st1) = m_machines (this st) /\
    header.m_magic (header st1) = header.m_magic (header st) /\
    header.m_sizes_hash (header st1) = header.m_sizes_hash (header st) /\
    header.m_machines_count (header st1) = size (m_machines (this st1)) /\
    header.m_biossets_count (header st1) = size (m_biossets (this st1)) /\
    header.m_roms_count (header st1) = size (m_roms (this st1)) /\
    header.m_disks_count (header st1) = size (m_disks (this st1)) /\
    header.m_devices_count (header st1) = size (m_devices (this st1)) /\
    header.m_slots_count (header st1) = size (m_slots (this st1)) /\
    header.m_slot_options_count (header st1) = size (m_slot_options (this st1)) /\
    header.m_features_count (header st1) = size (m_features (this st1)) /\
    header.m_chips_count (header st1) = size (m_chips (this st1)) /\
    header.m_displays_count (header st1) = size (m_displays (this st1)) /\
    header.m_samples_count (header st1) = size (m_samples (this st1)) /\
    header.m_configurations_count (header st1) = size (m_configurations (this st1)) /\
    header.m_configuration_settings_count (header st1)
    = size (m_configuration_settings (this st1)) /\
    header.m_configuration_conditions_count (header st1)
    = size (m_configuration_conditions (this st1)) /\
    header.m_software_lists_count (header st1) = size (m_software_lists (this st1)) /\
    header.m_ram_options_count (header st1) = size (m_ram_options (this st1)) /\
    util.salt (header_bytes (header st1)) binaries_salt = Ok (m_salted_header (this st')) /\
    same_tables (this st1) (this st') /\
    (StdSort -> length (m_machines (this st')) = length (m_machines (this st1))).
Proof.
  intros Hrun. unfold finalize in Hrun.
  apply M_bind_Ok in Hrun as ([] & st0 & Hembed & Hrun). apply update_Ok in Hembed.
  apply M_bind_Ok in Hrun as ([] & st1 & Hheader & Hrun).
  apply M_bind_Ok in Hrun as ([] & st2 & Hsalt & Hrun).
  apply M_bind_Ok in Hrun as ([] & st3 & Hsorted & Hrun).
  apply finalize_header_Ok in Hheader as (Hthis1 & Hmagic & Hhash & Hfields).
  apply salt_header_Ok in Hsalt as (Hsalted & Hmachines2 & Hsame2).
  apply sort_machines_Ok in Hsorted as (Hsalted3 & Hsame3 & Hlen3).
  apply resolve_machine_indexes_Ok in Hrun as (Hsalted' & Hsame' & Hlen').
  assert (Hthis0 : same_tables (this st) (this st0) /\ header st0 = header st /\
                   m_machines (this st0) = m_machines (this st)).
  { rewrite Hembed. destruct st as [b h extensions]. destruct b.
    unfold same_tables. cbn. split_and!; reflexivity. }
  destruct Hthis0 as (Hsame0 & Hheader0 & Hmachines0).
  exists st1. rewrite Hthis1. rewrite Hheader0 in Hmagic, Hhash.
  split; [exact Hsame0|]. split; [exact Hmachines0|].
  split; [exact Hmagic|]. split; [exact Hhash|].
  rewrite Hsalted', Hsalted3.
  repeat (split; [apply Hfields|]).
  split; [exact Hsalted|]. split.
  - rewrite <- Hthis1. eapply same_tables_trans; [exact Hsame2|].
    eapply same_tables_trans; [exact Hsame3|exact Hsame'].
  - intros Hsort. rewrite Hlen', (Hlen3 Hsort), Hmachines2. by rewrite Hthis1.
Qed.

Lemma finalize_same (st st' : captures) (u : unit) :
  finalize st = Ok (u, st') -> same_tables (this st) (this st').
Proof.
  intros (st1 & Hsame0 & Hrest)%finalize_steps.
  eapply same_tables_trans; [exact Hsame0|]. apply Hrest.
Qed.

(** X14. The header of a built database: taking the salt off the header
    that [emit_info] writes gives a header with the magic number, the hash
    of the sizes, and for each of the sixteen tables the number of records
    of the table as it is written. *)
Theorem header_counts_tables (input : xml_document) (db : t) :
  StdSort ->
  process_xml input ctor = Ok (Built db) ->
  exists h : header.t,
    util.salt (m_salted_header db) binaries_salt = Ok (header_bytes h) /\
    header.m_magic h = MAGIC_HDR /\
    header.m_sizes_hash h = calculate_sizes_hash /\
    header.m_machines_count h = size (m_machines db) /\
    header.m_biossets_count h = size (m_biossets db) /\
    header.m_roms_count h = size (m_roms db) /\
    header.m_disks_count h = size (m_disks db) /\
    header.m_devices_count h = size (m_devices db) /\
    header.m_slots_count h = size (m_slots db) /\
    header.m_slot_options_count h = size (m_slot_options db) /\
    header.m_features_count h = size (m_features db) /\
    header.m_chips_count h = size (m_chips db) /\
    header.m_displays_count h = size (m_displays db) /\
    header.m_samples_count h = size (m_samples db) /\
    header.m_configurations_count h = size (m_configurations db) /\
    header.m_configuration_settings_count h = size (m_configuration_settings db) /\
    header.m_configuration_conditions_count h = size (m_configuration_conditions db) /\
    header.m_software_lists_count h = size (m_software_lists db) /\
    header.m_ram_options_count h = size (m_ram_options db).
Proof.
  intros Hsort Hrun.
  apply process_xml_Built in Hrun as (st & st' & u & u' & Hparse & Hfin & ->).
  destruct (parse_header _ _ _ _ Hparse) as [Hmagic Hhash].
  apply finalize_steps in Hfin
    as (st1 & _ & _ & Hm & Hh & Hmachines & Hfields).
  exists (header st1).
  destruct Hfields as (Hb & Hr & Hd & Hdev & Hsl & Hso & Hf & Hc & Hdi & Hsa & Hco & Hcs
                       & Hcc & Hsw & Hra & Hsalt & Hsame & Hlen).
  split; [by apply salt_loop_inverse|].
  split; [by rewrite Hm, Hmagic|]. split; [by rewrite Hh, Hhash|].
  split; [by rewrite Hmachines; unfold size; rewrite (Hlen Hsort)|].
  unfold same_tables in Hsame. destruct_and!.
  split_and!; congruence.
Qed.

(** ** info_builder.cpp: a builder is used once *)

(** X15. A builder that has built a database from a document with a machine
    is not fresh: a second [process_xml] on it fails the assertion at its
    beginning, whatever the document. *)
Theorem process_xml_twice (input input' : xml_document) (db : t) :
  StdSort ->
  process_xml input ctor = Ok (Built db) ->
  machine_elements (xml_events input) <> [] ->
  process_xml input' db = Fault AssertionFailed.
Proof.
  intros Hsort Hrun Hmachines.
  destruct (process_xml_built _ _ Hsort Hrun) as (rows & empty & Hb).
  destruct Hb as [Hord _ _ Hbuilt _ _ _ _].
  unfold process_xml. rewrite decide_False; [done|]. intros [Hnil _].
  rewrite Hbuilt in Hnil. apply (f_equal length) in Hnil.
  rewrite !length_fmap in Hnil. apply Permutation_length in Hord.
  rewrite length_fmap, length_seq in Hord. simpl in Hnil.
  destruct (machine_elements (xml_events input)); [done|]. simpl in Hord. lia.
Qed.

(** ** info_builder.cpp: the bytes of the string table *)

Lemma parse_strings (events : list xml_event) (st st' : captures) (u : unit) :
  consistent (m_strings (this st)) ->
  parse events st = Ok (u, st') ->
  consistent (m_strings (this st')) /\ extends (m_strings (this st)) (m_strings (this st')).
Proof.
  revert st. induction events as [|event events IH]; intros st Hc Hrun; simpl in Hrun.
  - apply M_ret_Ok in Hrun as [_ ->]. split; [done|apply extends_refl].
  - apply M_bind_Ok in Hrun as (u1 & st1 & Hstep & Hrun).
    destruct (dispatch_effect _ _ _ _ Hc Hstep) as [Hgrow _].
    destruct (Hgrow Hc) as [Hc1 Hext1].
    destruct (IH _ Hc1 Hrun) as [Hc' Hext']. split; [done|]. by eapply extends_trans.
Qed.

(** X16. The string table of a built database begins with the magic bytes
    of its beginning and holds the magic bytes of its end after the strings
    of the document; nothing follows them when the empty string is a small
    string. *)
Theorem string_table_delimited (input : xml_document) (db : t) :
  process_xml input ctor = Ok (Built db) ->
  exists middle tail : list ascii,
    string_table.m_data (m_strings db)
    = MAGIC_STRINGTABLE_BEGIN ++ middle ++ MAGIC_STRINGTABLE_END ++ tail /\
    (is_Some (tryEncodeAsSmallString EmptyString) -> tail = []).
Proof.
  intros Hrun.
  apply process_xml_Built in Hrun as (st & st' & u & u' & Hparse & Hfin & ->).
  destruct (parse_strings _ (Captures ctor initial_header EmptyString) _ _
              consistent_ctor Hparse) as [Hc [[middle Hdata] _]].
  apply finalize_returns in Hfin as (named & empty & _ & Hget & _).
  cbn in Hdata. unfold string_table.get in Hget.
  destruct (tryEncodeAsSmallString EmptyString) as [sso|] eqn:Hsso.
  { injection Hget as _ <-. exists middle, []. simpl. rewrite Hdata.
    split; [by rewrite app_nil_r, app_assoc|done]. }
  destruct (string_table.m_map _ !! EmptyString) as [second|].
  { injection Hget as _ <-. exists middle, []. simpl. rewrite Hdata.
    split; [by rewrite app_nil_r, app_assoc|done]. }
  apply bind_Ok in Hget as (result & _ & Hget). injection Hget as _ <-.
  eexists middle, _. simpl. rewrite Hdata. split; [by rewrite <- !app_assoc|]. by intros [? ?].
Qed.

End header_properties.

(** ** info_builder.cpp: the tables under configurations and slots *)

Lemma tiles_snoc (start : Z) (ranges : list (Z * Z)) (size : Z) :
  tiles start ranges size -> tiles start (ranges ++ [(size, 0)]) size.
Proof.
  revert start. induction ranges as [|[index count] ranges IH]; intros start; simpl.
  - intros <-. split; [done|]. split; [lia|]. lia.
  - intros (-> & Hcount & Htiles). split; [done|]. split; [done|]. by apply IH.
Qed.

Lemma tiles_last (start : Z) (ranges : list (Z * Z)) (index count size : Z) :
  tiles start (ranges ++ [(index, count)]) size ->
  start <= index /\ 0 <= count /\ index + count = size.
Proof.
  revert start. induction ranges as [|[i c] ranges IH]; intros start; simpl.
  - intros (-> & Hcount & <-). lia.
  - intros (-> & Hcount & Htiles). apply IH in Htiles. lia.
Qed.

Lemma tiles_grow_last (start : Z) (ranges : list (Z * Z)) (index count size : Z) :
  tiles start (ranges ++ [(index, count)]) size ->
  tiles start (ranges ++ [(index, count + 1)]) (size + 1).
Proof.
  revert start. induction ranges as [|[i c] ranges IH]; intros start; simpl.
  - intros (-> & Hcount & <-). split; [done|]. split; lia.
  - intros (-> & Hcount & Htiles). split; [done|]. split; [done|]. by apply IH.
Qed.

Lemma tiles_nil_inv (ranges : list (Z * Z)) (size : Z) :
  tiles 0 ranges size -> ranges = [] -> size = 0.
Proof. intros Htiles ->. by simpl in Htiles. Qed.

(** The positions of the ranges that tile a table: every position of the
    table is in exactly one range. *)
Lemma tiles_cover (start : Z) (ranges : list (Z * Z)) (size p : Z) :
  tiles start ranges size ->
  start <= p < size ->
  exists j index count,
    ranges !! j = Some (index, count) /\ index <= p < index + count /\
    forall j' index' count',
      ranges !! j' = Some (index', count') -> index' <= p < index' + count' -> j' = j.
Proof.
  revert start. induction ranges as [|[index count] ranges IH]; intros start; simpl.
  - intros <-. lia.
  - intros (-> & Hcount & Htiles) Hp.
    assert (Hle : forall s rs, tiles s rs size -> forall j i c,
                    rs !! j = Some (i, c) -> s <= i).
    { clear. intros s rs. revert s. induction rs as [|[i0 c0] rs IH]; intros s; simpl.
      - intros _ j i c Hj. by rewrite lookup_nil in Hj.
      - intros (-> & Hc & Ht) [|j] i c Hj; simpl in Hj.
        + injection Hj as <- <-. lia.
        + specialize (IH _ Ht j i c Hj). lia. }
    destruct (decide (p < start + count)) as [Hin|Hout].
    + exists 0%nat, start, count. split; [done|]. split; [lia|].
      intros [|j'] index' count' Hj' Hp'; [done|]. simpl in Hj'.
      specialize (Hle _ _ Htiles j' index' count' Hj'). lia.
    + destruct (IH _ Htiles) as (j & i & c & Hj & Hpj & Huniq); [lia|].
      exists (S j), i, c. split; [done|]. split; [done|].
      intros [|j'] index' count' Hj' Hp'; simpl in Hj'.
      * injection Hj' as <- <-. lia.
      * f_equal. by eapply Huniq.
Qed.

Section nested_properties.
Context `{info.Declarations}.
Import info info.binaries info.database_builder.

Ltac simpl_tables :=
  cbn [
    set info.database_builder.this info.database_builder.header
    info.database_builder.current_device_extensions info.database_builder.set_this
    info.database_builder.set_header
    info.database_builder.set_current_device_extensions
    info.database_builder.m_salted_header info.database_builder.set_m_salted_header
    info.database_builder.m_machines info.database_builder.set_m_machines
    info.database_builder.m_biossets info.database_builder.set_m_biossets
    info.database_builder.m_roms info.database_builder.set_m_roms
    info.database_builder.m_disks info.database_builder.set_m_disks
    info.database_builder.m_devices info.database_builder.set_m_devices
    info.database_builder.m_slots info.database_builder.set_m_slots
    info.database_builder.m_slot_options info.database_builder.set_m_slot_options
    info.database_builder.m_features info.database_builder.set_m_features
    info.database_builder.m_chips info.database_builder.set_m_chips
    info.database_builder.m_displays info.database_builder.set_m_displays
    info.database_builder.m_samples info.database_builder.set_m_samples
    info.database_builder.m_configurations info.database_builder.set_m_configurations
    info.database_builder.m_configuration_settings
    info.database_builder.set_m_configuration_settings
    info.database_builder.m_configuration_conditions
    info.database_builder.set_m_configuration_conditions
    info.database_builder.m_software_lists info.database_builder.set_m_software_lists
    info.database_builder.m_ram_options info.database_builder.set_m_ram_options
    info.database_builder.m_strings info.database_builder.set_m_strings
  ].

Lemma nested_ctor : nested ctor.
Proof.
  unfold nested. simpl. split_and!; [done|done| |constructor].
  repeat constructor.
Qed.

Lemma on_configuration_nested (attributes : Attributes) (st st' : captures) (u : unit) :
  nested (this st) -> on_configuration attributes st = Ok (u, st') -> nested (this st').
Proof.
  intros (Hsettings & Hoptions & Hsorted & Hpos) Hrun.
  unfold on_configuration in Hrun. run_callback Hrun.
  unfold nested. simpl_tables. split_and!; [|done..].
  intros Hsize. rewrite fmap_app. simpl. apply tiles_snoc. by apply Hsettings.
Qed.

Lemma StronglySorted_snoc_le (l : list Z) (x y : Z) :
  StronglySorted Z.le (l ++ [x]) -> x <= y -> StronglySorted Z.le (l ++ [y]).
Proof.
  induction l as [|a l IH]; simpl; intros Hs Hxy.
  - repeat constructor.
  - apply StronglySorted_inv in Hs as [Hs Ha]. constructor; [by apply IH|].
    apply Forall_app in Ha as [Hal Hax]. apply Forall_app. split; [done|].
    apply Forall_inv in Hax. constructor; [lia|constructor].
Qed.

Lemma StronglySorted_snoc_twice (l : list Z) (x : Z) :
  StronglySorted Z.le (l ++ [x]) -> StronglySorted Z.le ((l ++ [x]) ++ [x]).
Proof.
  induction l as [|a l IH]; simpl; intros Hs.
  - repeat constructor. lia.
  - apply StronglySorted_inv in Hs as [Hs Ha]. constructor; [by apply IH|].
    apply Forall_app. split; [done|].
    apply Forall_app in Ha as [_ Hax]. done.
Qed.

Lemma on_configuration_setting_nested (attributes : Attributes) (st st' : captures) (u : unit) :
  nested (this st) -> on_configuration_setting attributes st = Ok (u, st') -> nested (this st').
Proof.
  intros (Hsettings & Hoptions & Hsorted & Hpos) Hrun.
  unfold on_configuration_setting in Hrun. run_callback Hrun.
  unfold nested. simpl_tables. split_and!; [|done| |].
  - unfold size in *. rewrite length_app. simpl. intros Hsize.
    destruct (m_configurations (this st)) as [|c0 l0 _] eqn:Hconfigurations using rev_ind;
      [done|].
    rewrite alter_last_snoc, !fmap_app in *. simpl in *.
    specialize (Hsettings ltac:(lia)).
    pose proof (tiles_last _ _ _ _ _ Hsettings) as (? & ? & ?).
    unfold settings_range in *. simpl in *. unfold incr. rewrite Z.mod_small by lia.
    replace (Z.of_nat (length (m_configuration_settings (this st)) + 1))
      with (Z.of_nat (length (m_configuration_settings (this st))) + 1) by lia.
    by apply tiles_grow_last.
  - rewrite fmap_app. simpl. by apply StronglySorted_snoc_twice.
  - apply Forall_app. split; [done|]. constructor; [|constructor]. simpl. unfold size. lia.
Qed.

Lemma on_configuration_condition_nested (attributes : Attributes) (st st' : captures)
  (u : unit) :
  nested (this st) -> on_configuration_condition attributes st = Ok (u, st') ->
  nested (this st').
Proof.
  intros (Hsettings & Hoptions & Hsorted & Hpos) Hrun.
  unfold on_configuration_condition in Hrun. run_callback Hrun.
  unfold nested. simpl_tables. split_and!; [done|done| |done].
  eapply StronglySorted_snoc_le; [done|]. unfold size. rewrite length_app. lia.
Qed.

Lemma on_slot_nested (attributes : Attributes) (st st' : captures) (u : unit) :
  nested (this st) -> on_slot attributes st = Ok (u, st') -> nested (this st').
Proof.
  intros (Hsettings & Hoptions & Hsorted & Hpos) Hrun.
  unfold on_slot in Hrun. run_callback Hrun.
  unfold nested. simpl_tables. split_and!; [done| |done..].
  intros Hsize. rewrite fmap_app. simpl. apply tiles_snoc. by apply Hoptions.
Qed.

Lemma on_slot_option_nested (attributes : Attributes) (st st' : captures) (u : unit) :
  nested (this st) -> on_slot_option attributes st = Ok (u, st') -> nested (this st').
Proof.
  intros (Hsettings & Hoptions & Hsorted & Hpos) Hrun.
  unfold on_slot_option in Hrun. run_callback Hrun.
  unfold nested. simpl_tables. split_and!; [done| |done..].
  unfold size in *. rewrite length_app. simpl. intros Hsize.
  destruct (m_slots (this st)) as [|s0 l0 _] eqn:Hslots using rev_ind; [done|].
  rewrite alter_last_snoc, !fmap_app in *. simpl in *.
  specialize (Hoptions ltac:(lia)).
  pose proof (tiles_last _ _ _ _ _ Hoptions) as (? & ? & ?).
  unfold options_range in *. simpl in *. unfold incr. rewrite Z.mod_small by lia.
  replace (Z.of_nat (length (m_slot_options (this st)) + 1))
    with (Z.of_nat (length (m_slot_options (this st))) + 1) by lia.
  by apply tiles_grow_last.
Qed.

Lemma dispatch_nested (event : xml_event) (st st' : captures) (u : unit) :
  nested (this st) -> dispatch event st = Ok (u, st') -> nested (this st').
Proof.
  intros Hn Hrun. destruct event as [path attributes|path content];
    unfold dispatch, begin_callbacks, end_callbacks in Hrun; cbn [find_callback] in Hrun.
  - repeat
      match type of Hrun with
      | context [decide (path ∈ ?paths)] =>
          destruct (decide (path ∈ paths)) as [_|_];
          [ lazymatch type of Hrun with
            | on_configuration _ _ = _ => by eapply on_configuration_nested
            | on_configuration_setting _ _ = _ => by eapply on_configuration_setting_nested
            | on_configuration_condition _ _ = _ =>
                by eapply on_configuration_condition_nested
            | on_slot _ _ = _ => by eapply on_slot_nested
            | on_slot_option _ _ = _ => by eapply on_slot_option_nested
            | _ =>
                unfold on_mame, on_machine, on_biosset, on_rom, on_disk, on_feature, on_chip,
                  on_display, on_sample, on_device, on_device_instance,
                  on_device_extension, on_driver, on_software_list,
                  on_ram_option, on_sound in Hrun;
                try (destruct (get_string attributes "name"));
                run_callback Hrun; exact Hn
            end
          | ]
      end.
    by apply M_ret_Ok in Hrun as [_ ->].
  - repeat
      match type of Hrun with
      | context [decide (path ∈ ?paths)] =>
          destruct (decide (path ∈ paths)) as [_|_];
          [ unfold on_description_end, on_year_end, on_manufacturer_end, on_device_end,
              on_ram_option_end in Hrun;
            run_callback Hrun;
            try (destruct (decide _); run_callback Hrun); exact Hn
          | ]
      end.
    by apply M_ret_Ok in Hrun as [_ ->].
Qed.

Lemma parse_nested (events : list xml_event) (st st' : captures) (u : unit) :
  nested (this st) -> parse events st = Ok (u, st') -> nested (this st').
Proof.
  revert st. induction events as [|event events IH]; intros st Hn Hrun; simpl in Hrun.
  - by apply M_ret_Ok in Hrun as [_ ->].
  - apply M_bind_Ok in Hrun as (u1 & st1 & Hstep & Hrun).
    eapply IH; [|done]. by eapply dispatch_nested.
Qed.

(** The finalization leaves the tables under configurations and slots as
    they are, and all of them have fewer than 2^32 records. *)
Lemma finalize_nested (st st' : captures) (u : unit) :
  finalize st = Ok (u, st') ->
  m_configurations (this st') = m_configurations (this st) /\
  m_configuration_settings (this st') = m_configuration_settings (this st) /\
  m_configuration_conditions (this st') = m_configuration_conditions (this st) /\
  m_slots (this st') = m_slots (this st) /\
  m_slot_options (this st') = m_slot_options (this st) /\
  size (m_configuration_settings (this st)) < 2 ^ 32 /\
  size (m_slot_options (this st)) < 2 ^ 32.
Proof.
  intros Hrun. pose proof (finalize_same _ _ _ Hrun) as Hsame.
  apply finalize_returns in Hrun as (named & empty & _ & _ & _ & _ & _ & _ & Ho & Hs & _).
  unfold same_tables in Hsame. destruct_and!. split_and!; congruence.
Qed.

Lemma process_xml_nested (input : xml_document) (db : t) :
  process_xml input ctor = Ok (Built db) ->
  tiles 0 (settings_range <$> m_configurations db) (size (m_configuration_settings db)) /\
  tiles 0 (options_range <$> m_slots db) (size (m_slot_options db)) /\
  StronglySorted Z.le
    ((configuration_setting.m_conditions_index <$> m_configuration_settings db)
     ++ [size (m_configuration_conditions db)]) /\
  Forall (fun s => 0 <= configuration_setting.m_conditions_index s)
    (m_configuration_settings db).
Proof.
  intros Hrun.
  apply process_xml_Built in Hrun as (st & st' & u & u' & Hparse & Hfin & ->).
  apply (parse_nested _ (Captures ctor initial_header EmptyString) _ _ nested_ctor) in Hparse as (Hsettings & Hoptions & Hsorted & Hpos).
  apply finalize_nested in Hfin as (-> & -> & -> & -> & -> & Hs & Ho).
  split_and!; auto.
Qed.

(** X17. The settings of the configurations of a built database: the
    ranges that the configurations record tile the table of settings in the
    order of the configurations, each range beginning where the one before
    it ends and the last ending with the table; so every setting is in the
    range of exactly one configuration. *)
Theorem configuration_settings_tiled (input : xml_document) (db : t) :
  process_xml input ctor = Ok (Built db) ->
  tiles 0 (settings_range <$> m_configurations db) (size (m_configuration_settings db)) /\
  forall p,
    (p < length (m_configuration_settings db))%nat ->
    exists j c,
      m_configurations db !! j = Some c /\
      configuration.m_configuration_settings_index c <= Z.of_nat p
        < configuration.m_configuration_settings_index c
          + configuration.m_configuration_settings_count c /\
      forall j' c',
        m_configurations db !! j' = Some c' ->
        configuration.m_configuration_settings_index c' <= Z.of_nat p
          < configuration.m_configuration_settings_index c'
            + configuration.m_configuration_settings_count c' ->
        j' = j.
Proof.
  intros Hrun. destruct (process_xml_nested _ _ Hrun) as (Htiles & _).
  split; [done|]. intros p Hp.
  destruct (tiles_cover _ _ _ (Z.of_nat p) Htiles) as (j & index & count & Hj & Hin & Huniq).
  { unfold size. lia. }
  rewrite list_lookup_fmap in Hj.
  destruct (m_configurations db !! j) as [c|] eqn:Hc; [|done].
  injection Hj as <- <-. exists j, c. split; [done|]. split; [done|].
  intros j' c' Hc' Hin'. eapply (Huniq j'); [|exact Hin'].
  by rewrite list_lookup_fmap, Hc'.
Qed.

(** X18. The options of the slots of a built database: the ranges that the
    slots record tile the table of slot options in the order of the slots;
    so every option is in the range of exactly one slot. *)
Theorem slot_options_tiled (input : xml_document) (db : t) :
  process_xml input ctor = Ok (Built db) ->
  tiles 0 (options_range <$> m_slots db) (size (m_slot_options db)) /\
  forall p,
    (p < length (m_slot_options db))%nat ->
    exists j s,
      m_slots db !! j = Some s /\
      slot.m_slot_options_index s <= Z.of_nat p
        < slot.m_slot_options_index s + slot.m_slot_options_count s /\
      forall j' s',
        m_slots db !! j' = Some s' ->
        slot.m_slot_options_index s' <= Z.of_nat p
          < slot.m_slot_options_index s' + slot.m_slot_options_count s' ->
        j' = j.
Proof.
  intros Hrun. destruct (process_xml_nested _ _ Hrun) as (_ & Htiles & _).
  split; [done|]. intros p Hp.
  destruct (tiles_cover _ _ _ (Z.of_nat p) Htiles) as (j & index & count & Hj & Hin & Huniq).
  { unfold size. lia. }
  rewrite list_lookup_fmap in Hj.
  destruct (m_slots db !! j) as [s|] eqn:Hs; [|done].
  injection Hj as <- <-. exists j, s. split; [done|]. split; [done|].
  intros j' s' Hs' Hin'. eapply (Huniq j'); [|exact Hin'].
  by rewrite list_lookup_fmap, Hs'.
Qed.

(** X19. The conditions of the settings of a built database: the index of
    conditions that a setting records is a position of the table of
    conditions or its end, and it is not less than the index of any setting
    before it. *)
Theorem conditions_index_ordered (input : xml_document) (db : t) :
  process_xml input ctor = Ok (Built db) ->
  forall i j s s',
    (i <= j)%nat ->
    m_configuration_settings db !! i = Some s ->
    m_configuration_settings db !! j = Some s' ->
    0 <= configuration_setting.m_conditions_index s /\
    configuration_setting.m_conditions_index s
    <= configuration_setting.m_conditions_index s' /\
    configuration_setting.m_conditions_index s' <= size (m_configuration_conditions db).
Proof.
  intros Hrun i j s s' Hij Hs Hs'.
  destruct (process_xml_nested _ _ Hrun) as (_ & _ & Hsorted & Hpos).
  rewrite Forall_forall in Hpos. pose proof (Hpos s (list_elem_of_lookup_2 _ _ _ Hs)) as Hs0.
  set (indexes := configuration_setting.m_conditions_index <$> m_configuration_settings db) in *.
  assert (Hi : (indexes ++ [size (m_configuration_conditions db)]) !! i
               = Some (configuration_setting.m_conditions_index s)).
  { apply lookup_app_l_Some. unfold indexes. by rewrite list_lookup_fmap, Hs. }
  assert (Hj : (indexes ++ [size (m_configuration_conditions db)]) !! j
               = Some (configuration_setting.m_conditions_index s')).
  { apply lookup_app_l_Some. unfold indexes. by rewrite list_lookup_fmap, Hs'. }
  assert (Hend : (indexes ++ [size (m_configuration_conditions db)]) !! length indexes
                 = Some (size (m_configuration_conditions db))).
  { by rewrite lookup_app_r, Nat.sub_diag by lia. }
  assert (Hle : forall (l : list Z) a b x y, StronglySorted Z.le l -> (a <= b)%nat ->
                  l !! a = Some x -> l !! b = Some y -> x <= y).
  { clear. intros l a b x y Hl. revert a b.
    induction Hl as [|z l Hl IH Hz]; intros a b Hab Ha Hb; [done|].
    destruct a as [|a], b as [|b]; simpl in *; simplify_eq; try lia.
    - rewrite Forall_forall in Hz. apply Hz. by eapply list_elem_of_lookup_2.
    - eapply (IH a b); [lia|done..]. }
  split; [done|]. split.
  - by eapply (Hle _ i j).
  - eapply (Hle _ j (length indexes)); [done| |done..].
    apply lookup_lt_Some in Hs'. unfold indexes. rewrite length_fmap. lia.
Qed.

End nested_properties.

(** ** The added properties on the sample inputs *)

Lemma string_split_string_join_witness :
  let paths := list_ascii_of_string <$> ["/roms"; "/more roms"; "c:"]%string in
  [";"%char] <> [] /\
  Forall (fun ch => sample.is_semicolon ch = true) [";"%char] /\
  Forall (is_word sample.is_semicolon) paths /\
  util.string_split (util.string_join [";"%char] paths) sample.is_semicolon = paths.
Proof.
  intros paths.
  assert (Hne : [";"%char] <> []) by discriminate.
  assert (Hdelim : Forall (fun ch => sample.is_semicolon ch = true) [";"%char]).
  { apply (bool_decide_unpack _). vm_compute. exact I. }
  assert (Hwords : Forall (is_word sample.is_semicolon) paths).
  { unfold is_word. apply (bool_decide_unpack _). vm_compute. exact I. }
  split; [exact Hne|]. split; [exact Hdelim|]. split; [exact Hwords|].
  exact (string_split_string_join sample.is_semicolon [";"%char] paths Hne Hdelim Hwords).
Defined.

Lemma string_split_join_split_witness :
  let text := list_ascii_of_string ";/roms;;/more roms;"%string in
  [";"%char] <> [] /\
  Forall (fun ch => sample.is_semicolon ch = true) [";"%char] /\
  util.string_split
    (util.string_join [";"%char] (util.string_split text sample.is_semicolon))
    sample.is_semicolon
  = util.string_split text sample.is_semicolon.
Proof.
  intros text.
  assert (Hne : [";"%char] <> []) by discriminate.
  assert (Hdelim : Forall (fun ch => sample.is_semicolon ch = true) [";"%char]).
  { apply (bool_decide_unpack _). vm_compute. exact I. }
  split; [exact Hne|]. split; [exact Hdelim|].
  exact (string_split_join_split text sample.is_semicolon [";"%char] Hne Hdelim).
Defined.

Section sample_witnesses.
Import info info.binaries info.database_builder.

Lemma device_extensions_collected_witness :
  let st := sample.in_machine in
  let st' := sample.after sample.device_events st in
  parse sample.device_events st = Ok (tt, st') /\
  exists d,
    last (m_devices (this st')) = Some d /\
    length (m_devices (this st')) = S (length (m_devices (this st))) /\
    reference_of (m_strings (this st')) "wav,cas," (device.m_extensions_strindex d).
Proof.
  intros st st'.
  assert (Hrun : parse sample.device_events st = Ok (tt, st')) by (vm_compute; reflexivity).
  split; [exact Hrun|].
  destruct (device_extensions_collected
              [("type", "cassette"); ("tag", "cass")]%string
              [[("name", "wav")]; [("type", "x")]; [("name", "cas")]]%string
              EmptyString st st' tt Hrun) as (d & Hlast & Hlen & _ & Href).
  exists d. split; [exact Hlast|]. split; [exact Hlen|]. apply Href. discriminate.
Defined.

Lemma header_counts_tables_witness :
  let db := sample.database sample.configured_document in
  StdSort /\
  process_xml sample.configured_document ctor = Ok (Built db) /\
  exists h : header.t,
    util.salt (m_salted_header db) binaries_salt = Ok (header_bytes h) /\
    header.m_magic h = MAGIC_HDR /\
    header.m_machines_count h = 1 /\
    header.m_configurations_count h = 2 /\
    header.m_configuration_settings_count h = 3 /\
    header.m_configuration_conditions_count h = 1 /\
    header.m_devices_count h = 1 /\
    header.m_slots_count h = 2 /\
    header.m_slot_options_count h = 2.
Proof.
  intros db.
  assert (Hrun : process_xml sample.configured_document ctor = Ok (Built db))
    by (vm_compute; reflexivity).
  split; [exact sample_std_sort|]. split; [exact Hrun|].
  destruct (header_counts_tables sample.configured_document db sample_std_sort Hrun)
    as (h & Hsalt & Hmagic & _ & Hmachines & _ & _ & _ & Hdevices & Hslots & Hoptions
        & _ & _ & _ & _ & Hconfigurations & Hsettings & Hconditions & _).
  exists h. split; [exact Hsalt|]. split; [exact Hmagic|].
  split; [rewrite Hmachines; vm_compute; reflexivity|].
  split; [rewrite Hconfigurations; vm_compute; reflexivity|].
  split; [rewrite Hsettings; vm_compute; reflexivity|].
  split; [rewrite Hconditions; vm_compute; reflexivity|].
  split; [rewrite Hdevices; vm_compute; reflexivity|].
  split; [rewrite Hslots; vm_compute; reflexivity|].
  rewrite Hoptions; vm_compute; reflexivity.
Defined.

Lemma process_xml_twice_witness :
  let db := sample.database sample.configured_document in
  StdSort /\
  process_xml sample.configured_document ctor = Ok (Built db) /\
  machine_elements (xml_events sample.configured_document) <> [] /\
  process_xml sample.document db = Fault AssertionFailed.
Proof.
  intros db.
  assert (Hrun : process_xml sample.configured_document ctor = Ok (Built db))
    by (vm_compute; reflexivity).
  assert (Hmachines : machine_elements (xml_events sample.configured_document) <> [])
    by (vm_compute; discriminate).
  split; [exact sample_std_sort|]. split; [exact Hrun|]. split; [exact Hmachines|].
  exact (process_xml_twice sample.configured_document sample.document db
           sample_std_sort Hrun Hmachines).
Defined.

Lemma string_table_delimited_witness :
  let db := sample.database sample.configured_document in
  process_xml sample.configured_document ctor = Ok (Built db) /\
  exists middle tail : list ascii,
    string_table.m_data (m_strings db)
    = MAGIC_STRINGTABLE_BEGIN ++ middle ++ MAGIC_STRINGTABLE_END ++ tail /\
    (is_Some (tryEncodeAsSmallString EmptyString) -> tail = []).
Proof.
  intros db.
  assert (Hrun : process_xml sample.configured_document ctor = Ok (Built db))
    by (vm_compute; reflexivity).
  split; [exact Hrun|].
  exact (string_table_delimited sample.configured_document db Hrun).
Defined.

Lemma configuration_settings_tiled_witness :
  let db := sample.database sample.configured_document in
  process_xml sample.configured_document ctor = Ok (Built db) /\
  settings_range <$> m_configurations db = [(0, 2); (2, 1)] /\
  tiles 0 (settings_range <$> m_configurations db) (size (m_configuration_settings db)).
Proof.
  intros db.
  assert (Hrun : process_xml sample.configured_document ctor = Ok (Built db))
    by (vm_compute; reflexivity).
  split; [exact Hrun|]. split; [vm_compute; reflexivity|].
  exact (proj1 (configuration_settings_tiled sample.configured_document db Hrun)).
Defined.

Lemma slot_options_tiled_witness :
  let db := sample.database sample.configured_document in
  process_xml sample.configured_document ctor = Ok (Built db) /\
  options_range <$> m_slots db = [(0, 2); (2, 0)] /\
  tiles 0 (options_range <$> m_slots db) (size (m_slot_options db)).
Proof.
  intros db.
  assert (Hrun : process_xml sample.configured_document ctor = Ok (Built db))
    by (vm_compute; reflexivity).
  split; [exact Hrun|]. split; [vm_compute; reflexivity|].
  exact (proj1 (slot_options_tiled sample.configured_document db Hrun)).
Defined.

Lemma conditions_index_ordered_witness :
  let db := sample.database sample.configured_document in
  process_xml sample.configured_document ctor = Ok (Built db) /\
  configuration_setting.m_conditions_index <$> m_configuration_settings db = [0; 0; 1] /\
  forall i j s s',
    (i <= j)%nat ->
    m_configuration_settings db !! i = Some s ->
    m_configuration_settings db !! j = Some s' ->
    0 <= configuration_setting.m_conditions_index s /\
    configuration_setting.m_conditions_index s
    <= configuration_setting.m_conditions_index s' /\
    configuration_setting.m_conditions_index s' <= size (m_configuration_conditions db).
Proof.
  intros db.
  assert (Hrun : process_xml sample.configured_document ctor = Ok (Built db))
    by (vm_compute; reflexivity).
  split; [exact Hrun|]. split; [vm_compute; reflexivity|].
  exact (conditions_index_ordered sample.configured_document db Hrun).
Defined.

End sample_witnesses.

(** ** info_builder.cpp: binaryFromHex on the string of an attribute *)

(** With the reads of a [std::string_view] the loop is [binaryFromHex_loop]. *)
Lemma binaryFromHex_loop_with_string_view (fuel : nat) (dest : list Z) (hex : string)
  (pos : nat) :
  util.binaryFromHex_loop_with util.string_view_at fuel dest hex pos
  = util.binaryFromHex_loop fuel dest hex pos.
Proof.
  revert dest pos. induction fuel as [|fuel IH]; intros dest pos; simpl; [done|].
  destruct (_ && _); [|done].
  destruct (util.string_view_at hex (pos * 2 + 0)) as [chHi| |]; simpl; [|done..].
  destruct (util.hexDigit chHi); [|done].
  destruct (util.string_view_at hex (pos * 2 + 1)) as [chLo| |]; simpl; [|done..].
  destruct (util.hexDigit chLo); [|done]. apply IH.
Qed.

Lemma binaryFromHex_with_string_view (dest : list Z) (hex : option string) :
  info.binaryFromHex_with util.string_view_at dest hex = info.binaryFromHex dest hex.
Proof.
  unfold info.binaryFromHex_with, info.binaryFromHex, util.binaryFromHex_with,
    util.binaryFromHex.
  destruct hex as [hex|]; [|done]. by rewrite binaryFromHex_loop_with_string_view.
Qed.






(** The four-byte checksum and the short text "ab": one byte is decoded,
    the read after it meets the NUL, three zeros follow and the result is
    [false]. *)
Lemma binaryFromHex_short_text :
  info.binaryFromHex_with util.std_string_at [0; 0; 0; 0] (Some "ab"%string)
  = Ok ([171; 0; 0; 0], false).
Proof. reflexivity. Qed.

(** Where the decoder on a [std::string_view] returns, the decoder on the
    stored string returns the same: the two differ only at a read at the
    end of the text. *)
Lemma binaryFromHex_loop_view_std_string (fuel : nat) (dest : list Z) (hex : string)
  (pos : nat) (result : list Z * nat) :
  util.binaryFromHex_loop fuel dest hex pos = Ok result ->
  util.binaryFromHex_loop_with util.std_string_at fuel dest hex pos = Ok result.
Proof.
  revert dest pos. induction fuel as [|fuel IH]; intros dest pos; simpl; [done|].
  destruct (_ && _); [|done]. unfold util.string_view_at, util.std_string_at.
  destruct (String.get (pos * 2 + 0) hex) as [chHi|]; simpl; [|done].
  destruct (util.hexDigit chHi); [|done].
  destruct (String.get (pos * 2 + 1) hex) as [chLo|]; simpl; [|done].
  destruct (util.hexDigit chLo); [|done]. apply IH.
Qed.

Lemma binaryFromHex_view_std_string (dest : list Z) (hex : option string)
  (result : list Z * bool) :
  info.binaryFromHex dest hex = Ok result ->
  info.binaryFromHex_with util.std_string_at dest hex = Ok result.
Proof.
  unfold info.binaryFromHex, info.binaryFromHex_with, util.binaryFromHex,
    util.binaryFromHex_with.
  destruct hex as [hex|]; [|done]. intros Hrun.
  apply bind_Ok in Hrun as ([dest1 pos] & Hloop & Hrun).
  by rewrite (binaryFromHex_loop_view_std_string _ _ _ _ _ Hloop).
Qed.

(** ** info.cpp: the lookup of a machine by name *)

Section find_machine_properties.
Context `{info.Declarations}.
Import info info.binaries info.database_builder.

(** The elements of the rows are the machine elements of the document, each
    once. *)
Lemma built_elements (input : xml_document) (db : t) (rows : list row) (empty : Z) :
  built input db rows empty ->
  row_element <$> rows ≡ₚ machine_elements (xml_events input).
Proof.
  intros [Hord Hrows _ _ _ _ _ _].
  set (elements0 := machine_elements (xml_events input)) in *.
  transitivity ((fun j => elements0 !!! j) <$> (row_ordinal <$> rows)).
  - match goal with |- ?l ≡ₚ ?k => replace l with k; [done|] end.
    rewrite <- list_fmap_compose. apply Forall_fmap_ext_1.
    eapply Forall_impl; [exact Hrows|]. intros r (Ha & _). simpl.
    by apply list_lookup_total_correct.
  - rewrite Hord. match goal with |- ?l ≡ₚ ?k => replace l with k; [done|] end.
    apply list_eq. intros i. rewrite list_lookup_fmap.
    destruct (elements0 !! i) as [a|] eqn:Ha.
    + rewrite (lookup_seq_lt _ _ _ (lookup_lt_Some _ _ _ Ha)). simpl.
      by rewrite (list_lookup_total_correct _ _ _ Ha).
    + rewrite lookup_seq_ge; [done|]. by apply lookup_ge_None.
Qed.

(** C3. After a successful [process_xml] the records of the machine table
    are the records of the machine elements of the document, each element
    once, a record holding the reference of the name of its element; the
    name of every record can be looked up, and the names looked up are the
    names of the elements (when these hold no NUL and the small-string codec
    keeps its contract), so they are the names of the machines of the
    document, each as often as the document has it; the names are in
    non-decreasing order of [strcmp] along the table; the binary search for a
    name of the table returns a position and the record there, whose name is
    that name; and the binary search for any other name returns nothing. *)
Theorem machines_sorted_and_found (input : xml_document) (db : t) :
  StdSort ->
  process_xml input ctor = Ok (Built db) ->
  exists (names : list string) (elements : list Attributes),
    database.machine_names db = Ok names /\
    elements ≡ₚ machine_elements (xml_events input) /\
    Forall2 (fun a m =>
               reference_of (m_strings db) (attribute_text a "name")
                 (machine.m_name_strindex m))
      elements (m_machines db) /\
    (SmallStrings ->
     offsets_below (length (string_table.m_data (m_strings db))) ->
     Forall (fun a => no_NUL (attribute_text a "name")) (machine_elements (xml_events input)) ->
     names = (fun a => attribute_text a "name") <$> elements) /\
    StronglySorted (fun a b => strcmp a b <= 0) names /\
    forall target : string,
      (target ∈ names ->
       exists i m,
         database.find_machine db target = Ok (Some (i, m)) /\
         m_machines db !! i = Some m /\
         string_table.lookup (machine.m_name_strindex m) (m_strings db) = Ok target) /\
      (target ∉ names -> database.find_machine db target = Ok None).
Proof.
  intros Hsort Hrun.
  destruct (process_xml_built _ _ Hsort Hrun) as (rows & empty & Hb).
  pose proof (built_elements _ _ _ _ Hb) as Helements.
  destruct Hb as [_ Hrows Hsorted Hmachines _ Hcons _ _].
  set (names := row_name <$> rows) in *.
  assert (Hnames : Forall2 (fun m name =>
            string_table.lookup (machine.m_name_strindex m) (m_strings db) = Ok name)
            (m_machines db) names).
  { rewrite Hmachines. unfold names.
    apply Forall2_fmap_l, Forall2_fmap, Forall_Forall2_diag.
    eapply Forall_impl; [exact Hrows|]. by intros r (_ & _ & Hname & _). }
  exists names, (row_element <$> rows). split; [by apply mapM_outcome_Ok|].
  split; [done|]. split.
  { rewrite Hmachines. apply Forall2_fmap_l, Forall2_fmap_r, Forall2_fmap_r.
    apply Forall_Forall2_diag.
    eapply Forall_impl; [exact Hrows|]. by intros r (_ & (Hname & _) & _). }
  split.
  { intros Hcodec Hbelow Hnul. unfold names. rewrite <- list_fmap_compose.
    apply Forall_fmap_ext_1. eapply Forall_impl; [exact Hrows|].
    intros r (Ha & (Hname & _) & Hlookup & _). simpl.
    rewrite Forall_forall in Hnul.
    pose proof (Hnul _ (list_elem_of_lookup_2 _ _ _ Ha)) as Hr.
    pose proof (lookup_reference _ _ _ Hcodec Hcons Hbelow Hr Hname) as Hlookup'.
    congruence. }
  split; [done|].
  intros target. unfold database.find_machine.
  rewrite (proj2 (mapM_outcome_Ok _ _ _) Hnames : database.machine_names db = Ok names).
  simpl.
  destruct (lower_bound_returns (length names) names target 0 (length names))
    as (Hr & Hbefore & Hafter); [done|lia|lia|intros; lia| |].
  { intros i name Hi Hname%lookup_lt_Some. lia. }
  set (i := database.lower_bound (length names) names target 0 (length names)) in *.
  split.
  - intros (j & Hj)%list_elem_of_lookup_1.
    assert (Hij : (i <= j)%nat).
    { destruct (decide (i <= j)%nat) as [|Hlt]; [done|].
      exfalso. pose proof (Hbefore j target ltac:(lia) Hj) as Hc.
      rewrite strcmp_refl in Hc. lia. }
    destruct (lookup_lt_is_Some_2 names i) as [name Hname].
    { apply lookup_lt_Some in Hj. lia. }
    assert (name = target) as ->.
    { apply strcmp_le_antisym.
      - by apply (StronglySorted_lookup_le names i j).
      - apply strcmp_not_lt. by apply (Hafter i). }
    destruct (Forall2_lookup_r _ _ _ _ _ Hnames Hname) as (m & Hm & Hlookup).
    exists i, m. rewrite Hname, Hm, decide_True; done.
  - intros Habsent. destruct (names !! i) as [name|] eqn:Hname; [|done].
    destruct (m_machines db !! i); [|done].
    rewrite decide_False; [done|]. intros ->. apply Habsent.
    by eapply list_elem_of_lookup_2.
Qed.

End find_machine_properties.


(** ** info_builder.cpp: the records of the child tables *)

Section records_extends.
Context `{info.Declarations}.
Import info info.binaries info.database_builder.

Lemma records_of_extends (k : child) (t1 t2 : string_table.t) (b : database_builder.t)
  (elements : list Attributes) :
  extends t1 t2 -> records_of k t1 b elements -> records_of k t2 b elements.
Proof.
  intros He. destruct k; simpl; try done; intros Hf; (eapply Forall2_impl; [exact Hf|]);
    intros a r;
    unfold biosset_of, rom_of, disk_of, chip_of, display_of, sample_of, configuration_of,
      device_of, slot_of, software_list_of, ram_option_of, refers;
    intros; destruct_and?; split_and?; eauto using reference_of_extends.
Qed.

End records_extends.

(** The records of a callback whose run was executed symbolically: the
    tables that the callback leaves keep their records, the table it appends
    to has one record more, and a record it changes keeps the fields that
    tell of which element it is. *)
Ltac simpl_records :=
  cbn [
    set info.database_builder.this info.database_builder.header
    info.database_builder.current_device_extensions info.database_builder.set_this
    info.database_builder.set_header
    info.database_builder.set_current_device_extensions
    info.database_builder.m_salted_header info.database_builder.set_m_salted_header
    info.database_builder.m_machines info.database_builder.set_m_machines
    info.database_builder.m_biossets info.database_builder.set_m_biossets
    info.database_builder.m_roms info.database_builder.set_m_roms
    info.database_builder.m_disks info.database_builder.set_m_disks
    info.database_builder.m_devices info.database_builder.set_m_devices
    info.database_builder.m_slots info.database_builder.set_m_slots
    info.database_builder.m_slot_options info.database_builder.set_m_slot_options
    info.database_builder.m_features info.database_builder.set_m_features
    info.database_builder.m_chips info.database_builder.set_m_chips
    info.database_builder.m_displays info.database_builder.set_m_displays
    info.database_builder.m_samples info.database_builder.set_m_samples
    info.database_builder.m_configurations info.database_builder.set_m_configurations
    info.database_builder.m_configuration_settings
    info.database_builder.set_m_configuration_settings
    info.database_builder.m_configuration_conditions
    info.database_builder.set_m_configuration_conditions
    info.database_builder.m_software_lists info.database_builder.set_m_software_lists
    info.database_builder.m_ram_options info.database_builder.set_m_ram_options
    info.database_builder.m_strings info.database_builder.set_m_strings
    records_of
  ] in *.

Ltac solve_record :=
  unfold biosset_of, rom_of, disk_of, feature_of, chip_of, display_of, sample_of,
    configuration_of, device_of, slot_of, software_list_of, ram_option_of, refers, decodes
    in *;
  intros; destruct_and?; split_and?;
  first [ assumption | reflexivity | eexists; eassumption ].

(** The [get]s of a callback, one after the other: the table stays
    consistent, [Hext] follows it from the table before the callback, and
    the references known so far are kept. *)
Ltac strings_chain Hext :=
  repeat
    match goal with
    | Hc : consistent ?table, Hg : info.string_table.get _ ?table = Ok (_, _) |- _ =>
        let Hc' := fresh "Hc" in
        let He := fresh "He" in
        let Hr := fresh "Hr" in
        destruct (get_returns _ _ _ _ Hc Hg) as (Hc' & He & Hr); clear Hg;
        repeat
          match goal with
          | Hr0 : reference_of table _ _ |- _ =>
              apply (reference_of_extends _ _ _ _ He) in Hr0
          end;
        apply (fun Hold => extends_trans _ _ _ Hold He) in Hext;
        clear Hc He
    end.

Ltac solve_recorded Hc Hrec :=
  lazymatch type of Hc with
  | consistent ?old =>
      let Hext := fresh "Hext" in
      pose proof (extends_refl old) as Hext;
      strings_chain Hext;
      unfold recorded;
      cbn [info.database_builder.this info.database_builder.set_this set
           info.database_builder.m_strings info.database_builder.set_m_strings
           info.database_builder.set_m_machines info.database_builder.set_m_biossets
           info.database_builder.set_m_roms info.database_builder.set_m_disks
           info.database_builder.set_m_devices info.database_builder.set_m_slots
           info.database_builder.set_m_slot_options info.database_builder.set_m_features
           info.database_builder.set_m_chips info.database_builder.set_m_displays
           info.database_builder.set_m_samples info.database_builder.set_m_configurations
           info.database_builder.set_m_configuration_settings
           info.database_builder.set_m_configuration_conditions
           info.database_builder.set_m_software_lists
           info.database_builder.set_m_ram_options
           info.database_builder.set_current_device_extensions
           info.database_builder.set_header];
      split; [assumption|];
      let k := fresh "k" in
      intros k; specialize (Hrec k);
      apply (records_of_extends k _ _ _ _ Hext) in Hrec;
      destruct k; simpl_records;
      cbn [decide decide_rel child_eq_dec child_rect child_rec sumbool_rec sumbool_rect];
      first
        [ apply Forall2_app; [exact Hrec|];
          apply Forall2_cons_2; [solve_record | apply Forall2_nil_2]
        | rewrite ?app_nil_r;
          first
            [ exact Hrec
            | apply Forall2_alter_r; [exact Hrec|]; solve_record ] ]
  end.

Section recorded_properties.
Context `{info.Declarations}.
Import info info.binaries info.database_builder.

Lemma on_biosset_recorded (elements : child -> list Attributes) (attributes : Attributes)
  (st st' : captures) (u : unit) :
  recorded elements (this st) -> on_biosset attributes st = Ok (u, st') ->
  recorded (fun k => elements k ++ if decide (k = Biosset) then [attributes] else [])
    (this st').
Proof.
  intros [Hc Hrec] Hrun. unfold on_biosset in Hrun. run_callback Hrun.
  solve_recorded Hc Hrec.
Qed.

Lemma on_rom_recorded (elements : child -> list Attributes) (attributes : Attributes)
  (st st' : captures) (u : unit) :
  recorded elements (this st) -> on_rom attributes st = Ok (u, st') ->
  recorded (fun k => elements k ++ if decide (k = Rom) then [attributes] else [])
    (this st').
Proof.
  intros [Hc Hrec] Hrun. unfold on_rom in Hrun. run_callback Hrun.
  solve_recorded Hc Hrec.
Qed.

Lemma on_disk_recorded (elements : child -> list Attributes) (attributes : Attributes)
  (st st' : captures) (u : unit) :
  recorded elements (this st) -> on_disk attributes st = Ok (u, st') ->
  recorded (fun k => elements k ++ if decide (k = Disk) then [attributes] else [])
    (this st').
Proof.
  intros [Hc Hrec] Hrun. unfold on_disk in Hrun. run_callback Hrun.
  solve_recorded Hc Hrec.
Qed.

Lemma on_feature_recorded (elements : child -> list Attributes) (attributes : Attributes)
  (st st' : captures) (u : unit) :
  recorded elements (this st) -> on_feature attributes st = Ok (u, st') ->
  recorded (fun k => elements k ++ if decide (k = Feature) then [attributes] else [])
    (this st').
Proof.
  intros [Hc Hrec] Hrun. unfold on_feature in Hrun. run_callback Hrun.
  solve_recorded Hc Hrec.
Qed.

Lemma on_chip_recorded (elements : child -> list Attributes) (attributes : Attributes)
  (st st' : captures) (u : unit) :
  recorded elements (this st) -> on_chip attributes st = Ok (u, st') ->
  recorded (fun k => elements k ++ if decide (k = Chip) then [attributes] else [])
    (this st').
Proof.
  intros [Hc Hrec] Hrun. unfold on_chip in Hrun. run_callback Hrun.
  solve_recorded Hc Hrec.
Qed.

Lemma on_display_recorded (elements : child -> list Attributes) (attributes : Attributes)
  (st st' : captures) (u : unit) :
  recorded elements (this st) -> on_display attributes st = Ok (u, st') ->
  recorded (fun k => elements k ++ if decide (k = Display) then [attributes] else [])
    (this st').
Proof.
  intros [Hc Hrec] Hrun. unfold on_display in Hrun. run_callback Hrun.
  solve_recorded Hc Hrec.
Qed.

Lemma on_sample_recorded (elements : child -> list Attributes) (attributes : Attributes)
  (st st' : captures) (u : unit) :
  recorded elements (this st) -> on_sample attributes st = Ok (u, st') ->
  recorded (fun k => elements k ++ if decide (k = Sample) then [attributes] else [])
    (this st').
Proof.
  intros [Hc Hrec] Hrun. unfold on_sample in Hrun. run_callback Hrun.
  solve_recorded Hc Hrec.
Qed.

Lemma on_configuration_recorded (elements : child -> list Attributes) (attributes : Attributes)
  (st st' : captures) (u : unit) :
  recorded elements (this st) -> on_configuration attributes st = Ok (u, st') ->
  recorded (fun k => elements k ++ if decide (k = Configuration) then [attributes] else [])
    (this st').
Proof.
  intros [Hc Hrec] Hrun. unfold on_configuration in Hrun. run_callback Hrun.
  solve_recorded Hc Hrec.
Qed.

Lemma on_device_recorded (elements : child -> list Attributes) (attributes : Attributes)
  (st st' : captures) (u : unit) :
  recorded elements (this st) -> on_device attributes st = Ok (u, st') ->
  recorded (fun k => elements k ++ if decide (k = Device) then [attributes] else [])
    (this st').
Proof.
  intros [Hc Hrec] Hrun. unfold on_device in Hrun. run_callback Hrun.
  solve_recorded Hc Hrec.
Qed.

Lemma on_slot_recorded (elements : child -> list Attributes) (attributes : Attributes)
  (st st' : captures) (u : unit) :
  recorded elements (this st) -> on_slot attributes st = Ok (u, st') ->
  recorded (fun k => elements k ++ if decide (k = Slot) then [attributes] else [])
    (this st').
Proof.
  intros [Hc Hrec] Hrun. unfold on_slot in Hrun. run_callback Hrun.
  solve_recorded Hc Hrec.
Qed.

Lemma on_software_list_recorded (elements : child -> list Attributes) (attributes : Attributes)
  (st st' : captures) (u : unit) :
  recorded elements (this st) -> on_software_list attributes st = Ok (u, st') ->
  recorded (fun k => elements k ++ if decide (k = SoftwareList) then [attributes] else [])
    (this st').
Proof.
  intros [Hc Hrec] Hrun. unfold on_software_list in Hrun. run_callback Hrun.
  solve_recorded Hc Hrec.
Qed.

Lemma on_ram_option_recorded (elements : child -> list Attributes) (attributes : Attributes)
  (st st' : captures) (u : unit) :
  recorded elements (this st) -> on_ram_option attributes st = Ok (u, st') ->
  recorded (fun k => elements k ++ if decide (k = RamOption) then [attributes] else [])
    (this st').
Proof.
  intros [Hc Hrec] Hrun. unfold on_ram_option in Hrun. run_callback Hrun.
  solve_recorded Hc Hrec.
Qed.

Lemma on_mame_recorded (elements : child -> list Attributes) (attributes : Attributes)
  (st st' : captures) (u : unit) :
  recorded elements (this st) -> on_mame attributes st = Ok (u, st') ->
  recorded elements (this st').
Proof.
  intros [Hc Hrec] Hrun. unfold on_mame in Hrun. run_callback Hrun.
  solve_recorded Hc Hrec.
Qed.

Lemma on_machine_recorded (elements : child -> list Attributes) (attributes : Attributes)
  (st st' : captures) (u : unit) :
  recorded elements (this st) -> on_machine attributes st = Ok (u, st') ->
  recorded elements (this st').
Proof.
  intros [Hc Hrec] Hrun. unfold on_machine in Hrun. run_callback Hrun.
  solve_recorded Hc Hrec.
Qed.

Lemma on_configuration_setting_recorded (elements : child -> list Attributes) (attributes : Attributes)
  (st st' : captures) (u : unit) :
  recorded elements (this st) -> on_configuration_setting attributes st = Ok (u, st') ->
  recorded elements (this st').
Proof.
  intros [Hc Hrec] Hrun. unfold on_configuration_setting in Hrun. run_callback Hrun.
  solve_recorded Hc Hrec.
Qed.

Lemma on_configuration_condition_recorded (elements : child -> list Attributes) (attributes : Attributes)
  (st st' : captures) (u : unit) :
  recorded elements (this st) -> on_configuration_condition attributes st = Ok (u, st') ->
  recorded elements (this st').
Proof.
  intros [Hc Hrec] Hrun. unfold on_configuration_condition in Hrun. run_callback Hrun.
  solve_recorded Hc Hrec.
Qed.

Lemma on_device_instance_recorded (elements : child -> list Attributes) (attributes : Attributes)
  (st st' : captures) (u : unit) :
  recorded elements (this st) -> on_device_instance attributes st = Ok (u, st') ->
  recorded elements (this st').
Proof.
  intros [Hc Hrec] Hrun. unfold on_device_instance in Hrun. run_callback Hrun.
  solve_recorded Hc Hrec.
Qed.

Lemma on_driver_recorded (elements : child -> list Attributes) (attributes : Attributes)
  (st st' : captures) (u : unit) :
  recorded elements (this st) -> on_driver attributes st = Ok (u, st') ->
  recorded elements (this st').
Proof.
  intros [Hc Hrec] Hrun. unfold on_driver in Hrun. run_callback Hrun.
  solve_recorded Hc Hrec.
Qed.

Lemma on_slot_option_recorded (elements : child -> list Attributes) (attributes : Attributes)
  (st st' : captures) (u : unit) :
  recorded elements (this st) -> on_slot_option attributes st = Ok (u, st') ->
  recorded elements (this st').
Proof.
  intros [Hc Hrec] Hrun. unfold on_slot_option in Hrun. run_callback Hrun.
  solve_recorded Hc Hrec.
Qed.

Lemma on_sound_recorded (elements : child -> list Attributes) (attributes : Attributes)
  (st st' : captures) (u : unit) :
  recorded elements (this st) -> on_sound attributes st = Ok (u, st') ->
  recorded elements (this st').
Proof.
  intros [Hc Hrec] Hrun. unfold on_sound in Hrun. run_callback Hrun.
  solve_recorded Hc Hrec.
Qed.

Lemma on_device_extension_recorded (elements : child -> list Attributes)
  (attributes : Attributes) (st st' : captures) (u : unit) :
  recorded elements (this st) -> on_device_extension attributes st = Ok (u, st') ->
  recorded elements (this st').
Proof.
  intros [Hc Hrec] Hrun. unfold on_device_extension in Hrun.
  destruct (get_string attributes "name"); run_callback Hrun; solve_recorded Hc Hrec.
Qed.

Lemma on_description_end_recorded (elements : child -> list Attributes) (content : string)
  (st st' : captures) (u : unit) :
  recorded elements (this st) -> on_description_end content st = Ok (u, st') ->
  recorded elements (this st').
Proof.
  intros [Hc Hrec] Hrun. unfold on_description_end in Hrun. run_callback Hrun.
  solve_recorded Hc Hrec.
Qed.

Lemma on_year_end_recorded (elements : child -> list Attributes) (content : string)
  (st st' : captures) (u : unit) :
  recorded elements (this st) -> on_year_end content st = Ok (u, st') ->
  recorded elements (this st').
Proof.
  intros [Hc Hrec] Hrun. unfold on_year_end in Hrun. run_callback Hrun.
  solve_recorded Hc Hrec.
Qed.

Lemma on_manufacturer_end_recorded (elements : child -> list Attributes) (content : string)
  (st st' : captures) (u : unit) :
  recorded elements (this st) -> on_manufacturer_end content st = Ok (u, st') ->
  recorded elements (this st').
Proof.
  intros [Hc Hrec] Hrun. unfold on_manufacturer_end in Hrun. run_callback Hrun.
  solve_recorded Hc Hrec.
Qed.

Lemma on_ram_option_end_recorded (elements : child -> list Attributes) (content : string)
  (st st' : captures) (u : unit) :
  recorded elements (this st) -> on_ram_option_end content st = Ok (u, st') ->
  recorded elements (this st').
Proof.
  intros [Hc Hrec] Hrun. unfold on_ram_option_end in Hrun. run_callback Hrun.
  solve_recorded Hc Hrec.
Qed.

Lemma on_device_end_recorded (elements : child -> list Attributes) (content : string)
  (st st' : captures) (u : unit) :
  recorded elements (this st) -> on_device_end content st = Ok (u, st') ->
  recorded elements (this st').
Proof.
  intros [Hc Hrec] Hrun. unfold on_device_end in Hrun. run_callback Hrun.
  destruct (decide _); run_callback Hrun; solve_recorded Hc Hrec.
Qed.

Lemma recorded_ext (elements elements' : child -> list Attributes) (b : database_builder.t) :
  (forall k, elements' k = elements k) -> recorded elements b -> recorded elements' b.
Proof. intros Heq [Hc Hrec]. split; [done|]. intros k. rewrite Heq. apply Hrec. Qed.

Lemma child_elements_cons (k : child) (event : xml_event) (events : list xml_event) :
  child_elements k (event :: events) = child_elements k [event] ++ child_elements k events.
Proof.
  destruct event as [path attributes|path content]; simpl; [|done].
  destruct (decide (path = machine_path)); [done|].
  by destruct (decide (path ∈ child_paths k)).
Qed.

(** One event more. *)
Lemma dispatch_recorded (elements : child -> list Attributes) (event : xml_event)
  (st st' : captures) (u : unit) :
  recorded elements (this st) ->
  dispatch event st = Ok (u, st') ->
  recorded (fun k => elements k ++ child_elements k [event]) (this st').
Proof.
  intros Hrec Hrun. destruct event as [path attributes|path content].
  - unfold dispatch, begin_callbacks in Hrun. cbn [find_callback] in Hrun.
    repeat
      match type of Hrun with
      | context [decide (path ∈ ?paths)] =>
          destruct (decide (path ∈ paths)) as [Hin|?];
          [ path_cases Hin; subst path;
            lazymatch type of Hrun with
          | on_machine _ _ = _ => apply (on_machine_recorded _ _ _ _ _ Hrec) in Hrun
          | on_mame _ _ = _ => apply (on_mame_recorded _ _ _ _ _ Hrec) in Hrun
          | on_biosset _ _ = _ => apply (on_biosset_recorded _ _ _ _ _ Hrec) in Hrun
          | on_rom _ _ = _ => apply (on_rom_recorded _ _ _ _ _ Hrec) in Hrun
          | on_disk _ _ = _ => apply (on_disk_recorded _ _ _ _ _ Hrec) in Hrun
          | on_feature _ _ = _ => apply (on_feature_recorded _ _ _ _ _ Hrec) in Hrun
          | on_chip _ _ = _ => apply (on_chip_recorded _ _ _ _ _ Hrec) in Hrun
          | on_display _ _ = _ => apply (on_display_recorded _ _ _ _ _ Hrec) in Hrun
          | on_sample _ _ = _ => apply (on_sample_recorded _ _ _ _ _ Hrec) in Hrun
          | on_configuration _ _ = _ => apply (on_configuration_recorded _ _ _ _ _ Hrec) in Hrun
          | on_configuration_setting _ _ = _ => apply (on_configuration_setting_recorded _ _ _ _ _ Hrec) in Hrun
          | on_configuration_condition _ _ = _ => apply (on_configuration_condition_recorded _ _ _ _ _ Hrec) in Hrun
          | on_device _ _ = _ => apply (on_device_recorded _ _ _ _ _ Hrec) in Hrun
          | on_device_instance _ _ = _ => apply (on_device_instance_recorded _ _ _ _ _ Hrec) in Hrun
          | on_device_extension _ _ = _ => apply (on_device_extension_recorded _ _ _ _ _ Hrec) in Hrun
          | on_driver _ _ = _ => apply (on_driver_recorded _ _ _ _ _ Hrec) in Hrun
          | on_slot _ _ = _ => apply (on_slot_recorded _ _ _ _ _ Hrec) in Hrun
          | on_slot_option _ _ = _ => apply (on_slot_option_recorded _ _ _ _ _ Hrec) in Hrun
          | on_software_list _ _ = _ => apply (on_software_list_recorded _ _ _ _ _ Hrec) in Hrun
          | on_ram_option _ _ = _ => apply (on_ram_option_recorded _ _ _ _ _ Hrec) in Hrun
          | on_sound _ _ = _ => apply (on_sound_recorded _ _ _ _ _ Hrec) in Hrun
            end;
            (eapply recorded_ext; [|exact Hrun]); intros k; destruct k; simpl;
            rewrite ?app_nil_r; reflexivity
          | ]
      end.
    apply M_ret_Ok in Hrun as [_ ->].
    eapply recorded_ext; [|exact Hrec]. intros k. simpl.
    destruct (decide (path = machine_path)); [by rewrite app_nil_r|].
    destruct (decide (path ∈ child_paths k)) as [Hk|Hk]; [|by rewrite app_nil_r].
    destruct k; cbn in Hk; path_cases Hk; subst path; absurd_path.
  - simpl. eapply recorded_ext; [intros k; by rewrite app_nil_r|].
    unfold dispatch, end_callbacks in Hrun. cbn [find_callback] in Hrun.
    repeat
      match type of Hrun with
      | context [decide (path ∈ ?paths)] =>
          destruct (decide (path ∈ paths)) as [Hin|?];
          [ lazymatch type of Hrun with
          | on_description_end _ _ = _ => by apply (on_description_end_recorded _ _ _ _ _ Hrec) in Hrun
          | on_year_end _ _ = _ => by apply (on_year_end_recorded _ _ _ _ _ Hrec) in Hrun
          | on_manufacturer_end _ _ = _ => by apply (on_manufacturer_end_recorded _ _ _ _ _ Hrec) in Hrun
          | on_device_end _ _ = _ => by apply (on_device_end_recorded _ _ _ _ _ Hrec) in Hrun
          | on_ram_option_end _ _ = _ => by apply (on_ram_option_end_recorded _ _ _ _ _ Hrec) in Hrun
            end
          | ]
      end.
    by apply M_ret_Ok in Hrun as [_ ->].
Qed.

(** The callbacks of a whole run of events. *)
Lemma parse_recorded (events : list xml_event) (elements : child -> list Attributes)
  (st st' : captures) (u : unit) :
  recorded elements (this st) ->
  parse events st = Ok (u, st') ->
  recorded (fun k => elements k ++ child_elements k events) (this st').
Proof.
  revert elements st. induction events as [|event events IH];
    intros elements st Hrec Hrun; simpl in Hrun.
  - apply M_ret_Ok in Hrun as [_ ->].
    eapply recorded_ext; [|done]. intros k. simpl. by rewrite app_nil_r.
  - apply M_bind_Ok in Hrun as (u1 & st1 & Hstep & Hrun).
    pose proof (dispatch_recorded _ _ _ _ _ Hrec Hstep) as Hrec1.
    specialize (IH _ _ Hrec1 Hrun).
    eapply recorded_ext; [|done]. intros k. cbv beta.
    by rewrite (child_elements_cons k event), app_assoc.
Qed.

Lemma recorded_ctor : recorded (fun _ => []) database_builder.ctor.
Proof. split; [apply consistent_ctor|]. intros k. destruct k; constructor. Qed.

(** The finalization keeps the child tables and extends the string table. *)
Lemma finalize_recorded (elements : child -> list Attributes) (st st' : captures) (u : unit) :
  recorded elements (this st) -> finalize st = Ok (u, st') -> recorded elements (this st').
Proof.
  intros [Hc Hrec] Hrun. pose proof (finalize_same _ _ _ Hrun) as Hsame.
  apply finalize_returns in Hrun. cbv zeta in Hrun.
  destruct Hrun as (named & empty & _ & Hempty & _).
  assert (Hended : consistent (string_table.embed_value MAGIC_STRINGTABLE_END
                                (m_strings (this st)))) by by apply consistent_embed_value.
  destruct (get_returns _ _ _ _ Hended Hempty) as (Hc' & He' & _).
  assert (Hext : extends (m_strings (this st)) (m_strings (this st'))).
  { eapply extends_trans; [apply extends_embed_value|done]. }
  split; [done|]. intros k. specialize (Hrec k).
  apply (records_of_extends k _ _ _ _ Hext) in Hrec.
  unfold same_tables in Hsame. destruct_and!.
  destruct k; simpl in *; congruence.
Qed.

(** The child tables of a database that [process_xml] returns hold the
    records of the child elements of the document, in their order. *)
Lemma process_xml_recorded (input : xml_document) (db : t) :
  process_xml input ctor = Ok (Built db) ->
  forall k, records_of k (m_strings db) db (child_elements k (xml_events input)).
Proof.
  intros Hrun.
  apply process_xml_Built in Hrun as (st & st' & u & u' & Hparse & Hfin & ->).
  pose proof (parse_recorded _ (fun _ => []) (Captures ctor initial_header EmptyString)
                _ _ recorded_ctor Hparse) as Hrec.
  apply (finalize_recorded _ _ _ _ Hrec) in Hfin as [_ Hfin]. exact Hfin.
Qed.

End recorded_properties.

(** ** info_builder.cpp: the ranges of the machines in the child tables *)

Section machine_table_properties.
Context `{info.Declarations}.
Import info info.binaries info.database_builder.

Lemma in_range_resolve_links (map : gmap Z Z) (k : child) (m : machine.t) (p : nat) :
  in_range k (resolve_links map m) p <-> in_range k m p.
Proof. unfold in_range. by destruct (resolve_links_child map m k) as [-> ->]. Qed.

Lemma machine_elements_app (before after : list xml_event) :
  machine_elements (before ++ after) = machine_elements before ++ machine_elements after.
Proof.
  induction before as [|event before IH]; [done|].
  rewrite <- app_comm_cons, machine_elements_cons, (machine_elements_cons event before), IH.
  by rewrite app_assoc.
Qed.

Lemma child_elements_app (k : child) (before after : list xml_event) :
  child_elements k (before ++ after) = child_elements k before ++ child_elements k after.
Proof.
  induction before as [|event before IH]; [done|].
  rewrite <- app_comm_cons, child_elements_cons, (child_elements_cons k event before), IH.
  by rewrite app_assoc.
Qed.

Lemma owners_app (k : child) (begun : nat) (before after : list xml_event) :
  owners k begun (before ++ after)
  = owners k begun before ++ owners k (begun + length (machine_elements before)) after.
Proof.
  revert begun. induction before as [|event before IH]; intros begun.
  - simpl. by rewrite Nat.add_0_r.
  - rewrite <- app_comm_cons, owners_cons, (owners_cons k begun event before), IH.
    rewrite (machine_elements_cons event before), length_app, <- app_assoc.
    by rewrite Nat.add_assoc.
Qed.

Lemma owners_length (k : child) (begun : nat) (events : list xml_event) :
  length (owners k begun events) = length (child_elements k events).
Proof.
  revert begun. induction events as [|[path attributes|path content] events IH];
    intros begun; simpl; [done| |apply IH].
  destruct (decide (path = machine_path)); [apply IH|].
  destruct (decide (path ∈ child_paths k)); simpl; by rewrite IH.
Qed.

(** A child element of the document has, in [owners] and in
    [child_elements], the position that is the number of the children of
    its kind before it; its owner is the last machine begun before it. *)
Lemma child_position (k : child) (before after : list xml_event) (path : list string)
  (a : Attributes) :
  path ∈ child_paths k ->
  owners k 0 (before ++ ElementBegin path a :: after) !! length (child_elements k before)
  = Some (Nat.pred (length (machine_elements before))) /\
  child_elements k (before ++ ElementBegin path a :: after) !! length (child_elements k before)
  = Some a.
Proof.
  intros Hk. pose proof (child_paths_not_machine _ _ Hk) as Hm.
  rewrite owners_app, child_elements_app. split.
  - rewrite lookup_app_r by (rewrite owners_length; lia).
    rewrite owners_length, Nat.sub_diag. simpl.
    rewrite decide_False by done. by rewrite decide_True.
  - rewrite lookup_app_r by lia. rewrite Nat.sub_diag. simpl.
    rewrite decide_False by done. by rewrite decide_True.
Qed.

(** C1. After a successful [process_xml] each record of the machine table is
    the record of one machine element of the document (its ordinal, the
    element whose name the record refers to), no two records of the same
    element. For every child table: the table holds, in the order of the
    document, the records of the child elements of its kind, the record at
    a position being the record of the child element that has that position
    among them; a child element has the position that is the number of
    children of its kind before it, and its owner is the machine begun last
    before it; the positions whose children were appended while a machine
    was the current one are exactly the positions from the index of its
    record on, as many as its count; and the ranges of two records of the
    machine table have no position in common. *)
Theorem child_ranges_contiguous (input : xml_document) (db : t) :
  StdSort ->
  process_xml input ctor = Ok (Built db) ->
  exists ordinals : list nat,
    ordinals ≡ₚ seq 0 (length (machine_elements (xml_events input))) /\
    Forall2 (fun j m =>
               (exists a, machine_elements (xml_events input) !! j = Some a /\
                          reference_of (m_strings db) (attribute_text a "name")
                            (machine.m_name_strindex m)) /\
               forall k p,
                 owners k 0 (xml_events input) !! p = Some j <-> in_range k m p)
      ordinals (m_machines db) /\
    (forall k, records_of k (m_strings db) db (child_elements k (xml_events input))) /\
    (forall k before path a after,
       xml_events input = before ++ ElementBegin path a :: after ->
       path ∈ child_paths k ->
       owners k 0 (xml_events input) !! length (child_elements k before)
       = Some (Nat.pred (length (machine_elements before))) /\
       child_elements k (xml_events input) !! length (child_elements k before) = Some a) /\
    (forall k, length (owners k 0 (xml_events input)) = table_size k db) /\
    (forall k i i' m m' p,
       i <> i' -> m_machines db !! i = Some m -> m_machines db !! i' = Some m' ->
       in_range k m p -> ~ in_range k m' p).
Proof.
  intros Hsort Hrun.
  pose proof (process_xml_recorded _ _ Hrun) as Hrecords.
  destruct (process_xml_built _ _ Hsort Hrun) as (rows & empty & Hb).
  destruct Hb as [Hord Hrows _ Hmachines _ _ Hsizes _].
  assert (Hall : Forall2 (fun j m =>
             (exists a, machine_elements (xml_events input) !! j = Some a /\
                        reference_of (m_strings db) (attribute_text a "name")
                          (machine.m_name_strindex m)) /\
             forall k p,
               owners k 0 (xml_events input) !! p = Some j <-> in_range k m p)
           (row_ordinal <$> rows) (m_machines db)).
  { rewrite Hmachines. apply Forall2_fmap, Forall2_fmap_r, Forall_Forall2_diag.
    eapply Forall_impl; [exact Hrows|]. intros r (Ha & (Hname & _) & _ & Hiff). simpl.
    split; [by eexists|]. intros k p.
    rewrite in_range_resolve_links. apply Hiff. }
  exists (row_ordinal <$> rows). split_and!; [done|done|done| |apply Hsizes|].
  { intros k before path a after -> Hk. by apply child_position. }
  intros k i i' m m' p Hne Hm Hm' Hin Hin'.
  destruct (Forall2_lookup_r _ _ _ _ _ Hall Hm) as (j & Hj & _ & Hiff).
  destruct (Forall2_lookup_r _ _ _ _ _ Hall Hm') as (j' & Hj' & _ & Hiff').
  apply Hiff in Hin. apply Hiff' in Hin'. rewrite Hin in Hin'. injection Hin' as <-.
  assert (Hnodup : NoDup (row_ordinal <$> rows)) by (rewrite Hord; apply NoDup_seq).
  by pose proof (NoDup_lookup _ _ _ _ Hnodup Hj Hj').
Qed.

End machine_table_properties.

(** ** The machine table and the task on the sample inputs *)

Section sample_tables.
Import info info.binaries info.database_builder.

Lemma child_ranges_contiguous_witness :
  let db := sample.database sample.document in
  StdSort /\
  process_xml sample.document ctor = Ok (Built db) /\
  (fun a => attribute_text a "name") <$> child_elements Rom (xml_events sample.document)
  = ["b.bin"; "a.bin"]%string /\
  (fun m => (machine.m_roms_index m, machine.m_roms_count m)) <$> m_machines db
  = [(1, 1); (0, 1)] /\
  exists ordinals : list nat,
    ordinals ≡ₚ seq 0 (length (machine_elements (xml_events sample.document))) /\
    Forall2 (fun j m =>
               (exists a, machine_elements (xml_events sample.document) !! j = Some a /\
                          reference_of (m_strings db) (attribute_text a "name")
                            (machine.m_name_strindex m)) /\
               forall k p,
                 owners k 0 (xml_events sample.document) !! p = Some j <-> in_range k m p)
      ordinals (m_machines db) /\
    (forall k, records_of k (m_strings db) db (child_elements k (xml_events sample.document))) /\
    (forall k before path a after,
       xml_events sample.document = before ++ ElementBegin path a :: after ->
       path ∈ child_paths k ->
       owners k 0 (xml_events sample.document) !! length (child_elements k before)
       = Some (Nat.pred (length (machine_elements before))) /\
       child_elements k (xml_events sample.document) !! length (child_elements k before)
       = Some a) /\
    (forall k, length (owners k 0 (xml_events sample.document)) = table_size k db) /\
    (forall k i i' m m' p,
       i <> i' -> m_machines db !! i = Some m -> m_machines db !! i' = Some m' ->
       in_range k m p -> ~ in_range k m' p).
Proof.
  intros db.
  assert (Hrun : process_xml sample.document ctor = Ok (Built db))
    by (vm_compute; reflexivity).
  split; [exact sample_std_sort|]. split; [exact Hrun|].
  split; [vm_compute; reflexivity|]. split; [vm_compute; reflexivity|].
  exact (child_ranges_contiguous sample.document db sample_std_sort Hrun).
Defined.

Lemma machines_sorted_and_found_witness :
  let db := sample.database sample.document in
  StdSort /\
  process_xml sample.document ctor = Ok (Built db) /\
  (fun a => attribute_text a "name") <$> machine_elements (xml_events sample.document)
  = ["bbb"; "aaa"]%string /\
  exists (names : list string) (elements : list Attributes),
    database.machine_names db = Ok names /\
    names = ["aaa"; "bbb"]%string /\
    elements ≡ₚ machine_elements (xml_events sample.document) /\
    Forall2 (fun a m =>
               reference_of (m_strings db) (attribute_text a "name")
                 (machine.m_name_strindex m))
      elements (m_machines db) /\
    names = (fun a => attribute_text a "name") <$> elements /\
    StronglySorted (fun a b => strcmp a b <= 0) names /\
    forall target : string,
      (target ∈ names ->
       exists i m,
         database.find_machine db target = Ok (Some (i, m)) /\
         m_machines db !! i = Some m /\
         string_table.lookup (machine.m_name_strindex m) (m_strings db) = Ok target) /\
      (target ∉ names -> database.find_machine db target = Ok None).
Proof.
  intros db.
  assert (Hrun : process_xml sample.document ctor = Ok (Built db))
    by (vm_compute; reflexivity).
  assert (Hsorted : database.machine_names db = Ok ["aaa"; "bbb"]%string)
    by (vm_compute; reflexivity).
  split; [exact sample_std_sort|]. split; [exact Hrun|].
  split; [vm_compute; reflexivity|].
  destruct (machines_sorted_and_found sample.document db sample_std_sort Hrun)
    as (names & elements & Hnames & Hperm & Hrefs & Hdocument & Hordered & Hfind).
  exists names, elements. split; [exact Hnames|].
  split; [congruence|]. split; [exact Hperm|]. split; [exact Hrefs|]. split.
  - apply Hdocument.
    + exact sample_small_strings.
    + apply sample_offsets_below. vm_compute. discriminate.
    + apply (bool_decide_unpack _). vm_compute. exact I.
  - split; [exact Hordered | exact Hfind].
Defined.

(** C8, the claim as it is written, at a document that is parsed and built,
    without a pending abort, when the output file cannot be opened: the
    result is [ERROR] although no parse failed. *)
Lemma error_without_parse_failure :
  process_xml sample.document ctor = Ok (Built (sample.database sample.document)) /\
  ListXmlTask.process "info.db"
    {| ListXmlTask.listxml_output := sample.document;
       ListXmlTask.hasAborted := false;
       ListXmlTask.file_opens := false |}
  = Ok (ListXmlResultEvent.Build ListXmlResultEvent.ERROR "Could not open file: info.db",
        None).
Proof. split; vm_compute; reflexivity. Defined.

End sample_tables.
